(** * anime_backend: the resilient fetch and caching pipeline

    A shallow embedding of the TypeScript sources

      - [src/http/rateLimiter.ts]    (per-host token bucket, [limit])
      - [src/http/scrapeMetrics.ts]  (per-site health records)
      - [src/http/fetcher.ts]        (cookie jar, [fetchResponse]; its text
                                      follows that of [scrapeMetrics.ts] in
                                      the same file of the source tree)
      - [src/http/errors.ts]         (error classes)
      - [src/middlewares/cache.ts]   ([serverCache])
      - [src/services/dataFetcher.ts] ([joinCookies], [getFinalUrl],
                                      [getFinalUrls])
      - [src/services/dataFetcherFallback.ts] ([getFinalUrlFallback],
                                      [getFinalUrlsFallback])
      - [src/helpers/honoHelpers.ts] ([generateHonoPayload])

    [src/libs/lruCache.ts] is not among the sources; module [LruCache]
    models it from the specification.

    Conventions of the embedding.

      - JavaScript numbers that hold times, token counts and rates are exact
        rationals ([Q]); counters and HTTP statuses are integers.  The model
        does not round: it is the program run with exact arithmetic.
      - Time is a logical clock [now] (milliseconds) held in the state.
        [Date.now()] reads it; a timer of [ms] milliseconds moves it forward
        by at least [ms] (the environment may add a lag), never by less.
      - Module-level [Map]s are finite maps ([gmap]) in an explicit state.  A
        [Map] whose iteration order is observable (the cookies of one host)
        is an association list kept in insertion order.
      - The outside world (the upstream server, [Math.random], timer lag, the
        downstream handler of the cache) is an oracle the model consults.
      - [async] loops that can run forever take a fuel argument; the
        theorems that say a call returns exhibit enough fuel. *)

From Stdlib Require Import Ascii String DecimalString QArith Qminmax Qround ZArith Lia Lqa.
From stdpp Require Import gmap strings list.

Set Warnings "-register-all".

Local Open Scope Z_scope.
Local Open Scope string_scope.

(** ** JavaScript strings

    A string is a sequence of code units; the model keeps the code units
    below 256, which covers every character the cookie code looks at
    ([;], [=], [,] and white space). *)

Module JsString.

(** White space removed by [String.prototype.trim] (WhiteSpace and
    LineTerminator code units below 256): TAB, LF, VT, FF, CR, SP, NBSP. *)
Definition is_space (c : ascii) : bool :=
  let n := nat_of_ascii c in
  bool_decide (n = 9 ∨ n = 10 ∨ n = 11 ∨ n = 12 ∨ n = 13 ∨ n = 32 ∨ n = 160)%nat.

Fixpoint trimStart (s : string) : string :=
  match s with
  | String c t => if is_space c then trimStart t else s
  | EmptyString => EmptyString
  end.

Fixpoint trimEnd (s : string) : string :=
  match s with
  | String c t =>
      match trimEnd t with
      | EmptyString => if is_space c then EmptyString else String c EmptyString
      | t' => String c t'
      end
  | EmptyString => EmptyString
  end.

Definition trim (s : string) : string := trimEnd (trimStart s).

(** [s.split(sep)] for a one-character separator. *)
Fixpoint split (sep : ascii) (s : string) : list string :=
  match s with
  | EmptyString => [EmptyString]
  | String c t =>
      if Ascii.eqb c sep then EmptyString :: split sep t
      else match split sep t with
           | h :: r => String c h :: r
           | [] => [String c EmptyString]
           end
  end.

(** [parts.join(sep)]. *)
Definition join (sep : string) (parts : list string) : string :=
  String.concat sep parts.

(** [Boolean(s)]: a string is truthy when it is not empty. *)
Definition truthy (s : string) : bool :=
  match s with EmptyString => false | _ => true end.

(** [Boolean(s)] for [s : string | undefined]. *)
Definition truthy_opt (s : option string) : bool :=
  match s with Some s => truthy s | None => false end.

End JsString.

(** ** JavaScript [Map<string, string>] with its insertion order *)

Module JsMap.

Definition t : Type := list (string * string).

Definition empty : t := [].

(** [m.set(k, v)]: an existing key keeps its position and gets the new
    value, a new key goes to the end. *)
Fixpoint set (k v : string) (m : t) : t :=
  match m with
  | [] => [(k, v)]
  | (k', v') :: r =>
      if String.eqb k' k then (k', v) :: r else (k', v') :: set k v r
  end.

Fixpoint get (k : string) (m : t) : option string :=
  match m with
  | [] => None
  | (k', v') :: r => if String.eqb k' k then Some v' else get k r
  end.

Definition size (m : t) : nat := length m.

(** [src.forEach((value, key) => dst.set(key, value))] and the like: the
    bindings of [src] are set on [dst] in order. *)
Definition setAll (src : list (string * string)) (dst : t) : t :=
  fold_left (fun acc kv => set (fst kv) (snd kv) acc) src dst.

End JsMap.

(** ** The cookie jar ([src/http/fetcher.ts]) *)

Module CookieJar.

(** [const cookieJar = new Map<string, Map<string, string>>()]. *)
Abbreviation Jar := (gmap string JsMap.t).

(** [const [name, ...rest] = part.split("="); ... rest.join("=")]. *)
Definition nameValue (part : string) : string * string :=
  match JsString.split "="%char part with
  | name :: rest => (name, JsString.join "=" rest)
  | [] => (EmptyString, EmptyString)
  end.

(** The bindings that the local function [append] of [buildCookieHeader]
    sets, in order: the [;]-separated parts, trimmed, the empty ones
    dropped, those with an empty name skipped. *)
Definition cookiePairs (cookieString : string) : list (string * string) :=
  filter (fun nv => JsString.truthy (fst nv) = true)
    (map nameValue
       (filter (fun part => JsString.truthy part = true)
          (map JsString.trim (JsString.split ";"%char cookieString)))).

Definition append (cookieString : string) (cookieMap : JsMap.t) : JsMap.t :=
  JsMap.setAll (cookiePairs cookieString) cookieMap.

(** The map [cookieMap] as [buildCookieHeader] has it before the final
    size test. *)
Definition mergedCookies (stored : JsMap.t) (override : option string) : JsMap.t :=
  let cookieMap := JsMap.setAll stored JsMap.empty in
  match override with
  | Some o => if JsString.truthy o then append o cookieMap else cookieMap
  | None => cookieMap
  end.

Definition render (cookieMap : JsMap.t) : string :=
  JsString.join "; " (map (fun kv => fst kv +:+ "=" +:+ snd kv) cookieMap).

Definition buildCookieHeader (jar : Jar) (host : string) (override : option string)
  : option string :=
  let stored := default JsMap.empty (jar !! host) in
  if negb (JsString.truthy_opt override) && (JsMap.size stored =? 0)%nat then None
  else
    let cookieMap := mergedCookies stored override in
    if (JsMap.size cookieMap =? 0)%nat then None
    else Some (render cookieMap).

End CookieJar.


Module CookieStore.

(** [fallback.split(/,(?=[^;]+?=)/g)]: the look-ahead holds right after a
    comma when at least one character other than [;] follows and an [=]
    comes before the next [;]. *)
Fixpoint lookaheadRest (s : string) : bool :=
  match s with
  | EmptyString => false
  | String c t =>
      if Ascii.eqb c "="%char then true
      else if Ascii.eqb c ";"%char then false
      else lookaheadRest t
  end.

Definition lookahead (s : string) : bool :=
  match s with
  | EmptyString => false
  | String c t => if Ascii.eqb c ";"%char then false else lookaheadRest t
  end.

Fixpoint splitSetCookie (s : string) : list string :=
  match s with
  | EmptyString => [EmptyString]
  | String c t =>
      if Ascii.eqb c ","%char && lookahead t then EmptyString :: splitSetCookie t
      else match splitSetCookie t with
           | h :: r => String c h :: r
           | [] => [String c EmptyString]
           end
  end.

(** What [(response.headers as any).getSetCookie?.()] evaluates to. *)
Inductive RawSetCookie :=
| RawUndefined
| RawArray (cookies : list string)
| RawString (cookie : string).

(** The array [cookies] that [storeCookies] builds. *)
Definition collect (rawSetCookie : RawSetCookie) (fallback : option string) : list string :=
  let cookies :=
    match rawSetCookie with
    | RawArray l => l
    | RawString s => [s]
    | RawUndefined => []
    end in
  match fallback with
  | Some f => if JsString.truthy f then cookies ++ splitSetCookie f else cookies
  | None => cookies
  end.

(** The body of [for (const cookie of cookies)]. *)
Definition storeOne (store : JsMap.t) (cookie : string) : JsMap.t :=
  match JsString.split ";"%char cookie with
  | pair0 :: _ =>
      if JsString.truthy pair0 then
        let nv := CookieJar.nameValue (JsString.trim pair0) in
        if JsString.truthy (fst nv) then JsMap.set (fst nv) (snd nv) store else store
      else store
  | [] => store
  end.

Definition storeCookies (host : string) (rawSetCookie : RawSetCookie)
    (fallback : option string) (jar : CookieJar.Jar) : CookieJar.Jar :=
  let cookies := collect rawSetCookie fallback in
  match cookies with
  | [] => jar
  | _ =>
      let store := default JsMap.empty (jar !! host) in
      <[host := fold_left storeOne cookies store]> jar
  end.

End CookieStore.

(** ** Errors ([src/http/errors.ts]) and other thrown values *)

Module Errors.

(** A value that did not come from this code base: what [fetch] rejects
    with (a [DOMException], a [TypeError]) or the [reason] of an abort
    signal.  Only the properties that the handler of [fetchResponse]
    probes are kept. *)
Record Foreign := {
  f_name : option string;      (* [error?.name] *)
  f_isError : bool;            (* [error instanceof Error] *)
  f_message : string;          (* [error.message] *)
  f_status : option Z          (* [error?.status] when it is a number *)
}.

Inductive Thrown :=
| ScraperError (message : string) (status : option Z) (url : option string)
    (site : option string) (cause : option Thrown)
| FetchFailedError (message : string) (attempt : Z) (status : option Z)
    (url : string) (site : option string) (cause : option Thrown)
| ForeignError (e : Foreign).

(** [error?.name]; the constructors of the two classes set it. *)
Definition name (e : Thrown) : option string :=
  match e with
  | ScraperError _ _ _ _ _ => Some "ScraperError"
  | FetchFailedError _ _ _ _ _ _ => Some "FetchFailedError"
  | ForeignError f => f_name f
  end.

(** [typeof error?.status === "number" ? error.status : undefined]. *)
Definition status (e : Thrown) : option Z :=
  match e with
  | ScraperError _ s _ _ _ => s
  | FetchFailedError _ _ s _ _ _ => s
  | ForeignError f => f_status f
  end.

Definition isFetchFailedError (e : Thrown) : bool :=
  match e with FetchFailedError _ _ _ _ _ _ => true | _ => false end.

(** [error instanceof Error ? error.message : "Unknown fetch error"]. *)
Definition messageOf (e : Thrown) : string :=
  match e with
  | ScraperError m _ _ _ _ => m
  | FetchFailedError m _ _ _ _ _ => m
  | ForeignError f => if f_isError f then f_message f else "Unknown fetch error"
  end.

(** The [attempt] property, which only a [FetchFailedError] has. *)
Definition attemptOf (e : Thrown) : option Z :=
  match e with FetchFailedError _ a _ _ _ _ => Some a | _ => None end.

End Errors.

(** ** The state of the process and the outside world *)

Module Http.

(** The part of a [Response] that the code reads. *)
Record Response := {
  status : Z;
  getSetCookie : CookieStore.RawSetCookie;   (* [headers.getSetCookie?.()] *)
  setCookieHeader : option string;           (* [headers.get("set-cookie")] *)
  location : option string;                  (* [headers.get("location")] *)
  responseUrl : string;                      (* [response.url] *)
  text : string
}.

(** [response.ok]. *)
Definition ok (r : Response) : bool :=
  ((200 <=? status r)%Z && (status r <=? 299)%Z)%bool.

(** [new URL(url)]: the two properties the code reads. *)
Record URL := { host : string; origin : string }.

(** An [AbortSignal]: the time at which it aborts, if it ever does, and its
    [reason]. *)
Record AbortSignal := { abortAt : option Q; reason : Errors.Foreign }.

End Http.

Module Metrics.

Record LastError := {
  at_ : Q;
  le_status : option Z;
  le_message : string;
  le_url : option string
}.

(** [type ScrapeHealth]. *)
Record ScrapeHealth := {
  lastSuccess : option Q;
  lastError : option LastError;
  consecutiveFailures : nat
}.

End Metrics.

Module World.

(** [{ tokens: number; last: number }]. *)
Record Bucket := { tokens : Q; last : Q }.

(** One call of [fetch], as the log keeps it. *)
Record FetchRecord := {
  fr_attempt : Z;
  fr_at : Q;                                (* when the request was sent *)
  fr_url : string;
  fr_headers : gmap string string;
  fr_result : Http.Response + Errors.Foreign
}.

(** What the upstream does with one request: it answers, or the
    connection fails, after [latency] milliseconds. *)
Record Upstream := { latency : N; reply : Http.Response + Errors.Foreign }.

(** The outside world. *)
Record Env := {
  parseURL : string -> option Http.URL;   (* [new URL(s)], [None]: it throws *)
  upstream : nat -> Upstream;             (* the k-th call of [fetch] *)
  lag : nat -> N;                         (* how late the k-th timer fires *)
  random : nat -> N                       (* the k-th [Math.random()] *)
}.

(** The module-level state of the process, the clock and the log. *)
Record t := {
  now : Q;
  timers : nat;                           (* timers awaited so far *)
  randoms : nat;                          (* [Math.random()] calls so far *)
  buckets : gmap string Bucket;           (* rateLimiter.ts *)
  metrics : gmap string Metrics.ScrapeHealth;   (* scrapeMetrics.ts *)
  cookieJar : CookieJar.Jar;              (* fetcher.ts *)
  uaState : gmap string Z;                (* fetcher.ts *)
  fetchLog : list FetchRecord             (* newest first *)
}.

Definition with_buckets (f : gmap string Bucket -> gmap string Bucket) (w : t) : t :=
  {| now := now w; timers := timers w; randoms := randoms w;
     buckets := f (buckets w); metrics := metrics w; cookieJar := cookieJar w;
     uaState := uaState w; fetchLog := fetchLog w |}.

Definition with_metrics
    (f : gmap string Metrics.ScrapeHealth -> gmap string Metrics.ScrapeHealth) (w : t) : t :=
  {| now := now w; timers := timers w; randoms := randoms w;
     buckets := buckets w; metrics := f (metrics w); cookieJar := cookieJar w;
     uaState := uaState w; fetchLog := fetchLog w |}.

Definition with_cookieJar (f : CookieJar.Jar -> CookieJar.Jar) (w : t) : t :=
  {| now := now w; timers := timers w; randoms := randoms w;
     buckets := buckets w; metrics := metrics w; cookieJar := f (cookieJar w);
     uaState := uaState w; fetchLog := fetchLog w |}.

Definition with_uaState (f : gmap string Z -> gmap string Z) (w : t) : t :=
  {| now := now w; timers := timers w; randoms := randoms w;
     buckets := buckets w; metrics := metrics w; cookieJar := cookieJar w;
     uaState := f (uaState w); fetchLog := fetchLog w |}.

Definition ofN (n : N) : Q := inject_Z (Z.of_N n).

(** [await sleep(ms)] and [await delay(ms)]: the timer fires [ms]
    milliseconds later (at once when [ms] is not positive) plus the lag
    the environment adds. *)
Definition sleep (env : Env) (ms : Q) (w : t) : t :=
  {| now := (now w + Qmax 0 ms + ofN (lag env (timers w)))%Q;
     timers := S (timers w); randoms := randoms w;
     buckets := buckets w; metrics := metrics w; cookieJar := cookieJar w;
     uaState := uaState w; fetchLog := fetchLog w |}.

(** [Math.random()]: a number in [0, 1). *)
Definition Math_random (env : Env) (w : t) : Q * t :=
  ((Z.of_N (random env (randoms w) mod 1000000) # 1000000)%Q,
   {| now := now w; timers := timers w; randoms := S (randoms w);
      buckets := buckets w; metrics := metrics w; cookieJar := cookieJar w;
      uaState := uaState w; fetchLog := fetchLog w |}).

(** The request leaves at [now w]; the clock stops at [doneAt]. *)
Definition logFetch (r : FetchRecord) (doneAt : Q) (w : t) : t :=
  {| now := doneAt; timers := timers w; randoms := randoms w;
     buckets := buckets w; metrics := metrics w; cookieJar := cookieJar w;
     uaState := uaState w; fetchLog := r :: fetchLog w |}.

End World.

(** ** The rate limiter ([src/http/rateLimiter.ts]) *)

Module RateLimiter.
Import World.

(** One run of the body of [limit] up to its [await] or its end.  The
    result is the new state and, when the caller has to wait, the
    milliseconds passed to [sleep].

    [bucket] is the stored object when the host has one: the two
    assignments then change the stored bucket at once.  Otherwise it is a
    fresh object, which reaches the map only by the final [buckets.set]. *)
Definition limitPass (host : string) (rps burst : Q) (w : World.t) : World.t * option Q :=
  let now := World.now w in
  let stored := buckets w !! host in
  let bucket := default {| tokens := burst; last := now |} stored in
  let delta := ((now - last bucket) / 1000)%Q in
  let tokens' := Qmin burst (tokens bucket + delta * rps)%Q in
  let w1 :=
    match stored with
    | Some _ => with_buckets (insert host {| tokens := tokens'; last := now |}) w
    | None => w
    end in
  if Qlt_le_dec tokens' 1 then
    let waitSeconds := ((1 - tokens') / rps)%Q in
    (w1, Some (waitSeconds * 1000)%Q)
  else
    (with_buckets (insert host {| tokens := (tokens' - 1)%Q; last := now |}) w, None).

(** [limit({ host, rps, burst })] with the defaults resolved; [fuel]
    bounds the number of recursive calls. *)
Fixpoint limitLoop (fuel : nat) (env : Env) (host : string) (rps burst : Q)
    (w : World.t) : option World.t :=
  match fuel with
  | O => None
  | S fuel' =>
      match limitPass host rps burst w with
      | (w', None) => Some w'
      | (w', Some ms) => limitLoop fuel' env host rps burst (sleep env ms w')
      end
  end.

(** [limit({ host, rps = 0.5, burst = 2 })]. *)
Definition limit (fuel : nat) (env : Env) (host : string) (rps burst : option Q)
    (w : World.t) : option World.t :=
  limitLoop fuel env host (default (1 # 2)%Q rps) (default 2%Q burst) w.

(** The token count that a call of [limit] at the state [w] finds after
    the refill. *)
Definition available (host : string) (rps burst : Q) (w : World.t) : Q :=
  let bucket := default {| tokens := burst; last := World.now w |} (buckets w !! host) in
  Qmin burst (tokens bucket + (World.now w - last bucket) / 1000 * rps)%Q.

(** The states that calls of [limit] for [host], by any number of callers
    and with time passing in between, go through: from a state where the
    host has no bucket yet, a caller runs the body of [limit] up to its
    [await] or its end, or a timer fires. *)
Inductive reachable (env : Env) (host : string) (rps burst : Q) : World.t -> Prop :=
| reach_start w :
    buckets w !! host = None -> reachable env host rps burst w
| reach_pass w :
    reachable env host rps burst w ->
    reachable env host rps burst (fst (limitPass host rps burst w))
| reach_sleep w ms :
    reachable env host rps burst w ->
    reachable env host rps burst (sleep env ms w).

(** The bucket of [host], if there is one, holds no negative token count
    and was not refilled in the future. *)
Definition bucketOk (host : string) (w : World.t) : Prop :=
  forall b, buckets w !! host = Some b -> (0 <= tokens b)%Q /\ (last b <= World.now w)%Q.

(** [resetRateLimiter(host?)]. *)
Definition resetRateLimiter (host : option string) (w : World.t) : World.t :=
  match host with
  | Some h => if JsString.truthy h then with_buckets (delete h) w
              else with_buckets (fun _ => ∅) w
  | None => with_buckets (fun _ => ∅) w
  end.

End RateLimiter.

(** ** Health records ([src/http/scrapeMetrics.ts]) *)

Module ScrapeMetrics.
Import Metrics World.

(** The record of [site] after [getOrCreate(site)]. *)
Definition getOrCreate (site : string) (m : gmap string ScrapeHealth) : ScrapeHealth :=
  default {| lastSuccess := None; lastError := None; consecutiveFailures := 0 |}
          (m !! site).

Definition recordScrapeSuccess (site : string) (w : World.t) : World.t :=
  with_metrics (fun m =>
    let entry := getOrCreate site m in
    <[site := {| lastSuccess := Some (World.now w);
                 lastError := lastError entry;
                 consecutiveFailures := 0 |}]> m) w.

(** The argument [error: { status?, message, url? }]. *)
Definition recordScrapeFailure (site : string) (status : option Z) (message : string)
    (url : option string) (w : World.t) : World.t :=
  with_metrics (fun m =>
    let entry := getOrCreate site m in
    <[site := {| lastSuccess := lastSuccess entry;
                 lastError := Some {| at_ := World.now w; le_status := status;
                                      le_message := message; le_url := url |};
                 consecutiveFailures := consecutiveFailures entry + 1 |}]> m) w.

(** [getScrapeHealth(site)]: a copy of the record, which is created when
    the site has none. *)
Definition getScrapeHealth (site : string) (w : World.t) : ScrapeHealth * World.t :=
  let entry := getOrCreate site (metrics w) in
  (entry, with_metrics (insert site entry) w).

(** The failure counter of [site], 0 when the site has no record. *)
Definition failures (site : string) (w : World.t) : nat :=
  consecutiveFailures (getOrCreate site (metrics w)).

(** The time of the last success of [site], if one was recorded. *)
Definition lastSuccessOf (site : string) (w : World.t) : option Q :=
  lastSuccess (getOrCreate site (metrics w)).

(** Between [w] and [w'] no success of [site] was recorded and its
    failure counter was not reset. *)
Definition healthKept (site : string) (w w' : World.t) : Prop :=
  lastSuccessOf site w' = lastSuccessOf site w
  /\ (failures site w <= failures site w')%nat.

End ScrapeMetrics.

(** ** The fetcher ([src/http/fetcher.ts]) *)

Module Fetcher.
Import World Http Errors.

Definition USER_AGENTS : list string := [
  "Mozilla/5.0 (Windows NT 10.0; Win64; x64) AppleWebKit/537.36 (KHTML, like Gecko) Chrome/123.0.0.0 Safari/537.36";
  "Mozilla/5.0 (Macintosh; Intel Mac OS X 13_5_2) AppleWebKit/605.1.15 (KHTML, like Gecko) Version/17.6 Safari/605.1.15";
  "Mozilla/5.0 (X11; Linux x86_64) AppleWebKit/537.36 (KHTML, like Gecko) Chrome/122.0.6261.128 Safari/537.36";
  "Mozilla/5.0 (Windows NT 10.0; Win64; x64; rv:124.0) Gecko/20100101 Firefox/124.0";
  "Mozilla/5.0 (iPhone; CPU iPhone OS 17_2 like Mac OS X) AppleWebKit/605.1.15 (KHTML, like Gecko) Version/17.2 Mobile/15E148 Safari/604.1"
].

Definition ACCEPT_LANGUAGES : list string := [
  "en-US,en;q=0.9,id;q=0.8";
  "en-GB,en;q=0.9,id;q=0.8";
  "en-US,en;q=0.8,ja;q=0.6"
].

Definition DEFAULT_HEADERS : gmap string string :=
  list_to_map [
    ("Accept", "text/html,application/xhtml+xml,application/xml;q=0.9,image/avif,image/webp,*/*;q=0.8");
    ("Accept-Encoding", "gzip, deflate, br");
    ("Connection", "keep-alive");
    ("Upgrade-Insecure-Requests", "1")
  ].

Definition RETRY_STATUS : list Z := [403; 429; 500; 502; 503; 504]%Z.

(** [RETRY_STATUS.has(s)]. *)
Definition isRetryStatus (s : Z) : bool := bool_decide (s ∈ RETRY_STATUS).

(** [type FetchRequestOptions]. *)
Record FetchRequestOptions := {
  url : string;
  method : option string;
  headers : option (gmap string string);
  body : option string;
  cookies : option string;
  site : option string;
  maxRetries : option Z;
  timeoutMs : option Q;
  signal : option AbortSignal;
  rps : option Q;
  burst : option Q
}.

(** [arr[i]] for an index inside the array. *)
Definition at_index (arr : list string) (i : Z) : string :=
  default EmptyString (arr !! Z.to_nat i).

Definition chooseUserAgent (env : Env) (host : string) (w : World.t) : string * World.t :=
  let '(nextIndex, w1) :=
    match uaState w !! host with
    | Some i => (i, w)
    | None =>
        let '(r, w') := Math_random env w in
        (Qfloor (r * inject_Z (Z.of_nat (length USER_AGENTS))), w')
    end in
  let n := Z.of_nat (length USER_AGENTS) in
  (at_index USER_AGENTS (Z.rem nextIndex n),
   with_uaState (insert host (Z.rem (nextIndex + 1) n)) w1).

(** The object [finalHeaders], the [Cookie] entry included. *)
Definition buildHeaders (env : Env) (u : URL) (hdrs : gmap string string)
    (cookies : option string) (attempt : Z) (w : World.t)
  : gmap string string * World.t :=
  let '(ua, w1) :=
    match hdrs !! "User-Agent" with
    | Some v => (v, w)
    | None => chooseUserAgent env (host u) w
    end in
  let lang :=
    default (at_index ACCEPT_LANGUAGES
               (Z.rem attempt (Z.of_nat (length ACCEPT_LANGUAGES))))
            (hdrs !! "Accept-Language") in
  let referer := default (origin u +:+ "/") (hdrs !! "Referer") in
  let finalHeaders :=
    hdrs ∪ <["Referer" := referer]>
             (<["Accept-Language" := lang]> (<["User-Agent" := ua]> DEFAULT_HEADERS)) in
  match CookieJar.buildCookieHeader (cookieJar w1) (host u) cookies with
  | Some cookieHeader =>
      if JsString.truthy cookieHeader
      then (<["Cookie" := cookieHeader]> finalHeaders, w1)
      else (finalHeaders, w1)
  | None => (finalHeaders, w1)
  end.

(** [signal.aborted] at the time [t]. *)
Definition aborted (sg : AbortSignal) (t : Q) : bool :=
  match abortAt sg with
  | Some a => Qle_bool a t
  | None => false
  end.

(** [new DOMException("Request timed out", "AbortError")]. *)
Definition timedOut : Foreign :=
  {| f_name := Some "AbortError"; f_isError := true;
     f_message := "Request timed out"; f_status := None |}.

(** When and why [attemptController] aborts a request sent at [sent]: the
    timer of [timeoutMs] milliseconds, or before it the listener on the
    caller's signal, which passes on the signal's reason. *)
Definition cancellation (sent timeoutMs : Q) (sg : option AbortSignal) : Q * Foreign :=
  let byTimer := ((sent + Qmax 0 timeoutMs)%Q, timedOut) in
  match sg with
  | Some s =>
      match abortAt s with
      | Some a => if Qle_bool a (fst byTimer) then (Qmax a sent, reason s) else byTimer
      | None => byTimer
      end
  | None => byTimer
  end.

(** [await fetch(url, { ..., signal: attemptController.signal })]: the
    upstream's reply when it arrives before the controller aborts, else
    the rejection with the controller's reason. *)
Definition fetch (env : Env) (attempt : Z) (url : string)
    (finalHeaders : gmap string string) (timeoutMs : Q) (sg : option AbortSignal)
    (w : World.t) : (Response + Foreign) * World.t :=
  let up := upstream env (length (fetchLog w)) in
  let sent := World.now w in
  let arrives := (sent + ofN (latency up))%Q in
  let cancel := cancellation sent timeoutMs sg in
  let '(result, doneAt) :=
    if Qlt_le_dec arrives (fst cancel) then (reply up, arrives)
    else (inr (snd cancel), fst cancel) in
  (result,
   logFetch {| fr_attempt := attempt; fr_at := sent; fr_url := url;
               fr_headers := finalHeaders; fr_result := result |} doneAt w).

(** [`${n}`] for an integer. *)
Definition string_of_Z (n : Z) : string := NilZero.string_of_int (Z.to_int n).

(** [const wait = base * Math.pow(2, attempt - 1) + Math.random() * jitter;
    await delay(wait)]. *)
Definition backoff (env : Env) (base jitter : Q) (attempt : Z) (w : World.t) : World.t :=
  let '(r, w1) := Math_random env w in
  sleep env (base * inject_Z (2 ^ (attempt - 1)) + r * jitter)%Q w1.

(** How one turn of the [while (true)] loop ends. *)
Inductive Step :=
| Continue (w : World.t)
| Return (r : Response) (w : World.t)
| Throw (e : Thrown) (w : World.t).

(** The [catch (error: any)] block. *)
Definition onError (env : Env) (url siteKey : string) (maxRetries attempt : Z)
    (error : Thrown) (w : World.t) : Step :=
  let status := Errors.status error in
  if bool_decide (Errors.name error = Some "AbortError") && (attempt <=? maxRetries)%Z then
    Continue (backoff env 300 150 attempt w)
  else if (attempt <=? maxRetries)%Z
          && (isFetchFailedError error || isRetryStatus (default 0%Z status)) then
    Continue (backoff env 600 400 attempt w)
  else
    let message := messageOf error in
    Throw (ScraperError message status (Some url) (Some siteKey) (Some error))
          (ScrapeMetrics.recordScrapeFailure siteKey status message (Some url) w).

(** The [try] block after [fetch] has resolved with [response]. *)
Definition onResponse (env : Env) (url siteKey host : string) (maxRetries attempt : Z)
    (response : Response) (w : World.t) : Step :=
  if isRetryStatus (Http.status response) && (attempt <=? maxRetries)%Z then
    Continue (backoff env 500 250 attempt w)
  else if negb (ok response) then
    let message := "Fetch failed with status " +:+ string_of_Z (Http.status response) in
    let error :=
      FetchFailedError message attempt (Some (Http.status response)) url (Some siteKey) None in
    (* [throw error] is inside the [try]: the [catch] block gets it *)
    onError env url siteKey maxRetries attempt error
      (ScrapeMetrics.recordScrapeFailure siteKey (Some (Http.status response)) message
         (Some url) w)
  else
    Return response
      (with_cookieJar
         (CookieStore.storeCookies host (getSetCookie response) (setCookieHeader response)) w).

(** One turn of the loop, [attempt] being the counter after
    [attempt += 1].  [None]: the rate limiter ran out of fuel. *)
Definition attemptPass (fuel : nat) (env : Env) (req : FetchRequestOptions) (u : URL)
    (attempt : Z) (w : World.t) : option Step :=
  let siteKey := default (host u) (site req) in
  let maxRetries' := default 3%Z (maxRetries req) in
  let timeoutMs' := default 25000%Q (timeoutMs req) in
  match RateLimiter.limit fuel env (host u) (rps req) (burst req) w with
  | None => None
  | Some w1 =>
      if match signal req with Some sg => aborted sg (World.now w1) | None => false end
      then Some (Throw (ScraperError "Request aborted" None (Some (url req)) (Some siteKey) None) w1)
      else
        let '(finalHeaders, w2) :=
          buildHeaders env u (default ∅ (headers req)) (cookies req) attempt w1 in
        let '(result, w3) :=
          fetch env attempt (url req) finalHeaders timeoutMs' (signal req) w2 in
        Some match result with
             | inl response =>
                 onResponse env (url req) siteKey (host u) maxRetries' attempt response w3
             | inr e =>
                 onError env (url req) siteKey maxRetries' attempt (ForeignError e) w3
             end
  end.

Inductive Outcome :=
| Returned (r : Response)
| Threw (e : Thrown).

(** [while (true) { attempt += 1; ... }], [attempt] being the counter
    before the turn. *)
Fixpoint attempts (fuel limitFuel : nat) (env : Env) (req : FetchRequestOptions) (u : URL)
    (attempt : Z) (w : World.t) : option (Outcome * World.t) :=
  match fuel with
  | O => None
  | S fuel' =>
      match attemptPass limitFuel env req u (attempt + 1) w with
      | None => None
      | Some (Continue w') => attempts fuel' limitFuel env req u (attempt + 1) w'
      | Some (Return r w') => Some (Returned r, w')
      | Some (Throw e w') => Some (Threw e, w')
      end
  end.

(** What [new URL(url)] throws on a string that is not a URL. *)
Definition invalidURL : Foreign :=
  {| f_name := Some "TypeError"; f_isError := true;
     f_message := "Invalid URL"; f_status := None |}.

(** [fetchResponse(options)].  [None]: out of fuel. *)
Definition fetchResponse (fuel : nat) (env : Env) (req : FetchRequestOptions)
    (w : World.t) : option (Outcome * World.t) :=
  match parseURL env (url req) with
  | None => Some (Threw (ForeignError invalidURL), w)
  | Some u => attempts fuel fuel env req u 0 w
  end.

(** [fetchHtml(options)]: the text of the response. *)
Definition fetchHtml (fuel : nat) (env : Env) (req : FetchRequestOptions)
    (w : World.t) : option ((string + Thrown) * World.t) :=
  match fetchResponse fuel env req w with
  | Some (Returned r, w') => Some (inl (text r), w')
  | Some (Threw e, w') => Some (inr e, w')
  | None => None
  end.

(** The message, the error and the health record of the branch
    [if (!response.ok)]. *)
Definition statusMessage (r : Response) : string :=
  "Fetch failed with status " +:+ string_of_Z (Http.status r).

Definition statusError (url siteKey : string) (attempt : Z) (r : Response) : Thrown :=
  FetchFailedError (statusMessage r) attempt (Some (Http.status r)) url (Some siteKey) None.

Definition recorded (url siteKey : string) (r : Response) (w : World.t) : World.t :=
  ScrapeMetrics.recordScrapeFailure siteKey (Some (Http.status r)) (statusMessage r)
    (Some url) w.

(** The request got a response that is not ok and whose status is not
    in [RETRY_STATUS]. *)
Definition fatalStatus (r : FetchRecord) : bool :=
  match fr_result r with
  | inl response => negb (ok response) && negb (isRetryStatus (Http.status response))
  | inr _ => false
  end.

Definition countFatal (l : list FetchRecord) : nat :=
  length (List.filter fatalStatus l).

(** The call ended in the branch [if (!response.ok)] with no retry left:
    what it throws wraps the [FetchFailedError] built there. *)
Definition endedOnStatus (o : Outcome) : bool :=
  match o with
  | Threw (ScraperError _ _ _ _ (Some cause)) => isFetchFailedError cause
  | _ => false
  end.

(** The upstream answers every request within [timeoutMs] milliseconds
    and with a response that satisfies [P]. *)
Definition answers (env : Env) (timeoutMs : Q) (P : Response -> Prop) : Prop :=
  forall k, exists r,
    reply (upstream env k) = inl r /\ P r
    /\ (ofN (latency (upstream env k)) < Qmax 0 timeoutMs)%Q.

(** The calls of [fetch] made between the states [w] and [w']. *)
Definition fetchesSince (w w' : World.t) : list FetchRecord :=
  take (length (fetchLog w') - length (fetchLog w)) (fetchLog w').

End Fetcher.

(** ** The response cache ([src/middlewares/cache.ts]) *)

Module Json.

(** The result of [JSON.parse]. *)
Inductive t :=
| JNull
| JBool (b : bool)
| JNumber (q : Q)
| JString (s : string)
| JArray (items : list t)
| JObject (fields : list (string * t)).

(** [Boolean(v)]. *)
Definition truthy (v : t) : bool :=
  match v with
  | JNull => false
  | JBool b => b
  | JNumber q => negb (Qeq_bool q 0)
  | JString s => JsString.truthy s
  | JArray _ => true
  | JObject _ => true
  end.

(** [typeof v === "object"]: objects, arrays and [null]. *)
Definition isObject (v : t) : bool :=
  match v with
  | JNull | JArray _ | JObject _ => true
  | _ => false
  end.

Fixpoint field (k : string) (fields : list (string * t)) : option t :=
  match fields with
  | [] => None
  | (k', v) :: r => if String.eqb k' k then Some v else field k r
  end.

(** [Boolean(body.ok)] for a [body] that is not [null]; an array and a
    primitive have no property [ok]. *)
Definition okFlag (body : t) : bool :=
  match body with
  | JObject fields => match field "ok" fields with Some v => truthy v | None => false end
  | _ => false
  end.

(** [body.ok === true]. *)
Definition okIsTrue (body : t) : bool :=
  match body with
  | JObject fields =>
      match field "ok" fields with Some (JBool true) => true | _ => false end
  | _ => false
  end.

End Json.

Module LruCache.

(** What the middleware stores: a parsed JSON body, which is an object
    since only a body with a property [ok] gets there, or a text body. *)
Inductive Value :=
| VObject (fields : list (string * Json.t))
| VText (body : string).

(** Modelled from the spec: [src/libs/lruCache.ts], which exports [cache]
    and [defaultTTL], is not among the sources.  The spec describes a cache
    entry as [{key, value, expiresAt}], live while [now < expiresAt],
    stored with [expiresAt = now + ttl], and the cache as bounded by a
    maximum entry count with least-recently-used eviction. *)
Record CacheEntry := { key : string; value : Value; expiresAt : Q }.

(** Modelled from the spec: the exported [cache].  Its entries are kept
    most recently used first; the maximum entry count, which the spec
    leaves open, is a field. *)
Record t := { maxEntries : nat; entries : list CacheEntry }.

(** Modelled from the spec: the exported [defaultTTL], "1 minute when
    unspecified", in milliseconds. *)
Definition defaultTTL : Q := 60000.

(** Modelled from the spec: an entry is live while [now < expiresAt]. *)
Definition live (now : Q) (e : CacheEntry) : bool :=
  if Qlt_le_dec now (expiresAt e) then true else false.

(** Modelled from the spec: the entries without those of the key [k]. *)
Definition without (k : string) (es : list CacheEntry) : list CacheEntry :=
  filter (fun e => key e ≠ k) es.

(** Modelled from the spec: the entry of the key [k]. *)
Definition find (k : string) (es : list CacheEntry) : option CacheEntry :=
  List.find (fun e => String.eqb (key e) k) es.

(** Modelled from the spec: [cache.get(key)] gives the value of a live
    entry, which becomes the most recently used one; an entry past its
    time is dropped and the result is [undefined]. *)
Definition get (now : Q) (k : string) (c : t) : option Value * t :=
  match find k (entries c) with
  | Some e =>
      if live now e
      then (Some (value e),
            {| maxEntries := maxEntries c; entries := e :: without k (entries c) |})
      else (None, {| maxEntries := maxEntries c; entries := without k (entries c) |})
  | None => (None, c)
  end.

(** Modelled from the spec: [cache.set(key, value, { ttl })] stores
    [{key, value, expiresAt: now + ttl}] as the most recently used entry
    and evicts the least recently used entries beyond the maximum
    count. *)
Definition set (now : Q) (k : string) (v : Value) (ttl : Q) (c : t) : t :=
  {| maxEntries := maxEntries c;
     entries := take (maxEntries c)
                  ({| key := k; value := v; expiresAt := (now + ttl)%Q |}
                     :: without k (entries c)) |}.

(** Modelled from the spec: the value of the live entry of the key, if
    there is one. *)
Definition hasLive (now : Q) (k : string) (c : t) : option Value :=
  match find k (entries c) with
  | Some e => if live now e then Some (value e) else None
  | None => None
  end.

End LruCache.

Module Cache.
Import LruCache.

Inductive ResponseType := json | text.

(** The request [c.req]: [new URL(c.req.url)] gives the path and the
    query string ([search] is empty or starts with [?]). *)
Record Request := { pathname : string; search : string }.

(** The response [c.res] that the downstream handler leaves: its status,
    its body, and what [JSON.parse] makes of the body ([None]: it
    throws). *)
Record Downstream := {
  d_status : Z;
  d_text : string;
  d_json : option Json.t
}.

(** The process around the middleware: the cache, the clock and the
    number of times the downstream handler has run. *)
Record State := { cache : LruCache.t; now : Q; calls : nat }.

(** The downstream handler [next]: what its k-th run answers and how long
    it takes (milliseconds).  Hono turns an exception of the handler into
    an error response before [await next()] resumes. *)
Record Handler := { answer : nat -> Request -> Downstream; duration : nat -> N }.

(** What the client gets. *)
Inductive Served :=
| FromCacheJson (body : Json.t)            (* [c.json(cachedData)] *)
| FromCacheText (body : string)            (* [c.text(cachedData)] *)
| FromHandler (res : Downstream).          (* [c.res] as [next()] left it *)

(** [Boolean(cachedData)]. *)
Definition truthyValue (v : Value) : bool :=
  match v with
  | VObject _ => true
  | VText s => JsString.truthy s
  end.

(** [ttl ? 1000 * 60 * ttl : defaultTTL]. *)
Definition newTTL (ttl : option Q) : Q :=
  match ttl with
  | Some m => if Qeq_bool m 0 then defaultTTL else (1000 * 60 * m)%Q
  | None => defaultTTL
  end.

Definition cacheKey (req : Request) : string := pathname req +:+ search req.

(** The part of the middleware after [await next()]: the value passed to
    [cache.set], if any. *)
Definition toStore (responseType : ResponseType) (res : Downstream) : option Value :=
  if (d_status res <? 399)%Z then
    match responseType with
    | json =>
        match d_json res with
        | Some body =>
            if Json.truthy body && Json.isObject body && Json.okFlag body
            then match body with
                 | Json.JObject fields => Some (VObject fields)
                 | _ => None
                 end
            else None
        | None => None
        end
    | text => Some (VText (d_text res))
    end
  else None.

(** The middleware returned by [serverCache(ttl, responseType)].  A stored
    value is an object or a string, so the last [return] of the hit
    branch, for other values, is never reached. *)
Definition serverCache (ttl : option Q) (responseType : ResponseType)
    (next : Handler) (req : Request) (st : State) : Served * State :=
  let k := cacheKey req in
  let '(cachedData, cache1) := LruCache.get (now st) k (cache st) in
  let hit :=
    match cachedData with
    | Some v => if truthyValue v then Some v else None
    | None => None
    end in
  match hit with
  | Some (VObject fields) =>
      (FromCacheJson (Json.JObject fields),
       {| cache := cache1; now := now st; calls := calls st |})
  | Some (VText body) =>
      (FromCacheText body, {| cache := cache1; now := now st; calls := calls st |})
  | None =>
      let res := answer next (calls st) req in
      let now' := (now st + World.ofN (duration next (calls st)))%Q in
      let cache2 :=
        match toStore responseType res with
        | Some v => LruCache.set now' k v (newTTL ttl) cache1
        | None => cache1
        end in
      (FromHandler res, {| cache := cache2; now := now'; calls := S (calls st) |})
  end.

(** Time passes between two requests. *)
Definition later (ms : N) (st : State) : State :=
  {| cache := cache st; now := (now st + World.ofN ms)%Q; calls := calls st |}.

End Cache.

(** ** Redirect resolution ([src/services/dataFetcher.ts]) *)

Module DataFetcher.
Import Http Errors.

(** A JavaScript value as [getFinalUrls] returns it: a string, or
    [undefined]. *)
Inductive JsValue :=
| JsString (s : string)
| JsUndefined.

(** How a promise settles. *)
Inductive Settled :=
| Fulfilled (v : JsValue)
| Rejected (e : Thrown).

(** The outside world of one batch.  The requests of a batch run
    concurrently and meet only in the state of the fetcher; what
    [fetchResponse] gives to the k-th call of [getFinalUrl] for the URL at
    position [i] is therefore taken from an oracle. *)
Record Env := {
  fetched : nat -> string -> Z -> Fetcher.Outcome;   (* position, URL, attempt *)
  resolveURL : string -> string -> option string;    (* [new URL(location, base).toString()] *)
  hostname : string -> option string                 (* [new URL(s).hostname] *)
}.

(** [getFinalUrl(url, ref, axiosConfig)] without [params], from the
    outcome of its call of [fetchResponse]. *)
Definition getFinalUrl (env : Env) (url ref : string) (outcome : Fetcher.Outcome)
  : string + Thrown :=
  match outcome with
  | Fetcher.Threw e => inr e
  | Fetcher.Returned response =>
      let finalUrl := url in
      let siteKey := default "unknown" (hostname env ref) in
      match location response with
      | Some loc =>
          if JsString.truthy loc then
            match resolveURL env loc finalUrl with
            | Some target => inl target
            | None =>
                inr (ScraperError "Invalid redirect URL" None (Some finalUrl)
                       (Some siteKey) (Some (ForeignError Fetcher.invalidURL)))
            end
          else inl (if JsString.truthy (responseUrl response)
                    then responseUrl response else finalUrl)
      | None => inl (if JsString.truthy (responseUrl response)
                     then responseUrl response else finalUrl)
      end
  end.

(** The result of [retryRequest(url)] with the number of calls of
    [getFinalUrl] and of pauses it took. *)
Record Run := { settled : Settled; calls : nat; pauses : nat }.

(** [for (let attempt = 1; attempt <= retries; attempt++) { ... }], [n]
    being the number of turns left. *)
Fixpoint retryLoop (n : nat) (env : Env) (i : nat) (url ref : string)
    (retries attempt : Z) (calls pauses : nat) : Run :=
  match n with
  | O => {| settled := Fulfilled JsUndefined; calls := calls; pauses := pauses |}
  | S n' =>
      match getFinalUrl env url ref (fetched env i url attempt) with
      | inl target =>
          {| settled := Fulfilled (JsString target); calls := S calls; pauses := pauses |}
      | inr error =>
          if (attempt =? retries)%Z
          then {| settled := Rejected error; calls := S calls; pauses := pauses |}
          else retryLoop n' env i url ref retries (attempt + 1) (S calls) (S pauses)
      end
  end.

(** [retryRequest(url)]: the loop makes [retries] turns at most. *)
Definition retryRequest (env : Env) (i : nat) (url ref : string) (retries : Z) : Run :=
  retryLoop (Z.to_nat retries) env i url ref retries 1 0 0.

(** [responses.map(...)] after [Promise.allSettled]. *)
Definition placeholder (r : Settled) : JsValue :=
  match r with
  | Fulfilled v => v
  | Rejected _ => JsString EmptyString
  end.

(** [getFinalUrls(urls, ref, { retryConfig: { retries } })], [retries]
    being 3 when it is not given. *)
Definition getFinalUrls (env : Env) (urls : list string) (ref : string)
    (retries : option Z) : list JsValue :=
  imap (fun i url => placeholder (settled (retryRequest env i url ref (default 3%Z retries))))
       urls.

(** The k-th call of [getFinalUrl] for the URL at position [i] throws,
    or resolves to [target]. *)
Definition failsAt (env : Env) (i : nat) (url ref : string) (k : Z) : Prop :=
  exists e, getFinalUrl env url ref (fetched env i url k) = inr e.

Definition resolvesAt (env : Env) (i : nat) (url ref : string) (k : Z)
    (target : string) : Prop :=
  getFinalUrl env url ref (fetched env i url k) = inl target.

End DataFetcher.

(** ** The specification's wording of the fetcher's behaviour

    Properties of a call as the specification words them, to be compared
    with what [fetchResponse] does. *)

Module Spec.
Import World Http Errors Fetcher.

(** The call raises a [FetchFailedError] that carries [attempt]. *)
Definition raisesFetchFailedError (attempt : Z) (o : Outcome) : Prop :=
  exists e, o = Threw e /\ isFetchFailedError e = true /\ attemptOf e = Some attempt.

(** "Exactly 3 attempts, then [FetchFailedError{attempt:3}]". *)
Definition retryBudgetExact (fuel : nat) (env : Env) (req : FetchRequestOptions)
    (w : World.t) : Prop :=
  exists o w',
    fetchResponse fuel env req w = Some (o, w')
    /\ length (fetchesSince w w') = 3%nat
    /\ raisesFetchFailedError 3 o.



(** "One failed logical fetch increases [consecutiveFailures] by 2". *)
Definition countsTwo (fuel : nat) (env : Env) (req : FetchRequestOptions)
    (siteKey : string) (w : World.t) : Prop :=
  forall o w',
    fetchResponse fuel env req w = Some (o, w') -> endedOnStatus o = true ->
    ScrapeMetrics.failures siteKey w' = (ScrapeMetrics.failures siteKey w + 2)%nat.

(** "Records a success for the site": after a call that returns a response
    the health record has [lastSuccess] at the current time and no
    consecutive failures. *)
Definition recordsSuccess (fuel : nat) (env : Env) (req : FetchRequestOptions)
    (siteKey : string) (w : World.t) : Prop :=
  forall r w',
    fetchResponse fuel env req w = Some (Returned r, w') ->
    ScrapeMetrics.lastSuccessOf siteKey w' = Some (World.now w')
    /\ ScrapeMetrics.failures siteKey w' = 0%nat.

(** "An explicitly successful payload": the body is JSON whose [ok] is
    [true]. *)
Definition explicitlyOk (res : Cache.Downstream) : Prop :=
  exists body, Cache.d_json res = Some body /\ Json.okIsTrue body = true.

(** "An entry is stored only when the downstream result is an explicitly
    successful payload": an entry of the request's key that is live after
    the request was live before it, or the handler's result was ok. *)
Definition storesOnlyOk (ttl : option Q) (responseType : Cache.ResponseType)
    (next : Cache.Handler) (req : Cache.Request) (st : Cache.State) : Prop :=
  forall t v,
    LruCache.hasLive t (Cache.cacheKey req)
      (Cache.cache (snd (Cache.serverCache ttl responseType next req st))) = Some v ->
    LruCache.hasLive t (Cache.cacheKey req) (Cache.cache st) = Some v
    \/ explicitlyOk (Cache.answer next (Cache.calls st) req).

(** "A live entry is returned without calling the handler". *)
Definition hitSkipsHandler (ttl : option Q) (responseType : Cache.ResponseType)
    (next : Cache.Handler) (req : Cache.Request) (st : Cache.State) : Prop :=
  forall v,
    LruCache.hasLive (Cache.now st) (Cache.cacheKey req) (Cache.cache st) = Some v ->
    Cache.calls (snd (Cache.serverCache ttl responseType next req st)) = Cache.calls st.

End Spec.

(** ** Concrete environments and states used in examples *)

Module Examples.
Import World Http Errors Fetcher.

Definition siteUrl : URL := {| host := "site.test"; origin := "https://site.test" |}.

(** A response of the given status that sets one cookie. *)
Definition respond (s : Z) : Response :=
  {| Http.status := s; getSetCookie := CookieStore.RawArray ["sid=1; Path=/"];
     setCookieHeader := None; location := None;
     responseUrl := "https://site.test/a"; text := "<html></html>" |}.

(** An upstream that answers the k-th request with the status [s k] after
    [ms] milliseconds; timers fire on time and [Math.random()] is 0. *)
Definition server (ms : N) (s : nat -> Z) : Env :=
  {| parseURL := fun _ => Some siteUrl;
     upstream := fun k => {| latency := ms; reply := inl (respond (s k)) |};
     lag := fun _ => 0%N;
     random := fun _ => 0%N |}.

(** The process right after its start. *)
Definition fresh : World.t :=
  {| now := 0; timers := 0; randoms := 0; buckets := ∅; metrics := ∅;
     cookieJar := ∅; uaState := ∅; fetchLog := [] |}.

Definition request (retries : Z) (sg : option AbortSignal) : FetchRequestOptions :=
  {| url := "https://site.test/a"; method := None; headers := None; body := None;
     cookies := None; site := None; maxRetries := Some retries; timeoutMs := None;
     signal := sg; rps := None; burst := None |}.

(** A signal that aborts at the time [T] with the default reason of
    [AbortController.abort()]. *)
Definition abortsAt (T : Q) : AbortSignal :=
  {| abortAt := Some T;
     reason := {| f_name := Some "AbortError"; f_isError := true;
                  f_message := "This operation was aborted"; f_status := None |} |}.

(** The state and the outcome of a call, [fresh] and a [TypeError] when
    the call runs out of fuel. *)
Definition stateAfter (r : option (Outcome * World.t)) : World.t :=
  match r with Some (_, w) => w | None => fresh end.

Definition outcomeOf (r : option (Outcome * World.t)) : Outcome :=
  match r with Some (o, _) => o | None => Threw (ForeignError invalidURL) end.

(** The upstream answers 404 once, then 200. *)
Definition recovering : Env := server 10 (fun k => match k with O => 404 | _ => 200 end).

(** The state after a call that failed on the 404. *)
Definition troubled : World.t :=
  stateAfter (fetchResponse 3 recovering (request 0 None) fresh).

(** The state after a second call, which got the 200. *)
Definition recovered : World.t :=
  stateAfter (fetchResponse 3 recovering (request 0 None) troubled).

(** A call with one retry against an upstream that always answers 404. *)
Definition notFoundTwice : option (Outcome * World.t) :=
  fetchResponse 3 (server 10 (fun _ => 404)) (request 1 None) fresh.

(** The cache of a process right after its start. *)
Definition emptyCache : Cache.State :=
  {| Cache.cache := {| LruCache.maxEntries := 100; LruCache.entries := [] |};
     Cache.now := 0; Cache.calls := 0 |}.

Definition page : Cache.Request :=
  {| Cache.pathname := "/otakudesu/home"; Cache.search := "?page=1" |}.

(** A handler that answers 200 with the text [body], which is not JSON. *)
Definition plainText (body : string) : Cache.Handler :=
  {| Cache.answer := fun _ _ =>
       {| Cache.d_status := 200; Cache.d_text := body; Cache.d_json := None |};
     Cache.duration := fun _ => 5%N |}.

(** A handler that answers 200 with the JSON object [{"ok": flag}]. *)
Definition payload (flag : Json.t) : Cache.Handler :=
  {| Cache.answer := fun _ _ =>
       {| Cache.d_status := 200; Cache.d_text := "{}";
          Cache.d_json := Some (Json.JObject [("ok", flag)]) |};
     Cache.duration := fun _ => 5%N |}.

(** The state after a first request to a text route whose handler answers
    with an empty body, and one second later. *)
Definition emptyBodyCached : Cache.State :=
  Cache.later 1000
    (snd (Cache.serverCache (Some 1%Q) Cache.text (plainText "") page emptyCache)).

(** The batch of the scenario: the first URL redirects to ["urlB"], the
    second one always fails with status 500. *)
Definition redirected : Response :=
  {| Http.status := 200; getSetCookie := CookieStore.RawUndefined;
     setCookieHeader := None; location := None; responseUrl := "urlB"; text := "" |}.

Definition batch : DataFetcher.Env :=
  {| DataFetcher.fetched := fun i _ _ =>
       match i with
       | O => Returned redirected
       | _ => Threw (ScraperError "Fetch failed with status 500" (Some 500)
                       (Some "urlC") (Some "ref") None)
       end;
     DataFetcher.resolveURL := fun loc _ => Some loc;
     DataFetcher.hostname := fun _ => Some "ref" |}.

(** The state after a first call of [limit] with [rps = 1] and
    [burst = 1], which took the only token. *)
Definition drained : World.t := fst (RateLimiter.limitPass "site.test" 1 1 fresh).

(** A jar that holds two cookies for the host. *)
Definition storedJar : CookieJar.Jar := <["site.test" := [("a", "1"); ("b", "2")]]> ∅.

End Examples.

(** ** Further operations of the same files *)

Module LimiterRuns.
Import World.

(** What happens on a host over time: a caller runs the body of [limit] up
    to its [await] or its end, or a timer fires. *)
Inductive Action :=
| Pass
| Timer (ms : Q).

(** The state after a series of actions, and the number of runs of the body
    that reached its end there: the number of calls of [limit] that have
    returned. *)
Fixpoint run (env : Env) (host : string) (rps burst : Q) (acts : list Action)
    (w : World.t) : World.t * nat :=
  match acts with
  | [] => (w, O)
  | Pass :: rest =>
      let '(w1, wait) := RateLimiter.limitPass host rps burst w in
      let '(w2, n) := run env host rps burst rest w1 in
      (w2, match wait with None => S n | Some _ => n end)
  | Timer ms :: rest => run env host rps burst rest (sleep env ms w)
  end.

(** The invariant of the runs that start at the time [t0] on a host without
    a bucket: the count [c] of returned calls and the tokens left never
    exceed [burst] plus what the bucket got since [t0]. *)
Definition rateInv (host : string) (rps burst : Q) (t0 : Q) (c : nat) (w : World.t) : Prop :=
  (t0 <= World.now w)%Q
  /\ match buckets w !! host with
     | None => c = O
     | Some b =>
         (0 <= tokens b)%Q /\ (last b <= World.now w)%Q /\ (t0 <= last b)%Q
         /\ (inject_Z (Z.of_nat c) + tokens b <= burst + (last b - t0) / 1000 * rps)%Q
     end.

End LimiterRuns.

Module Health.
Import Metrics World.

(** [getAllScrapeHealth()]: a copy of every record, by site. *)
Definition getAllScrapeHealth (w : World.t) : gmap string ScrapeHealth := metrics w.

(** The last error of [site], if one was recorded. *)
Definition lastErrorOf (site : string) (w : World.t) : option LastError :=
  lastError (ScrapeMetrics.getOrCreate site (metrics w)).

(** One failure of a site: the time that passes before it and the argument
    of [recordScrapeFailure]. *)
Record Failure := {
  fl_after : Q;
  fl_status : option Z;
  fl_message : string;
  fl_url : option string
}.

(** A series of calls of [recordScrapeFailure] for [site]. *)
Definition recordFailures (env : Env) (site : string) (errs : list Failure)
    (w : World.t) : World.t :=
  fold_left
    (fun w e =>
       ScrapeMetrics.recordScrapeFailure site (fl_status e) (fl_message e) (fl_url e)
         (sleep env (fl_after e) w))
    errs w.

End Health.

(** ** Cookies: texts and the cookies of the host configuration *)

Module CookieText.

(** [s.includes(c)] for a one-character string [c]. *)
Fixpoint includes (c : ascii) (s : string) : bool :=
  match s with
  | EmptyString => false
  | String a t => Ascii.eqb a c || includes c t
  end.

(** The attributes that follow [name=value] in a [Set-Cookie] header:
    nothing, or a text that starts with [;]. *)
Definition attributes (attrs : string) : bool :=
  match attrs with
  | EmptyString => true
  | String c _ => Ascii.eqb c ";"%char
  end.

(** The regular expression [/,(?=[^;]+?=)/] of [storeCookies] matches
    nowhere in [s]: no comma of [s] is followed by an [=] that comes after
    one character at least and before any [;]. *)
Fixpoint unsplit (s : string) : bool :=
  match s with
  | EmptyString => true
  | String c t => negb (Ascii.eqb c ","%char && CookieStore.lookahead t) && unsplit t
  end.

End CookieText.

Module HostCookies.

(** [joinCookies(...parts)] of [src/services/dataFetcher.ts]. *)
Definition joinCookies (parts : list (option string)) : option string :=
  let value :=
    JsString.join "; "
      (omap id
         (filter (fun part => JsString.truthy_opt part = true)
            (map (fun part => JsString.trim <$> part) parts))) in
  if (0 <? String.length value)%nat then Some value else None.

End HostCookies.

(** ** Upstreams and scenarios *)

Module Upstreams.
Import World Http Errors.

(** The upstream answers the k-th request within [timeoutMs] milliseconds
    with a response that satisfies [P]. *)
Definition answersAt (env : Env) (timeoutMs : Q) (k : nat) (P : Response -> Prop) : Prop :=
  exists r,
    reply (upstream env k) = inl r /\ P r
    /\ (ofN (latency (upstream env k)) < Qmax 0 timeoutMs)%Q.

(** The connection of the k-th request fails within [timeoutMs]
    milliseconds with the error [e]. *)
Definition failsAt (env : Env) (timeoutMs : Q) (k : nat) (e : Foreign) : Prop :=
  reply (upstream env k) = inr e
  /\ (ofN (latency (upstream env k)) < Qmax 0 timeoutMs)%Q.

(** The upstream never answers within [timeoutMs] milliseconds. *)
Definition silent (env : Env) (timeoutMs : Q) : Prop :=
  forall k, (Qmax 0 timeoutMs <= ofN (latency (upstream env k)))%Q.

End Upstreams.

Module Scenarios.
Import World Http Errors Fetcher.

(** What [fetch] rejects with when no connection can be made. *)
Definition connectionRefused : Foreign :=
  {| f_name := Some "TypeError"; f_isError := true;
     f_message := "fetch failed"; f_status := None |}.

(** An upstream that refuses every connection after 3 ms. *)
Definition offline : Env :=
  {| parseURL := fun _ => Some Examples.siteUrl;
     upstream := fun _ => {| latency := 3; reply := inr connectionRefused |};
     lag := fun _ => 0%N;
     random := fun _ => 0%N |}.

(** An upstream that answers 503 twice, then 200. *)
Definition flaky : Env :=
  Examples.server 10 (fun k => if (k <? 2)%nat then 503 else 200).

(** An upstream that takes 30 s for every answer. *)
Definition stalled : Env := Examples.server 30000 (fun _ => 200).


(** What a call has thrown. *)
Definition thrownBy (r : option (Outcome * World.t)) : Thrown :=
  match r with
  | Some (Threw e, _) => e
  | _ => ForeignError invalidURL
  end.

(** The process with two cookies stored for the host. *)
Definition withJar : World.t :=
  with_cookieJar (fun _ => Examples.storedJar) Examples.fresh.

(** A call without retries against an upstream that answers 404. *)
Definition notFound : option (Outcome * World.t) :=
  fetchResponse 3 (Examples.server 10 (fun _ => 404)) (Examples.request 0 None)
    Examples.fresh.

End Scenarios.

(** ** User agents and headers *)

Module Agents.
Import World Fetcher.

(** Every index that [uaState] holds is an index of [USER_AGENTS]. *)
Definition uaStateOk (w : World.t) : Prop :=
  forall host i, uaState w !! host = Some i -> 0 <= i < Z.of_nat (length USER_AGENTS).

(** The user agents of [n] calls of [chooseUserAgent(host)] in a row. *)
Fixpoint chooseUserAgents (n : nat) (env : Env) (host : string) (w : World.t)
  : list string * World.t :=
  match n with
  | O => ([], w)
  | S n' =>
      let '(ua, w1) := chooseUserAgent env host w in
      let '(uas, w2) := chooseUserAgents n' env host w1 in
      (ua :: uas, w2)
  end.

(** The headers of a request before the [Cookie] entry is set. *)
Definition plainHeaders (u : Http.URL) (hdrs : gmap string string) (attempt : Z) (ua : string)
  : gmap string string :=
  hdrs ∪ <["Referer" := default (Http.origin u +:+ "/") (hdrs !! "Referer")]>
           (<["Accept-Language" :=
                default (at_index ACCEPT_LANGUAGES
                           (Z.rem attempt (Z.of_nat (length ACCEPT_LANGUAGES))))
                        (hdrs !! "Accept-Language")]>
              (<["User-Agent" := ua]> DEFAULT_HEADERS)).

End Agents.

(** ** Requests to the cache over time *)

Module CacheRuns.
Import LruCache Cache.

(** The request finds no live entry with a truthy value for its key: the
    test [if (cachedData)] fails. *)
Definition misses (req : Request) (st : State) : Prop :=
  forall v, hasLive (now st) (cacheKey req) (cache st) = Some v -> truthyValue v = false.

(** The state after a request and [ms] milliseconds. *)
Definition afterRequest (ttl : option Q) (responseType : ResponseType) (next : Handler)
    (req : Request) (ms : N) (st : State) : State :=
  later ms (snd (serverCache ttl responseType next req st)).

End CacheRuns.

(** ** The fallback of the redirect resolution ([src/services/dataFetcherFallback.ts]) *)

Module Fallback.
Import Http Errors.

(** The outside world of one batch of [getFinalUrlsFallback]: what the k-th
    [fetch(url, { method: "HEAD", redirect: "manual", ... })] for the URL
    at position [i] resolves to or rejects with. *)
Record Env := { fetchedHead : nat -> string -> Z -> Response + Foreign }.

(** [new Error(`Request timeout after ${config?.timeout}ms`)], for a
    timeout of whole milliseconds. *)
Definition timeoutError (timeout : option Z) : Foreign :=
  {| f_name := Some "Error"; f_isError := true;
     f_message :=
       "Request timeout after " +:+ from_option Fetcher.string_of_Z "undefined" timeout
       +:+ "ms";
     f_status := None |}.

(** [getFinalUrlFallback(url, ref, config)], from the outcome of its call
    of [fetch]. *)
Definition getFinalUrlFallback (url : string) (timeout : option Z)
    (outcome : Response + Foreign) : string + Foreign :=
  match outcome with
  | inl response =>
      if ((300 <=? Http.status response)%Z && (Http.status response <? 400)%Z) then
        match location response with
        | Some loc => if JsString.truthy loc then inl loc else inl url
        | None => inl url
        end
      else inl url
  | inr error =>
      if f_isError error && bool_decide (f_name error = Some "TimeoutError")
      then inr (timeoutError timeout)
      else inr error
  end.

(** The loop of [retryRequest] and the [return url] after it, [n] being the
    number of turns left. *)
Fixpoint retryLoop (n : nat) (env : Env) (i : nat) (url : string) (timeout : option Z)
    (retries attempt : Z) : string + Foreign :=
  match n with
  | O => inl url
  | S n' =>
      match getFinalUrlFallback url timeout (fetchedHead env i url attempt) with
      | inl target => inl target
      | inr error =>
          if (attempt =? retries)%Z then inr error
          else retryLoop n' env i url timeout retries (attempt + 1)
      end
  end.

Definition retryRequest (env : Env) (i : nat) (url : string) (timeout : option Z)
    (retries : Z) : string + Foreign :=
  retryLoop (Z.to_nat retries) env i url timeout retries 1.

(** [getFinalUrlsFallback(urls, ref, { axiosConfig: { timeout }, retryConfig:
    { retries } })], [retries] being 3 when it is not given. *)
Definition getFinalUrlsFallback (env : Env) (urls : list string) (timeout : option Z)
    (retries : option Z) : list string :=
  imap (fun i url =>
          match retryRequest env i url timeout (default 3%Z retries) with
          | inl value => value
          | inr _ => EmptyString
          end) urls.

(** One URL that answers 302 with a relative location, one whose
    connection fails. *)
Definition batch : Env :=
  {| fetchedHead := fun i _ _ =>
       match i with
       | O => inl {| Http.status := 302; getSetCookie := CookieStore.RawUndefined;
                     setCookieHeader := None; location := Some "/next";
                     responseUrl := "https://site.test/a"; text := "" |}
       | _ => inr Scenarios.connectionRefused
       end |}.

End Fallback.

(** ** Payloads ([src/helpers/honoHelpers.ts]) *)

Module HonoHelpers.

(** [type PayloadProps]. *)
Record PayloadProps := {
  message : option string;
  data : option Json.t;
  pagination : option Json.t
}.

(** The local function [isOk] of [generateHonoPayload], for a status that
    is an integer. *)
Definition isOk (statusCode : Z) : bool :=
  let strStatusCode := Fetcher.string_of_Z statusCode in
  if String.prefix "4" strStatusCode || String.prefix "5" strStatusCode then false
  else true.

(** [value || fallback] for a JSON value. *)
Definition orElse (value : option Json.t) (fallback : Json.t) : Json.t :=
  match value with
  | Some v => if Json.truthy v then v else fallback
  | None => fallback
  end.

(** [generateHonoPayload(statusCode, props)]; [statusCodes] is the table
    [http.STATUS_CODES] of Node. *)
Definition generateHonoPayload (statusCodes : Z -> option string) (statusCode : Z)
    (props : option PayloadProps) : Json.t :=
  Json.JObject [
    ("statusCode", Json.JNumber (inject_Z statusCode));
    ("statusMessage",
     orElse (Json.JString <$> statusCodes statusCode) (Json.JString ""));
    ("message", orElse (Json.JString <$> (props ≫= message)) (Json.JString ""));
    ("ok", Json.JBool (isOk statusCode));
    ("data", orElse (props ≫= data) Json.JNull);
    ("pagination", orElse (props ≫= pagination) Json.JNull)
  ].

(** What a handler that ends with
    [c.json(generateHonoPayload(statusCode, props), statusCode)] leaves. *)
Definition respond (statusCodes : Z -> option string) (statusCode : Z)
    (props : option PayloadProps) (body : string) : Cache.Downstream :=
  {| Cache.d_status := statusCode; Cache.d_text := body;
     Cache.d_json := Some (generateHonoPayload statusCodes statusCode props) |}.

End HonoHelpers.

(** * Properties *)

(** ** Insertion-ordered maps *)

Section JsMapFacts.

Lemma JsMap_get_set (k k' v : string) (m : JsMap.t) :
  JsMap.get k (JsMap.set k' v m) = if String.eqb k' k then Some v else JsMap.get k m.
Proof.
  induction m as [|[k0 v0] m IH]; simpl.
  - destruct (String.eqb k' k); reflexivity.
  - destruct (String.eqb k0 k') eqn:E0; simpl.
    + apply String.eqb_eq in E0. subst k0.
      destruct (String.eqb k' k); reflexivity.
    + destruct (String.eqb k0 k) eqn:E1.
      * apply String.eqb_eq in E1. subst k0.
        rewrite String.eqb_sym in E0. rewrite E0. reflexivity.
      * exact IH.
Qed.

(** After a run of [set]s, a key bound by the run has the value of the
    run; another key keeps what it had. *)
Lemma JsMap_get_setAll (k : string) (src : list (string * string)) (dst : JsMap.t) :
  JsMap.get k (JsMap.setAll src dst)
  = match JsMap.get k (JsMap.setAll src JsMap.empty) with
    | Some v => Some v
    | None => JsMap.get k dst
    end.
Proof.
  unfold JsMap.setAll, JsMap.empty. revert dst.
  induction src as [|[k0 v0] src IH]; intros dst; simpl; [reflexivity|].
  rewrite (IH (JsMap.set k0 v0 dst)), (IH [(k0, v0)]).
  match goal with |- context [JsMap.get k (fold_left ?f src [])] =>
    destruct (JsMap.get k (fold_left f src [])) end; [reflexivity|].
  rewrite JsMap_get_set. simpl. destruct (String.eqb k0 k); reflexivity.
Qed.

Lemma JsMap_set_nonempty (k v : string) (m : JsMap.t) : JsMap.set k v m ≠ [].
Proof. destruct m as [|[k0 v0] m]; simpl; [|destruct (String.eqb k0 k)]; discriminate. Qed.

Lemma JsMap_setAll_nonempty (src : list (string * string)) (dst : JsMap.t) :
  dst ≠ [] → JsMap.setAll src dst ≠ [].
Proof.
  unfold JsMap.setAll. revert dst.
  induction src as [|[k0 v0] src IH]; intros dst Hd; simpl; [exact Hd|].
  apply IH, JsMap_set_nonempty.
Qed.

Lemma JsMap_setAll_empty_iff (src : list (string * string)) :
  JsMap.setAll src JsMap.empty = [] ↔ src = [].
Proof.
  split; [|intros ->; reflexivity].
  destruct src as [|[k0 v0] src]; [reflexivity|].
  unfold JsMap.setAll. simpl. intros H. exfalso.
  revert H. apply (JsMap_setAll_nonempty src [(k0, v0)]). discriminate.
Qed.

End JsMapFacts.

(** ** The cookie header *)

Section CookieHeaderFacts.
Import CookieJar.

Lemma mergedCookies_empty_early (stored : JsMap.t) (override : option string) :
  JsString.truthy_opt override = false → JsMap.size stored = 0%nat →
  mergedCookies stored override = [].
Proof.
  intros Ho Hs. destruct stored; [|discriminate].
  unfold mergedCookies. destruct override as [o|]; [|reflexivity].
  simpl in Ho. rewrite Ho. reflexivity.
Qed.

Lemma buildCookieHeader_merged (jar : Jar) (host : string) (override : option string) :
  buildCookieHeader jar host override
  = match mergedCookies (default JsMap.empty (jar !! host)) override with
    | [] => None
    | cookieMap => Some (render cookieMap)
    end.
Proof.
  unfold buildCookieHeader.
  destruct (negb (JsString.truthy_opt override)
            && (JsMap.size (default JsMap.empty (jar !! host)) =? 0)%nat) eqn:E.
  - apply andb_true_iff in E as [E1 E2].
    apply negb_true_iff in E1. apply Nat.eqb_eq in E2.
    rewrite (mergedCookies_empty_early _ _ E1 E2). reflexivity.
  - destruct (mergedCookies _ override); reflexivity.
Qed.

Lemma mergedCookies_override_wins (stored : JsMap.t) (o name v : string) :
  JsMap.get name (append o JsMap.empty) = Some v →
  JsMap.get name (mergedCookies stored (Some o)) = Some v.
Proof.
  intros H. unfold mergedCookies.
  destruct (JsString.truthy o) eqn:Et.
  - unfold append in *. rewrite JsMap_get_setAll, H. reflexivity.
  - destruct o; [|discriminate]. discriminate H.
Qed.

End CookieHeaderFacts.

(** C8.  [buildCookieHeader] depends only on the cookies stored for the
    host and on the override string; a name that the override binds has the
    override's value in the merged map, whatever was stored for it; the
    result is [undefined] exactly when the merged map is empty, and
    otherwise it is the bindings of the merged map, each written
    [name=value], joined with ["; "]. *)
Theorem buildCookieHeader_deterministic_override_wins
    (jar jar' : CookieJar.Jar) (host : string) (override override' : option string) :
  let merged := CookieJar.mergedCookies (default JsMap.empty (jar !! host)) override in
  (jar' !! host = jar !! host → override' = override →
   CookieJar.buildCookieHeader jar' host override'
   = CookieJar.buildCookieHeader jar host override)
  ∧ (∀ o name v,
       override = Some o →
       JsMap.get name (CookieJar.append o JsMap.empty) = Some v →
       JsMap.get name merged = Some v)
  ∧ (CookieJar.buildCookieHeader jar host override = None ↔ merged = [])
  ∧ (merged ≠ [] →
     CookieJar.buildCookieHeader jar host override
     = Some (String.concat "; " (map (fun kv => fst kv +:+ "=" +:+ snd kv) merged))).
Proof.
  intros merged. split; [|split; [|split]].
  - intros Hj ->. rewrite !buildCookieHeader_merged, Hj. reflexivity.
  - intros o name v -> Hv. apply mergedCookies_override_wins, Hv.
  - rewrite buildCookieHeader_merged. fold merged.
    destruct merged; split; intros H; [reflexivity|reflexivity|discriminate|discriminate].
  - intros Hne. rewrite buildCookieHeader_merged. fold merged.
    destruct merged; [contradiction|reflexivity].
Qed.

(** The override replaces the stored value of [b] and adds [c]. *)
Lemma buildCookieHeader_witness :
  CookieJar.buildCookieHeader Examples.storedJar "site.test" (Some "b=3; c=4")
  = Some "a=1; b=3; c=4"
  /\ JsMap.get "b"
       (CookieJar.mergedCookies (default JsMap.empty (Examples.storedJar !! "site.test"))
          (Some "b=3; c=4")) = Some "3".
Proof.
  pose proof (buildCookieHeader_deterministic_override_wins
                Examples.storedJar Examples.storedJar "site.test"
                (Some "b=3; c=4") (Some "b=3; c=4")) as H.
  cbv zeta in H. destruct H as (_ & Hwins & _ & Hjoin). split.
  - rewrite Hjoin; [vm_compute; reflexivity|vm_compute; discriminate].
  - apply (Hwins "b=3; c=4" "b" "3"); [reflexivity|vm_compute; reflexivity].
Defined.

(** ** The token bucket *)

Section RationalFacts.
Local Open Scope Q_scope.

Lemma scaled_nonneg (x rps : Q) : 0 <= x -> 0 < rps -> 0 <= x / 1000 * rps.
Proof.
  intros Hx Hr. apply Qmult_le_0_compat; [|lra].
  apply Qle_shift_div_l; lra.
Qed.

Lemma refill_nonneg (t l n rps : Q) : 0 <= t -> l <= n -> 0 < rps -> t <= t + (n - l) / 1000 * rps.
Proof.
  intros Ht Hl Hr.
  assert (0 <= (n - l) / 1000 * rps) by (apply scaled_nonneg; lra).
  lra.
Qed.

Lemma wait_positive (t rps : Q) : 0 < rps -> t < 1 -> 0 < (1 - t) / rps * 1000.
Proof.
  intros Hr Ht. 
  assert (0 < (1 - t) / rps) by (apply Qlt_shift_div_l; lra).
  lra.
Qed.

Lemma wait_refills (t rps lagq : Q) : 0 < rps -> t < 1 -> 0 <= lagq ->
  1 <= t + ((Qmax 0 ((1 - t) / rps * 1000) + lagq)) / 1000 * rps.
Proof.
  intros Hr Ht Hl.
  pose proof (wait_positive t rps Hr Ht) as Hms.
  rewrite (Q.max_r 0 ((1 - t) / rps * 1000)) by lra.
  assert (E : ((1 - t) / rps * 1000 + lagq) / 1000 * rps == (1 - t) + lagq / 1000 * rps).
  { field. lra. }
  rewrite E.
  pose proof (scaled_nonneg lagq rps Hl Hr).
  lra.
Qed.

Lemma ofN_nonneg (n : N) : 0 <= World.ofN n.
Proof. unfold World.ofN. change 0 with (inject_Z 0). rewrite <- Zle_Qle. lia. Qed.

Lemma wait_refills_at (n t rps lagq : Q) : 0 < rps -> t < 1 -> 0 <= lagq ->
  1 <= t + (n + Qmax 0 ((1 - t) / rps * 1000) + lagq - n) / 1000 * rps.
Proof.
  intros Hr Ht Hl.
  pose proof (wait_refills t rps lagq Hr Ht Hl) as H.
  assert (E : (n + Qmax 0 ((1 - t) / rps * 1000) + lagq - n) / 1000 * rps
              == (Qmax 0 ((1 - t) / rps * 1000) + lagq) / 1000 * rps) by (field; lra).
  rewrite E. exact H.
Qed.

End RationalFacts.

Section RateLimiterFacts.
Import World RateLimiter.
Local Open Scope Q_scope.

Context (env : Env) (host : string) (rps burst : Q).
Hypothesis Hrps : 0 < rps.
Hypothesis Hburst : 1 <= burst.

Lemma available_bounds (w : World.t) :
  bucketOk host w -> 0 <= available host rps burst w /\ available host rps burst w <= burst.
Proof.
  intros Hok. unfold available. split; [|apply Q.le_min_l].
  apply Q.min_glb; [lra|].
  destruct (buckets w !! host) as [b|] eqn:E; simpl.
  - destruct (Hok b E) as [H0 Hl].
    pose proof (refill_nonneg (tokens b) (last b) (World.now w) rps H0 Hl Hrps). lra.
  - pose proof (refill_nonneg burst (World.now w) (World.now w) rps). lra.
Qed.

Lemma available_fresh (w : World.t) :
  buckets w !! host = None -> 1 <= available host rps burst w.
Proof.
  intros E. unfold available. rewrite E. simpl.
  apply Q.min_glb; [exact Hburst|].
  pose proof (refill_nonneg burst (World.now w) (World.now w) rps). lra.
Qed.

(** The body of [limit], by the token count after the refill. *)
Lemma limitPass_eq (w : World.t) :
  limitPass host rps burst w
  = let t := available host rps burst w in
    if Qlt_le_dec t 1
    then (with_buckets (insert host {| tokens := t; last := World.now w |}) w,
          Some ((1 - t) / rps * 1000))
    else (with_buckets (insert host {| tokens := t - 1; last := World.now w |}) w, None).
Proof.
  unfold limitPass. fold (available host rps burst w). simpl.
  destruct (Qlt_le_dec (available host rps burst w) 1) as [Hlt|Hge]; [|reflexivity].
  destruct (buckets w !! host) eqn:E; [reflexivity|].
  pose proof (available_fresh w E). lra.
Qed.

Lemma limitPass_bucketOk (w : World.t) :
  bucketOk host w -> bucketOk host (fst (limitPass host rps burst w)).
Proof.
  intros Hok. rewrite limitPass_eq. simpl.
  destruct (available_bounds w Hok) as [H0 Hb].
  unfold bucketOk.
  destruct (Qlt_le_dec (available host rps burst w) 1) as [Hlt|Hge];
    cbn [fst with_buckets buckets World.now]. all: intros b; rewrite lookup_insert_eq; intros [= <-]; simpl; split; lra.
Qed.

Lemma sleep_now (ms : Q) (w : World.t) : World.now w + ms <= World.now (sleep env ms w).
Proof.
  simpl. pose proof (ofN_nonneg (lag env (timers w))).
  pose proof (Q.le_max_r 0 ms). lra.
Qed.

Lemma sleep_bucketOk (ms : Q) (w : World.t) :
  bucketOk host w -> bucketOk host (sleep env ms w).
Proof.
  intros Hok b Hb. simpl in Hb. destruct (Hok b Hb) as [H0 Hl]. split; [exact H0|].
  simpl. pose proof (ofN_nonneg (lag env (timers w))).
  pose proof (Q.le_max_l 0 ms). lra.
Qed.

Lemma reachable_tokens (w : World.t) :
  reachable env host rps burst w ->
  bucketOk host w /\ forall b, buckets w !! host = Some b -> tokens b <= burst.
Proof.
  induction 1 as [w E|w Hr [IHok IHle]|w ms Hr [IHok IHle]].
  - split; intros b Hb; rewrite E in Hb; discriminate.
  - split; [apply limitPass_bucketOk, IHok|].
    rewrite limitPass_eq. simpl.
    destruct (available_bounds w IHok) as [H0 Hb].
    destruct (Qlt_le_dec (available host rps burst w) 1) as [Hlt|Hge];
      cbn [fst with_buckets buckets World.now];
      intros b; rewrite lookup_insert_eq; intros [= <-]; simpl; lra.
  - split; [apply sleep_bucketOk, IHok|]. intros b Hb. apply IHle, Hb.
Qed.

(** After the wait that [limit] computes, the second run of its body finds
    a token. *)
Lemma available_after_wait (w : World.t) :
  let t := available host rps burst w in
  t < 1 ->
  1 <= available host rps burst
         (sleep env ((1 - t) / rps * 1000)
            (with_buckets (insert host {| tokens := t; last := World.now w |}) w)).
Proof.
  intros t Ht. unfold available at 1. simpl. rewrite lookup_insert_eq. simpl.
  apply Q.min_glb; [exact Hburst|].
  apply wait_refills_at; [exact Hrps|exact Ht|apply ofN_nonneg].
Qed.

(** [limit] returns, after two runs of its body at most, and not before
    the wait it computes is over. *)
Lemma limitLoop_two (w : World.t) :
  let t := available host rps burst w in
  exists w',
    limitLoop 2 env host rps burst w = Some w'
    /\ (t < 1 -> World.now w + (1 - t) / rps * 1000 <= World.now w')
    /\ World.now w <= World.now w'
    /\ (bucketOk host w -> bucketOk host w')
    /\ (reachable env host rps burst w -> reachable env host rps burst w')
    /\ metrics w' = metrics w /\ cookieJar w' = cookieJar w
    /\ uaState w' = uaState w /\ fetchLog w' = fetchLog w
    /\ randoms w' = randoms w.
Proof.
  intros t. cbn [limitLoop].
  pose proof (limitPass_bucketOk w) as Hok1.
  pose proof (reach_pass env host rps burst w) as Hre1.
  rewrite limitPass_eq in Hok1, Hre1 |- *. fold t in Hok1, Hre1 |- *. cbv zeta in *.
  destruct (Qlt_le_dec t 1) as [Hlt|Hge]; cbn [fst] in *.
  - set (w1 := with_buckets (insert host {| tokens := t; last := World.now w |}) w) in *.
    set (ms := (1 - t) / rps * 1000).
    pose proof (limitPass_bucketOk (sleep env ms w1)) as Hok2.
    pose proof (reach_pass env host rps burst (sleep env ms w1)) as Hre2.
    rewrite limitPass_eq in Hok2, Hre2 |- *. cbv zeta in *.
    pose proof (available_after_wait w Hlt) as H1. fold t ms w1 in H1.
    destruct (Qlt_le_dec (available host rps burst (sleep env ms w1)) 1) as [Hlt2|Hge2];
      [lra|].
    cbn [fst] in *. eexists; split; [reflexivity|].
    pose proof (sleep_now ms w1) as Hs.
    assert (Hn : World.now w1 = World.now w) by reflexivity.
    rewrite Hn in Hs.
    split; [intros _; exact Hs|].
    split; [pose proof (wait_positive t rps Hrps Hlt); fold ms in H; cbn in Hs |- *; lra|].
    split; [intros Hok; apply Hok2, sleep_bucketOk, Hok1, Hok|].
    split; [intros Hre; apply Hre2, reach_sleep, Hre1, Hre|].
    repeat split; reflexivity.
  - eexists; split; [reflexivity|].
    split; [intros Hlt; lra|].
    split; [cbn; lra|].
    split; [exact Hok1|].
    split; [exact Hre1|].
    repeat split; reflexivity.
Qed.

Lemma limitLoop_more_fuel (fuel : nat) (w w' : World.t) :
  limitLoop fuel env host rps burst w = Some w' ->
  limitLoop (S fuel) env host rps burst w = Some w'.
Proof.
  revert w. induction fuel as [|fuel IH]; intros w; [discriminate|].
  intros H. cbn [limitLoop] in H |- *.
  destruct (limitPass host rps burst w) as [w1 [ms|]]; [|exact H].
  apply IH, H.
Qed.

Lemma limitLoop_enough (fuel : nat) (w w' : World.t) :
  (2 <= fuel)%nat ->
  limitLoop 2 env host rps burst w = Some w' ->
  limitLoop fuel env host rps burst w = Some w'.
Proof.
  intros Hf H. induction Hf as [|fuel Hf IH]; [exact H|].
  apply limitLoop_more_fuel, IH.
Qed.

End RateLimiterFacts.

(** C7.  In every state that calls of [limit] on a host go through, the
    bucket of the host holds between 0 and [burst] tokens; and a call of
    [limit] returns, and when it finds fewer than one token after the
    refill it returns no earlier than [(1 - tokens) / rps] seconds after
    the call.  The rate is positive and the bucket holds one token at
    least. *)
Theorem limit_tokens_within_burst_and_waits
    (env : World.Env) (host : string) (rps burst : Q) (w : World.t) :
  (0 < rps)%Q → (1 <= burst)%Q →
  RateLimiter.reachable env host rps burst w →
  (∀ b, World.buckets w !! host = Some b →
        (0 <= World.tokens b)%Q ∧ (World.tokens b <= burst)%Q)
  ∧ ∃ w', RateLimiter.limitLoop 2 env host rps burst w = Some w'
          ∧ RateLimiter.reachable env host rps burst w'
          ∧ ((RateLimiter.available host rps burst w < 1)%Q →
             (World.now w + (1 - RateLimiter.available host rps burst w) / rps * 1000
              <= World.now w')%Q).
Proof.
  intros Hrps Hburst Hre.
  destruct (reachable_tokens env host rps burst Hrps Hburst w Hre) as [Hok Hle].
  split.
  - intros b Hb. split; [apply (Hok b Hb)|apply (Hle b Hb)].
  - destruct (limitLoop_two env host rps burst Hrps Hburst w)
      as (w' & Hrun & Hwait & _ & _ & Hre' & _).
    exists w'. split; [exact Hrun|]. split; [apply Hre', Hre|exact Hwait].
Qed.

(** The scenario [rps = 1], [burst = 1]: the second call finds no token and
    returns one second later at the earliest. *)
Lemma limit_tokens_witness :
  (forall b, World.buckets Examples.drained !! "site.test" = Some b ->
             (0 <= World.tokens b)%Q /\ (World.tokens b <= 1)%Q)
  /\ exists w',
      RateLimiter.limitLoop 2 (Examples.server 10 (fun _ => 200)) "site.test" 1 1
        Examples.drained = Some w'
      /\ RateLimiter.reachable (Examples.server 10 (fun _ => 200)) "site.test" 1 1 w'
      /\ ((RateLimiter.available "site.test" 1 1 Examples.drained < 1)%Q ->
          (World.now Examples.drained
           + (1 - RateLimiter.available "site.test" 1 1 Examples.drained) / 1 * 1000
           <= World.now w')%Q).
Proof.
  apply (limit_tokens_within_burst_and_waits
           (Examples.server 10 (fun _ => 200)) "site.test" 1 1 Examples.drained).
  - reflexivity.
  - discriminate.
  - apply RateLimiter.reach_pass, RateLimiter.reach_start. reflexivity.
Defined.

(** ** The fetcher: what each step leaves unchanged *)

Ltac wcbn :=
  cbn [fst snd World.now World.timers World.randoms World.buckets World.metrics
       World.cookieJar World.uaState World.fetchLog World.with_buckets
       World.with_metrics World.with_cookieJar World.with_uaState World.sleep
       World.Math_random World.logFetch Fetcher.backoff Fetcher.recorded
       ScrapeMetrics.recordScrapeFailure ScrapeMetrics.recordScrapeSuccess] in *.

Section FetcherFrames.
Import World Http Errors Fetcher.
Context (env : Env).

(** Between two states only time has passed and random numbers and user
    agents were drawn. *)
Record Quiet (w w' : World.t) : Prop := {
  quiet_now : (World.now w <= World.now w')%Q;
  quiet_buckets : buckets w' = buckets w;
  quiet_metrics : metrics w' = metrics w;
  quiet_cookieJar : cookieJar w' = cookieJar w;
  quiet_fetchLog : fetchLog w' = fetchLog w
}.

Lemma Quiet_refl (w : World.t) : Quiet w w.
Proof. split; try reflexivity. lra. Qed.

Lemma Quiet_trans (w1 w2 w3 : World.t) : Quiet w1 w2 -> Quiet w2 w3 -> Quiet w1 w3.
Proof.
  intros [] []. split; try congruence. lra.
Qed.

Lemma sleep_Quiet (ms : Q) (w : World.t) : Quiet w (sleep env ms w).
Proof.
  split; try reflexivity. wcbn.
  pose proof (ofN_nonneg (lag env (timers w))). pose proof (Q.le_max_l 0 ms). lra.
Qed.

Lemma backoff_Quiet (base jitter : Q) (attempt : Z) (w : World.t) :
  Quiet w (backoff env base jitter attempt w).
Proof.
  unfold backoff. cbn [Math_random].
  eapply Quiet_trans; [|apply sleep_Quiet]. split; try reflexivity. wcbn. lra.
Qed.

Lemma chooseUserAgent_Quiet (host : string) (w : World.t) :
  Quiet w (snd (chooseUserAgent env host w)).
Proof.
  unfold chooseUserAgent. destruct (uaState w !! host); wcbn; split; try reflexivity; wcbn; lra.
Qed.

Lemma buildHeaders_Quiet (u : URL) (hdrs : gmap string string) (cookies : option string)
    (attempt : Z) (w : World.t) :
  Quiet w (snd (buildHeaders env u hdrs cookies attempt w)).
Proof.
  unfold buildHeaders.
  destruct (hdrs !! "User-Agent").
  - repeat case_match; apply Quiet_refl.
  - pose proof (chooseUserAgent_Quiet (host u) w) as H.
    destruct (chooseUserAgent env (host u) w) as [ua w1]. 
    repeat case_match; exact H.
Qed.

Lemma buildHeaders_now (u : URL) (hdrs : gmap string string) (cookies : option string)
    (attempt : Z) (w : World.t) :
  World.now (snd (buildHeaders env u hdrs cookies attempt w)) = World.now w.
Proof.
  unfold buildHeaders, chooseUserAgent, Math_random.
  repeat case_match; simplify_eq; reflexivity.
Qed.

Lemma limitLoop_Quiet_but_buckets (fuel : nat) (host : string) (rps burst : Q)
    (w w' : World.t) :
  RateLimiter.limitLoop fuel env host rps burst w = Some w' ->
  (World.now w <= World.now w')%Q /\ metrics w' = metrics w
  /\ cookieJar w' = cookieJar w /\ fetchLog w' = fetchLog w.
Proof.
  revert w. induction fuel as [|fuel IH]; intros w; [discriminate|].
  cbn [RateLimiter.limitLoop]. unfold RateLimiter.limitPass.
  repeat case_match; intros Hrun; simplify_eq; wcbn;
    try (repeat split; try reflexivity; lra);
    apply IH in Hrun as (Hn & Hm & Hc & Hf); wcbn;
    (split; [|repeat split; assumption]);
    match type of Hn with (?a + Qmax 0 ?ms + ofN ?l <= _)%Q =>
      pose proof (ofN_nonneg l); pose proof (Q.le_max_l 0 ms) end; lra.
Qed.

Lemma cancellation_after_sent (sent timeoutMs : Q) (sg : option AbortSignal) :
  (sent <= fst (cancellation sent timeoutMs sg))%Q.
Proof.
  unfold cancellation. pose proof (Q.le_max_l 0 timeoutMs).
  repeat case_match; cbn [fst]; try lra. apply Q.le_max_r.
Qed.


(** What a call of [fetch] does to the state. *)
Lemma fetch_effect (attempt : Z) (url : string) (hdrs : gmap string string)
    (timeoutMs : Q) (sg : option AbortSignal) (w : World.t) :
  let result := fst (fetch env attempt url hdrs timeoutMs sg w) in
  let w' := snd (fetch env attempt url hdrs timeoutMs sg w) in
  let up := upstream env (length (fetchLog w)) in
  let arrives := (World.now w + ofN (latency up))%Q in
  let cancel := cancellation (World.now w) timeoutMs sg in
  fetchLog w' = {| fr_attempt := attempt; fr_at := World.now w; fr_url := url;
                   fr_headers := hdrs; fr_result := result |} :: fetchLog w
  /\ (World.now w <= World.now w')%Q
  /\ buckets w' = buckets w /\ metrics w' = metrics w /\ cookieJar w' = cookieJar w
  /\ result = (if Qlt_le_dec arrives (fst cancel) then reply up else inr (snd cancel))
  /\ World.now w' = (if Qlt_le_dec arrives (fst cancel) then arrives else fst cancel).
Proof.
  unfold fetch.
  pose proof (cancellation_after_sent (World.now w) timeoutMs sg) as Hc.
  pose proof (ofN_nonneg (latency (upstream env (length (fetchLog w))))) as Hl.
  cbv zeta.
  destruct (Qlt_le_dec _ _) as [Hlt|Hge]; wcbn;
    (split; [reflexivity|]); (split; [lra|]); repeat (split; [reflexivity|]);
    reflexivity.
Qed.

(** One turn of the loop: the rate limiter lets the caller through; then
    either the caller's signal has aborted, or one request is sent and its
    result goes to [onResponse] or [onError]. *)
Lemma attemptPass_inv (fuel : nat) (req : FetchRequestOptions) (u : URL) (attempt : Z)
    (w : World.t) (step : Step) :
  attemptPass fuel env req u attempt w = Some step ->
  let siteKey := default (host u) (site req) in
  let m := default 3%Z (maxRetries req) in
  exists w1,
    RateLimiter.limit fuel env (host u) (rps req) (burst req) w = Some w1
    /\ (World.now w <= World.now w1)%Q /\ metrics w1 = metrics w
    /\ cookieJar w1 = cookieJar w /\ fetchLog w1 = fetchLog w
    /\ ((exists sg, signal req = Some sg /\ aborted sg (World.now w1) = true
                   /\ step = Throw (ScraperError "Request aborted" None (Some (url req))
                                       (Some siteKey) None) w1)
        \/ ((forall sg, signal req = Some sg -> aborted sg (World.now w1) = false)
            /\ exists rec w3,
                fr_attempt rec = attempt /\ fr_at rec = World.now w1
                /\ fetchLog w3 = rec :: fetchLog w
                /\ (World.now w1 <= World.now w3)%Q /\ buckets w3 = buckets w1
                /\ metrics w3 = metrics w /\ cookieJar w3 = cookieJar w
                /\ (let up := upstream env (length (fetchLog w)) in
                    let arrives := (World.now w1 + ofN (latency up))%Q in
                    let cancel := cancellation (World.now w1)
                                    (default 25000%Q (timeoutMs req)) (signal req) in
                    fr_result rec = (if Qlt_le_dec arrives (fst cancel)
                                     then reply up else inr (snd cancel))
                    /\ World.now w3 = (if Qlt_le_dec arrives (fst cancel)
                                       then arrives else fst cancel))
                /\ step = match fr_result rec with
                          | inl response =>
                              onResponse env (url req) siteKey (host u) m attempt response w3
                          | inr e =>
                              onError env (url req) siteKey m attempt (ForeignError e) w3
                          end)).
Proof.
  intros H. cbv zeta. unfold attemptPass in H.
  destruct (RateLimiter.limit fuel env (host u) (rps req) (burst req) w) as [w1|] eqn:El;
    [|discriminate].
  exists w1. split; [reflexivity|].
  apply limitLoop_Quiet_but_buckets in El as (Hn1 & Hm1 & Hc1 & Hf1).
  do 4 (split; [assumption|]).
  destruct (match signal req with Some sg => aborted sg (World.now w1) | None => false end)
    eqn:Ea.
  - left. destruct (signal req) as [sg|]; [|discriminate].
    exists sg. repeat split; congruence.
  - right. split; [intros sg Hsg; rewrite Hsg in Ea; exact Ea|].
    pose proof (buildHeaders_Quiet u (default ∅ (headers req)) (cookies req) attempt w1) as Hq.
    pose proof (buildHeaders_now u (default ∅ (headers req)) (cookies req) attempt w1) as Hnow.
    destruct (buildHeaders env u (default ∅ (headers req)) (cookies req) attempt w1)
      as [hdrs w2].
    cbn [snd] in Hq, Hnow. destruct Hq as [Hn2 Hb2 Hm2 Hc2 Hf2].
    pose proof (fetch_effect attempt (url req) hdrs (default 25000%Q (timeoutMs req))
                  (signal req) w2) as Hfe.
    destruct (fetch env attempt (url req) hdrs _ _ w2) as [result w3].
    cbn [fst snd] in Hfe. cbv zeta in Hfe.
    destruct Hfe as (Hlog & Hn3 & Hb3 & Hm3 & Hc3 & Hres & Hdone).
    exists {| fr_attempt := attempt; fr_at := World.now w2; fr_url := url req;
              fr_headers := hdrs; fr_result := result |}, w3.
    cbn [fr_attempt fr_at fr_result].
    split; [reflexivity|]. split; [exact Hnow|].
    split; [congruence|]. split; [rewrite <- Hnow; exact Hn3|].
    split; [congruence|]. split; [congruence|]. split; [congruence|].
    split; [|congruence].
    cbv zeta. rewrite Hf2, Hf1, Hnow in Hres, Hdone. split; assumption.
Qed.

End FetcherFrames.

(** ** The fetcher: the two handlers *)

Section FetcherHandlers.
Import World Http Errors Fetcher.
Context (env : Env) (url siteKey host : string) (m attempt : Z).

Lemma retryStatus_not_ok (r : Response) : isRetryStatus (Http.status r) = true -> ok r = false.
Proof.
  unfold isRetryStatus, RETRY_STATUS, ok. intros H. apply bool_decide_eq_true in H.
  repeat (apply elem_of_cons in H as [->|H]; [reflexivity|]).
  apply elem_of_nil in H. contradiction.
Qed.

Local Abbreviation recorded := (Fetcher.recorded url siteKey).
Local Abbreviation statusError := (Fetcher.statusError url siteKey attempt).

Lemma onResponse_retry (r : Response) (w : World.t) :
  isRetryStatus (Http.status r) = true -> attempt <= m ->
  onResponse env url siteKey host m attempt r w = Continue (backoff env 500 250 attempt w).
Proof.
  intros Hr Ha. unfold onResponse. rewrite Hr.
  apply Z.leb_le in Ha. rewrite Ha. reflexivity.
Qed.

Lemma onResponse_retry_other (r : Response) (w : World.t) :
  isRetryStatus (Http.status r) = false -> ok r = false -> attempt <= m ->
  onResponse env url siteKey host m attempt r w
  = Continue (backoff env 600 400 attempt (recorded r w)).
Proof.
  intros Hr Hok Ha. unfold onResponse, onError. rewrite Hr, Hok.
  apply Z.leb_le in Ha. rewrite Ha. reflexivity.
Qed.

Lemma onResponse_spent (r : Response) (w : World.t) :
  ok r = false -> m < attempt ->
  onResponse env url siteKey host m attempt r w
  = Throw (ScraperError (statusMessage r) (Some (Http.status r)) (Some url) (Some siteKey)
             (Some (statusError r)))
          (recorded r (recorded r w)).
Proof.
  intros Hok Ha. unfold onResponse, onError. rewrite Hok.
  apply Z.leb_gt in Ha. rewrite Ha, !andb_false_r. reflexivity.
Qed.

Lemma onResponse_ok (r : Response) (w : World.t) :
  ok r = true ->
  onResponse env url siteKey host m attempt r w
  = Return r (with_cookieJar
                (CookieStore.storeCookies host (getSetCookie r) (setCookieHeader r)) w).
Proof.
  intros Hok. unfold onResponse. rewrite Hok.
  destruct (isRetryStatus (Http.status r)) eqn:Hr; [|reflexivity].
  apply retryStatus_not_ok in Hr. congruence.
Qed.

(** The cases of [onResponse]. *)
Lemma onResponse_cases (r : Response) (w : World.t) :
  (isRetryStatus (Http.status r) = true /\ ok r = false /\ attempt <= m
   /\ onResponse env url siteKey host m attempt r w
      = Continue (backoff env 500 250 attempt w))
  \/ (isRetryStatus (Http.status r) = false /\ ok r = false /\ attempt <= m
      /\ onResponse env url siteKey host m attempt r w
         = Continue (backoff env 600 400 attempt (recorded r w)))
  \/ (ok r = false /\ m < attempt
      /\ onResponse env url siteKey host m attempt r w
         = Throw (ScraperError (statusMessage r) (Some (Http.status r)) (Some url)
                    (Some siteKey) (Some (statusError r)))
                 (recorded r (recorded r w)))
  \/ (ok r = true
      /\ onResponse env url siteKey host m attempt r w
         = Return r (with_cookieJar
                       (CookieStore.storeCookies host (getSetCookie r) (setCookieHeader r))
                       w)).
Proof.
  destruct (ok r) eqn:Hok.
  - right; right; right. split; [reflexivity|apply onResponse_ok, Hok].
  - destruct (Z_le_gt_dec attempt m) as [Ha|Ha].
    + destruct (isRetryStatus (Http.status r)) eqn:Hr.
      * left. repeat split; try assumption. apply onResponse_retry; assumption.
      * right; left. repeat split; try assumption. apply onResponse_retry_other; assumption.
    + right; right; left. repeat split; [lia|apply onResponse_spent; [assumption|lia]].
Qed.

(** The cases of [onError] for what [fetch] rejects with. *)
Lemma onError_cases (e : Foreign) (w : World.t) :
  (attempt <= m
   /\ exists base jitter,
       onError env url siteKey m attempt (ForeignError e) w
       = Continue (backoff env base jitter attempt w))
  \/ onError env url siteKey m attempt (ForeignError e) w
     = Throw (ScraperError (messageOf (ForeignError e)) (f_status e) (Some url)
                (Some siteKey) (Some (ForeignError e)))
             (ScrapeMetrics.recordScrapeFailure siteKey (f_status e)
                (messageOf (ForeignError e)) (Some url) w).
Proof.
  unfold onError. cbn [Errors.name Errors.status isFetchFailedError].
  destruct (attempt <=? m)%Z eqn:Ha.
  - apply Z.leb_le in Ha.
    repeat case_match; try (left; split; [exact Ha|eexists _, _; reflexivity]).
    right. reflexivity.
  - rewrite !andb_false_r. cbn [andb]. right. reflexivity.
Qed.

End FetcherHandlers.

(** ** The failure counter *)

Section FailureCounter.
Import World Http Errors Fetcher.

Lemma failures_recorded (site : string) (status : option Z) (message : string)
    (url : option string) (w : World.t) :
  ScrapeMetrics.failures site (ScrapeMetrics.recordScrapeFailure site status message url w)
  = S (ScrapeMetrics.failures site w).
Proof.
  unfold ScrapeMetrics.failures, ScrapeMetrics.recordScrapeFailure, ScrapeMetrics.getOrCreate.
  wcbn. rewrite lookup_insert_eq. cbn. lia.
Qed.

Lemma failures_same_metrics (site : string) (w w' : World.t) :
  metrics w' = metrics w -> ScrapeMetrics.failures site w' = ScrapeMetrics.failures site w.
Proof. unfold ScrapeMetrics.failures. intros ->. reflexivity. Qed.

End FailureCounter.

(** ** The fetcher: whole calls *)

Section FetcherRuns.
Import World Http Errors Fetcher.
Context (env : Env) (req : FetchRequestOptions) (u : URL).

Local Abbreviation siteKey := (default (host u) (site req)).
Local Abbreviation budget := (default 3%Z (maxRetries req)).

Lemma countFatal_snoc (l : list FetchRecord) (r : FetchRecord) :
  countFatal (l ++ [r]) = (countFatal l + if fatalStatus r then 1 else 0)%nat.
Proof.
  unfold countFatal. rewrite List.filter_app, length_app. cbn [List.filter].
  destruct (fatalStatus r); reflexivity.
Qed.

(** A call that ends on a status that is not ok, the budget spent, has
    recorded two failures in its last turn and one in each earlier turn
    that met a status outside the retry set. *)
Lemma attempts_failure_count (fuel limitFuel : nat) (attempt : Z) (w : World.t)
    (o : Outcome) (w' : World.t) :
  attempts fuel limitFuel env req u attempt w = Some (o, w') ->
  endedOnStatus o = true ->
  exists last earlier,
    fetchLog w' = last :: earlier ++ fetchLog w
    /\ ScrapeMetrics.failures siteKey w'
       = (ScrapeMetrics.failures siteKey w + countFatal earlier + 2)%nat.
Proof.
  revert attempt w. induction fuel as [|fuel IH]; intros attempt w Hrun Hend; [discriminate|].
  cbn [attempts] in Hrun.
  destruct (attemptPass limitFuel env req u (attempt + 1) w) as [step|] eqn:Epass;
    [|discriminate].
  apply attemptPass_inv in Epass as (w1 & _ & _ & Hm1 & _ & Hf1 & Hcase).
  destruct Hcase as [(sg & _ & _ & ->)
                    |(_ & rec & w3 & _ & _ & Hlog & _ & _ & Hm3 & _ & _ & ->)].
  - simplify_eq; discriminate Hend.
  - destruct (fr_result rec) as [r|e] eqn:Eres.
    + destruct (onResponse_cases env (url req) siteKey (host u) budget (attempt + 1) r w3)
        as [(Hr & Hok & Ha & Hstep)|[(Hr & Hok & Ha & Hstep)|[(Hok & Ha & Hstep)|(Hok & Hstep)]]];
        rewrite Hstep in Hrun.
      * destruct (IH _ _ Hrun Hend) as (last & earlier & Hlog' & Hcount).
        destruct (backoff_Quiet env 500 250 (attempt + 1) w3) as [_ _ Hmb _ Hfb].
        exists last, (earlier ++ [rec])%list. split.
        { rewrite Hlog', Hfb, Hlog, <- app_assoc. reflexivity. }
        rewrite Hcount, countFatal_snoc.
        rewrite (failures_same_metrics siteKey w3 _ Hmb), (failures_same_metrics siteKey w _ Hm3).
        unfold fatalStatus. rewrite Eres, Hr, Hok. cbn. lia.
      * destruct (IH _ _ Hrun Hend) as (last & earlier & Hlog' & Hcount).
        destruct (backoff_Quiet env 600 400 (attempt + 1)
                    (recorded (url req) siteKey r w3)) as [_ _ Hmb _ Hfb].
        exists last, (earlier ++ [rec])%list. split.
        { rewrite Hlog', Hfb. cbn [recorded ScrapeMetrics.recordScrapeFailure fetchLog with_metrics].
          rewrite Hlog, <- app_assoc. reflexivity. }
        rewrite Hcount, countFatal_snoc.
        rewrite (failures_same_metrics siteKey _ _ Hmb). unfold recorded.
        rewrite failures_recorded, (failures_same_metrics siteKey w _ Hm3).
        unfold fatalStatus. rewrite Eres, Hr, Hok. cbn. lia.
      * simplify_eq. exists rec, []. split.
        { cbn [recorded ScrapeMetrics.recordScrapeFailure fetchLog with_metrics].
          rewrite Hlog. reflexivity. }
        unfold recorded. rewrite !failures_recorded, (failures_same_metrics siteKey w _ Hm3).
        cbn. lia.
      * simplify_eq; discriminate Hend.
    + destruct (onError_cases env (url req) siteKey budget (attempt + 1) e w3)
        as [(Ha & base & jitter & Hstep)|Hstep]; rewrite Hstep in Hrun.
      * destruct (IH _ _ Hrun Hend) as (last & earlier & Hlog' & Hcount).
        destruct (backoff_Quiet env base jitter (attempt + 1) w3) as [_ _ Hmb _ Hfb].
        exists last, (earlier ++ [rec])%list. split.
        { rewrite Hlog', Hfb, Hlog, <- app_assoc. reflexivity. }
        rewrite Hcount, countFatal_snoc.
        rewrite (failures_same_metrics siteKey w3 _ Hmb), (failures_same_metrics siteKey w _ Hm3).
        unfold fatalStatus. rewrite Eres. cbn. lia.
      * simplify_eq; discriminate Hend.
Qed.

End FetcherRuns.

(** ** The fetcher: a call returns *)

Section FetcherTotal.
Import World Http Errors Fetcher.
Context (env : Env) (req : FetchRequestOptions) (u : URL).

Local Abbreviation siteKey := (default (host u) (site req)).
Local Abbreviation budget := (default 3%Z (maxRetries req)).

Hypothesis Hrps : (0 < default (1 # 2) (rps req))%Q.
Hypothesis Hburst : (1 <= default 2 (burst req))%Q.

Lemma bucketOk_later (host : string) (w w' : World.t) :
  RateLimiter.bucketOk host w -> buckets w' = buckets w ->
  (World.now w <= World.now w')%Q -> RateLimiter.bucketOk host w'.
Proof.
  intros Hok Hb Hn b Hlk. rewrite Hb in Hlk. destruct (Hok b Hlk) as [H0 Hl].
  split; [exact H0|lra].
Qed.

Lemma limit_total (limitFuel : nat) (w : World.t) :
  (2 <= limitFuel)%nat -> RateLimiter.bucketOk (host u) w ->
  exists w1, RateLimiter.limit limitFuel env (host u) (rps req) (burst req) w = Some w1
             /\ RateLimiter.bucketOk (host u) w1.
Proof.
  intros Hf Hok.
  destruct (limitLoop_two env (host u) _ _ Hrps Hburst w)
    as (w1 & Hrun & _ & _ & Hok1 & _).
  exists w1. split; [|apply Hok1, Hok].
  unfold RateLimiter.limit. apply limitLoop_enough; assumption.
Qed.

Lemma attemptPass_some (limitFuel : nat) (attempt : Z) (w w1 : World.t) :
  RateLimiter.limit limitFuel env (host u) (rps req) (burst req) w = Some w1 ->
  exists step, attemptPass limitFuel env req u attempt w = Some step.
Proof.
  intros Hl. unfold attemptPass. rewrite Hl.
  destruct (match signal req with Some sg => aborted sg (World.now w1) | None => false end);
    [eexists; reflexivity|].
  destruct (buildHeaders env u _ _ attempt w1) as [hdrs w2].
  destruct (fetch env attempt (url req) hdrs _ _ w2) as [result w3].
  eexists; reflexivity.
Qed.

(** A turn of the loop ends; when it asks for another turn, the budget is
    not spent. *)
Lemma attemptPass_total (limitFuel : nat) (attempt : Z) (w : World.t) :
  (2 <= limitFuel)%nat -> RateLimiter.bucketOk (host u) w ->
  exists step,
    attemptPass limitFuel env req u attempt w = Some step
    /\ forall w', step = Continue w' ->
                  attempt <= budget /\ RateLimiter.bucketOk (host u) w'.
Proof.
  intros Hf Hok.
  destruct (limit_total limitFuel w Hf Hok) as (w1 & Hl & Hok1).
  destruct (attemptPass_some limitFuel attempt w w1 Hl) as (step & Hstep).
  exists step. split; [exact Hstep|]. intros w' ->.
  apply attemptPass_inv in Hstep as (w1' & Hl' & _ & _ & _ & _ & Hcase).
  assert (w1' = w1) by congruence. subst w1'.
  destruct Hcase as [(sg & _ & _ & [=])
                    |(_ & rec & w3 & _ & _ & _ & Hn3 & Hb3 & _ & _ & _ & Hstep)].
  assert (Hok3 : RateLimiter.bucketOk (host u) w3) by (eapply bucketOk_later; eassumption).
  destruct (fr_result rec) as [r|e].
  - destruct (onResponse_cases env (url req) siteKey (host u) budget attempt r w3)
      as [(_ & _ & Ha & E)|[(_ & _ & Ha & E)|[(_ & _ & E)|(_ & E)]]];
      rewrite E in Hstep; simplify_eq; (split; [exact Ha|]).
    + destruct (backoff_Quiet env 500 250 attempt w3) as [Hn Hb _ _ _].
      eapply bucketOk_later; eassumption.
    + destruct (backoff_Quiet env 600 400 attempt (recorded (url req) siteKey r w3))
        as [Hn Hb _ _ _].
      eapply bucketOk_later; [exact Hok3|exact Hb|exact Hn].
  - destruct (onError_cases env (url req) siteKey budget attempt e w3)
      as [(Ha & base & jitter & E)|E]; rewrite E in Hstep; simplify_eq.
    split; [exact Ha|].
    destruct (backoff_Quiet env base jitter attempt w3) as [Hn Hb _ _ _].
    eapply bucketOk_later; eassumption.
Qed.

(** The loop ends after [maxRetries + 1] turns at most. *)
Lemma attempts_total (fuel limitFuel : nat) (attempt : Z) (w : World.t) :
  (2 <= limitFuel)%nat -> RateLimiter.bucketOk (host u) w ->
  (1 <= fuel)%nat -> budget - attempt + 1 <= Z.of_nat fuel ->
  exists o w', attempts fuel limitFuel env req u attempt w = Some (o, w').
Proof.
  intros Hlf. revert attempt w.
  induction fuel as [|fuel IH]; intros attempt w Hok H1 Hfuel; [lia|].
  cbn [attempts].
  destruct (attemptPass_total limitFuel (attempt + 1) w Hlf Hok) as (step & -> & Hcont).
  destruct step as [w'|r w'|e w']; [|eexists _, _; reflexivity..].
  destruct (Hcont w' eq_refl) as [Ha Hok'].
  apply IH; [exact Hok'|lia|lia].
Qed.

(** A request that the caller does not abort and that the upstream
    answers within the time limit reaches [onResponse]. *)
Lemma attemptPass_replied (limitFuel : nat) (attempt : Z) (w : World.t) (r : Response) :
  (2 <= limitFuel)%nat -> RateLimiter.bucketOk (host u) w ->
  signal req = None ->
  reply (upstream env (length (fetchLog w))) = inl r ->
  (ofN (latency (upstream env (length (fetchLog w))))
   < Qmax 0 (default 25000 (timeoutMs req)))%Q ->
  exists rec w3,
    attemptPass limitFuel env req u attempt w
    = Some (onResponse env (url req) siteKey (host u) budget attempt r w3)
    /\ fetchLog w3 = rec :: fetchLog w
    /\ fr_attempt rec = attempt /\ fr_result rec = inl r
    /\ metrics w3 = metrics w /\ cookieJar w3 = cookieJar w
    /\ RateLimiter.bucketOk (host u) w3.
Proof.
  intros Hf Hok Hsig Hreply Hlat.
  destruct (limit_total limitFuel w Hf Hok) as (w1 & Hl & Hok1).
  destruct (attemptPass_some limitFuel attempt w w1 Hl) as (step & Hstep).
  rewrite Hstep.
  apply attemptPass_inv in Hstep as (w1' & Hl' & _ & _ & _ & _ & Hcase).
  assert (w1' = w1) by congruence. subst w1'.
  destruct Hcase as [(sg & Hsg & _)
                    |(_ & rec & w3 & Hatt & _ & Hlog & Hn3 & Hb3 & Hm3 & Hc3 & Hres & Hstep)];
    [congruence|].
  cbv zeta in Hres. destruct Hres as [Hres _].
  rewrite Hsig in Hres. cbn [cancellation fst] in Hres.
  destruct (Qlt_le_dec _ _) as [_|Hge] in Hres; [|lra].
  rewrite Hreply in Hres. rewrite Hres in Hstep.
  exists rec, w3. subst step.
  do 6 (split; [first [reflexivity|assumption]|]).
  exact (bucketOk_later (host u) w1 w3 Hok1 Hb3 Hn3).
Qed.

(** Against an upstream that answers every request in time with a
    status that is not ok, the loop uses its whole budget and ends in the
    branch [if (!response.ok)] of its last turn. *)
Lemma attempts_always_failing (limitFuel n : nat) :
  (2 <= limitFuel)%nat -> signal req = None ->
  answers env (default 25000%Q (timeoutMs req)) (fun r => ok r = false) ->
  forall (fuel : nat) (attempt : Z) (w : World.t),
    Z.of_nat n = Z.max 0 (budget - attempt) -> (S n <= fuel)%nat ->
    RateLimiter.bucketOk (host u) w ->
    exists r new w',
      attempts fuel limitFuel env req u attempt w
      = Some (Threw (ScraperError (statusMessage r) (Some (Http.status r))
                       (Some (url req)) (Some siteKey)
                       (Some (statusError (url req) siteKey
                                (attempt + Z.of_nat n + 1) r))), w')
      /\ fetchLog w' = (new ++ fetchLog w)%list /\ length new = S n
      /\ reply (upstream env (length (fetchLog w) + n)) = inl r.
Proof.
  intros Hlf Hsig Hup. induction n as [|n IH]; intros fuel attempt w Hn Hfuel Hok.
  - destruct fuel as [|fuel]; [lia|]. cbn [attempts].
    destruct (Hup (length (fetchLog w))) as (r & Hreply & Hnok & Hlat).
    destruct (attemptPass_replied limitFuel (attempt + 1) w r Hlf Hok Hsig Hreply Hlat)
      as (rec & w3 & -> & Hlog & _ & _ & _ & _ & _).
    rewrite onResponse_spent by (first [exact Hnok|lia]).
    exists r, [rec], (recorded (url req) siteKey r (recorded (url req) siteKey r w3)).
    replace (attempt + Z.of_nat 0 + 1) with (attempt + 1) by lia.
    split; [reflexivity|]. split; [exact Hlog|]. split; [reflexivity|].
    rewrite Nat.add_0_r. exact Hreply.
  - destruct fuel as [|fuel]; [lia|]. cbn [attempts].
    destruct (Hup (length (fetchLog w))) as (r & Hreply & Hnok & Hlat).
    destruct (attemptPass_replied limitFuel (attempt + 1) w r Hlf Hok Hsig Hreply Hlat)
      as (rec & w3 & -> & Hlog & _ & _ & _ & _ & Hok3).
    assert (Hnext : exists w4, onResponse env (url req) siteKey (host u) budget
                                 (attempt + 1) r w3 = Continue w4
                               /\ fetchLog w4 = fetchLog w3
                               /\ RateLimiter.bucketOk (host u) w4).
    { destruct (onResponse_cases env (url req) siteKey (host u) budget (attempt + 1) r w3)
        as [(_ & _ & _ & E)|[(_ & _ & _ & E)|[(_ & Ha & _)|(Hy & _)]]];
        [| |lia|congruence]; rewrite E; eexists; (split; [reflexivity|]).
      - destruct (backoff_Quiet env 500 250 (attempt + 1) w3) as [Hq1 Hq2 _ _ Hq5].
        split; [exact Hq5|]. exact (bucketOk_later _ _ _ Hok3 Hq2 Hq1).
      - destruct (backoff_Quiet env 600 400 (attempt + 1)
                    (recorded (url req) siteKey r w3)) as [Hq1 Hq2 _ _ Hq5].
        split; [exact Hq5|]. exact (bucketOk_later _ _ _ Hok3 Hq2 Hq1). }
    destruct Hnext as (w4 & -> & Hlog4 & Hok4).
    destruct (IH fuel (attempt + 1) w4 ltac:(lia) ltac:(lia) Hok4)
      as (r' & new & w' & Hrun & Hlog' & Hlen & Hlast).
    exists r', (new ++ [rec])%list, w'.
    replace (attempt + Z.of_nat (S n) + 1) with (attempt + 1 + Z.of_nat n + 1) by lia.
    split; [exact Hrun|].
    split; [rewrite Hlog', Hlog4, Hlog, <- app_assoc; reflexivity|].
    split; [rewrite length_app, Hlen; cbn; lia|].
    rewrite Hlog4, Hlog in Hlast. cbn [length] in Hlast.
    replace (length (fetchLog w) + S n)%nat with (S (length (fetchLog w)) + n)%nat by lia.
    exact Hlast.
Qed.

End FetcherTotal.

(** ** The fetcher: the caller's abort signal *)

Section FetcherAbort.
Import World Http Errors Fetcher.
Context (env : Env) (req : FetchRequestOptions) (u : URL).
Context (sg : AbortSignal) (T : Q).
Hypothesis Hsg : signal req = Some sg.
Hypothesis HT : abortAt sg = Some T.

Local Abbreviation siteKey := (default (host u) (site req)).
Local Abbreviation budget := (default 3%Z (maxRetries req)).




End FetcherAbort.

(** ** The fetcher: what a call leaves in the health records and the jar *)

Section FetcherSuccess.
Import World Http Errors Fetcher.
Context (env : Env) (req : FetchRequestOptions) (u : URL).

Local Abbreviation siteKey := (default (host u) (site req)).
Local Abbreviation budget := (default 3%Z (maxRetries req)).

Import ScrapeMetrics.

Lemma healthKept_same (site : string) (w w' : World.t) :
  metrics w' = metrics w -> healthKept site w w'.
Proof.
  intros H. unfold healthKept, ScrapeMetrics.lastSuccessOf, ScrapeMetrics.failures.
  rewrite H. split; [reflexivity|lia].
Qed.

Lemma healthKept_trans (site : string) (w1 w2 w3 : World.t) :
  healthKept site w1 w2 -> healthKept site w2 w3 -> healthKept site w1 w3.
Proof. intros [H1 H2] [H3 H4]. split; [congruence|lia]. Qed.

Lemma healthKept_recorded (site site' : string) (status : option Z) (message : string)
    (url : option string) (w : World.t) :
  healthKept site' w (ScrapeMetrics.recordScrapeFailure site status message url w).
Proof.
  unfold healthKept, ScrapeMetrics.lastSuccessOf, ScrapeMetrics.failures,
    ScrapeMetrics.recordScrapeFailure, ScrapeMetrics.getOrCreate. wcbn.
  destruct (decide (site = site')) as [->|Hne].
  - rewrite lookup_insert_eq. cbn. split; [reflexivity|lia].
  - rewrite lookup_insert_ne by exact Hne. split; [reflexivity|lia].
Qed.

(** No call records a success. *)
Lemma attempts_healthKept (fuel limitFuel : nat) (attempt : Z) (w : World.t)
    (o : Outcome) (w' : World.t) (site' : string) :
  attempts fuel limitFuel env req u attempt w = Some (o, w') ->
  healthKept site' w w'.
Proof.
  revert attempt w. induction fuel as [|fuel IH]; intros attempt w Hrun; [discriminate|].
  cbn [attempts] in Hrun.
  destruct (attemptPass limitFuel env req u (attempt + 1) w) as [step|] eqn:Epass;
    [|discriminate].
  apply attemptPass_inv in Epass as (w1 & _ & _ & Hm1 & _ & _ & Hcase).
  destruct Hcase as [(sg' & _ & _ & ->)
                    |(_ & rec & w3 & _ & _ & _ & _ & _ & Hm3 & _ & _ & ->)].
  - simplify_eq. apply healthKept_same, Hm1.
  - pose proof (healthKept_same site' w w3 Hm3) as H3.
    destruct (fr_result rec) as [r|e] eqn:Eres.
    + destruct (onResponse_cases env (url req) siteKey (host u) budget (attempt + 1) r w3)
        as [(_ & _ & _ & E)|[(_ & _ & _ & E)|[(_ & _ & E)|(_ & E)]]]; rewrite E in Hrun.
      * destruct (backoff_Quiet env 500 250 (attempt + 1) w3) as [_ _ Hq3 _ _].
        eapply healthKept_trans; [|exact (IH _ _ Hrun)].
        eapply healthKept_trans; [exact H3|apply healthKept_same, Hq3].
      * destruct (backoff_Quiet env 600 400 (attempt + 1)
                    (recorded (url req) siteKey r w3)) as [_ _ Hq3 _ _].
        eapply healthKept_trans; [|exact (IH _ _ Hrun)].
        eapply healthKept_trans; [exact H3|].
        eapply healthKept_trans; [apply healthKept_recorded|apply healthKept_same, Hq3].
      * simplify_eq. eapply healthKept_trans; [exact H3|].
        eapply healthKept_trans; apply healthKept_recorded.
      * simplify_eq. eapply healthKept_trans; [exact H3|]. apply healthKept_same. reflexivity.
    + destruct (onError_cases env (url req) siteKey budget (attempt + 1) e w3)
        as [(_ & base & jitter & E)|E]; rewrite E in Hrun.
      * destruct (backoff_Quiet env base jitter (attempt + 1) w3) as [_ _ Hq3 _ _].
        eapply healthKept_trans; [|exact (IH _ _ Hrun)].
        eapply healthKept_trans; [exact H3|apply healthKept_same, Hq3].
      * simplify_eq. eapply healthKept_trans; [exact H3|apply healthKept_recorded].
Qed.

(** A call that returns a response has stored its cookies. *)
Lemma attempts_returned (fuel limitFuel : nat) (attempt : Z) (w : World.t)
    (r : Response) (w' : World.t) :
  attempts fuel limitFuel env req u attempt w = Some (Returned r, w') ->
  ok r = true
  /\ cookieJar w'
     = CookieStore.storeCookies (host u) (getSetCookie r) (setCookieHeader r) (cookieJar w).
Proof.
  revert attempt w. induction fuel as [|fuel IH]; intros attempt w Hrun; [discriminate|].
  cbn [attempts] in Hrun.
  destruct (attemptPass limitFuel env req u (attempt + 1) w) as [step|] eqn:Epass;
    [|discriminate].
  apply attemptPass_inv in Epass as (w1 & _ & _ & _ & Hc1 & _ & Hcase).
  destruct Hcase as [(sg' & _ & _ & ->)
                    |(_ & rec & w3 & _ & _ & _ & _ & _ & _ & Hc3 & _ & ->)].
  - discriminate Hrun.
  - destruct (fr_result rec) as [r0|e] eqn:Eres.
    + destruct (onResponse_cases env (url req) siteKey (host u) budget (attempt + 1) r0 w3)
        as [(_ & _ & _ & E)|[(_ & _ & _ & E)|[(_ & _ & E)|(Hy & E)]]]; rewrite E in Hrun.
      * destruct (backoff_Quiet env 500 250 (attempt + 1) w3) as [_ _ _ Hq4 _].
        destruct (IH _ _ Hrun) as [Hok Hjar]. split; [exact Hok|].
        rewrite Hjar, Hq4, Hc3. reflexivity.
      * destruct (backoff_Quiet env 600 400 (attempt + 1)
                    (recorded (url req) siteKey r0 w3)) as [_ _ _ Hq4 _].
        destruct (IH _ _ Hrun) as [Hok Hjar]. split; [exact Hok|].
        rewrite Hjar, Hq4. wcbn. rewrite Hc3. reflexivity.
      * discriminate Hrun.
      * simplify_eq. split; [exact Hy|]. wcbn. rewrite Hc3. reflexivity.
    + destruct (onError_cases env (url req) siteKey budget (attempt + 1) e w3)
        as [(_ & base & jitter & E)|E]; rewrite E in Hrun.
      * destruct (backoff_Quiet env base jitter (attempt + 1) w3) as [_ _ _ Hq4 _].
        destruct (IH _ _ Hrun) as [Hok Hjar]. split; [exact Hok|].
        rewrite Hjar, Hq4, Hc3. reflexivity.
      * discriminate Hrun.
Qed.

End FetcherSuccess.

(** ** The fetcher: how long its waits last *)

Section FetcherWaits.
Import World Http Errors Fetcher.
Context (env : Env).

Lemma random_range (w : World.t) :
  (0 <= fst (Math_random env w))%Q /\ (fst (Math_random env w) < 1)%Q.
Proof.
  cbn [Math_random fst].
  assert (H : (0 <= Z.of_N (random env (randoms w) mod 1000000) < 1000000)%Z).
  { pose proof (N.mod_lt (random env (randoms w)) 1000000 ltac:(discriminate)) as Hm.
    set (n := (random env (randoms w) mod 1000000)%N) in *. lia. }
  unfold Qle, Qlt. cbn [Qnum Qden]. lia.
Qed.

(** A backoff lasts [base * 2^(attempt - 1)] milliseconds at least. *)
Lemma backoff_now (base jitter : Q) (attempt : Z) (w : World.t) :
  (0 <= jitter)%Q ->
  (World.now w + base * inject_Z (2 ^ (attempt - 1)) <= World.now (backoff env base jitter attempt w))%Q.
Proof.
  intros Hj. unfold backoff.
  pose proof (random_range w) as [Hr _].
  destruct (Math_random env w) as [r w1] eqn:E. cbn [fst] in Hr.
  assert (Hn : World.now w1 = World.now w).
  { unfold Math_random in E. injection E as _ <-. reflexivity. }
  pose proof (sleep_now env (base * inject_Z (2 ^ (attempt - 1)) + r * jitter) w1) as Hs.
  rewrite Hn in Hs.
  assert (0 <= r * jitter)%Q by (apply Qmult_le_0_compat; assumption).
  set (B := (base * inject_Z (2 ^ (attempt - 1)))%Q) in *.
  set (J := (r * jitter)%Q) in *. lra.
Qed.

Lemma aborted_later (sg : AbortSignal) (t t' : Q) :
  aborted sg t = true -> (t <= t')%Q -> aborted sg t' = true.
Proof.
  unfold aborted. destruct (abortAt sg) as [a|]; [|discriminate].
  intros H Ht. apply Qle_bool_iff in H. apply Qle_bool_iff. lra.
Qed.

End FetcherWaits.

Section FetcherTurnTimes.
Import World Http Errors Fetcher.
Context (env : Env) (req : FetchRequestOptions) (u : URL).

Local Abbreviation siteKey := (default (host u) (site req)).
Local Abbreviation budget := (default 3%Z (maxRetries req)).

Hypothesis Hrps : (0 < default (1 # 2) (rps req))%Q.
Hypothesis Hburst : (1 <= default 2 (burst req))%Q.



End FetcherTurnTimes.

(** ** The retry budget *)

Lemma answers_weaken (env : World.Env) (timeoutMs : Q) (P P' : Http.Response -> Prop) :
  (forall r, P r -> P' r) -> Fetcher.answers env timeoutMs P -> Fetcher.answers env timeoutMs P'.
Proof.
  intros HP H k. destruct (H k) as (r & Hr & HPr & Hlat).
  exists r. split; [exact Hr|]. split; [apply HP, HPr|exact Hlat].
Qed.

Lemma bucketOk_fresh (host : string) : RateLimiter.bucketOk host Examples.fresh.
Proof.
  intros b H. unfold Examples.fresh in H. cbn [World.buckets] in H.
  rewrite lookup_empty in H. discriminate H.
Qed.

Lemma server_answers (ms : N) (s : nat -> Z) (P : Http.Response -> Prop) :
  (ms < 25000)%N -> (forall k, P (Examples.respond (s k))) ->
  Fetcher.answers (Examples.server ms s) 25000 P.
Proof.
  intros Hms HP k. exists (Examples.respond (s k)).
  split; [reflexivity|]. split; [apply HP|].
  cbn [Examples.server World.upstream World.latency]. unfold World.ofN.
  rewrite Q.max_r by (vm_compute; discriminate).
  change 25000%Q with (inject_Z 25000). rewrite <- Zlt_Qlt. lia.
Qed.

(** C1, as the code has it.  Against an upstream that answers every request
    with 503, a call with [maxRetries = 2] sends exactly 3 requests and then
    throws a [ScraperError] with the status, the URL and the site, whose
    [cause] is the [FetchFailedError] that carries [attempt = 3]. *)
Theorem fetchResponse_503_three_attempts_then_ScraperError
    (env : World.Env) (req : Fetcher.FetchRequestOptions) (u : Http.URL) (w : World.t)
    (fuel : nat) :
  World.parseURL env (Fetcher.url req) = Some u ->
  Fetcher.maxRetries req = Some 2 ->
  Fetcher.signal req = None ->
  (0 < default (1 # 2) (Fetcher.rps req))%Q ->
  (1 <= default 2 (Fetcher.burst req))%Q ->
  RateLimiter.bucketOk (Http.host u) w ->
  Fetcher.answers env (default 25000%Q (Fetcher.timeoutMs req))
    (fun r => Http.status r = 503) ->
  (3 <= fuel)%nat ->
  let siteKey := default (Http.host u) (Fetcher.site req) in
  let message := "Fetch failed with status 503" in
  exists new w',
    Fetcher.fetchResponse fuel env req w
    = Some (Fetcher.Threw
              (Errors.ScraperError message (Some 503) (Some (Fetcher.url req)) (Some siteKey)
                 (Some (Errors.FetchFailedError message 3 (Some 503) (Fetcher.url req)
                          (Some siteKey) None))), w')
    /\ World.fetchLog w' = (new ++ World.fetchLog w)%list
    /\ length new = 3%nat.
Proof.
  intros Hurl Hmax Hsig Hrps Hburst Hok Hup Hfuel siteKey message.
  unfold Fetcher.fetchResponse. rewrite Hurl.
  assert (Hup' : Fetcher.answers env (default 25000%Q (Fetcher.timeoutMs req))
                   (fun r => Http.ok r = false)).
  { eapply answers_weaken; [|exact Hup]. intros r Hr. unfold Http.ok. rewrite Hr. reflexivity. }
  destruct (attempts_always_failing env req u Hrps Hburst fuel 2 ltac:(lia) Hsig Hup'
              fuel 0 w) as (r & new & w' & Hrun & Hlog & Hlen & Hlast);
    [rewrite Hmax; reflexivity|lia|exact Hok|].
  destruct (Hup (length (World.fetchLog w) + 2)%nat) as (r' & Hr' & Hst & _).
  assert (r' = r) by congruence. subst r'.
  exists new, w'. split; [|split; assumption].
  rewrite Hrun. unfold Fetcher.statusError, Fetcher.statusMessage.
  rewrite Hst. reflexivity.
Qed.

(** The same call at a concrete upstream. *)
Lemma fetchResponse_503_three_attempts_witness :
  exists new w',
    Fetcher.fetchResponse 3 (Examples.server 10 (fun _ => 503)) (Examples.request 2 None)
      Examples.fresh
    = Some (Fetcher.Threw
              (Errors.ScraperError "Fetch failed with status 503" (Some 503)
                 (Some "https://site.test/a") (Some "site.test")
                 (Some (Errors.FetchFailedError "Fetch failed with status 503" 3 (Some 503)
                          "https://site.test/a" (Some "site.test") None))), w')
    /\ World.fetchLog w' = (new ++ World.fetchLog Examples.fresh)%list
    /\ length new = 3%nat.
Proof.
  apply (fetchResponse_503_three_attempts_then_ScraperError
           (Examples.server 10 (fun _ => 503)) (Examples.request 2 None) Examples.siteUrl
           Examples.fresh 3).
  - reflexivity.
  - reflexivity.
  - reflexivity.
  - reflexivity.
  - discriminate.
  - apply bucketOk_fresh.
  - apply server_answers; [reflexivity|reflexivity].
  - lia.
Defined.

(** C1, as the specification words it, fails: what the call throws is not a
    [FetchFailedError] and has no [attempt]. *)
Lemma fetchResponse_503_does_not_raise_FetchFailedError :
  ~ Spec.retryBudgetExact 3 (Examples.server 10 (fun _ => 503)) (Examples.request 2 None)
      Examples.fresh.
Proof.
  intros (o & w' & Hrun & _ & e & -> & Hff & _).
  assert (H : Examples.outcomeOf
                (Fetcher.fetchResponse 3 (Examples.server 10 (fun _ => 503))
                   (Examples.request 2 None) Examples.fresh)
              = Fetcher.Threw
                  (Errors.ScraperError "Fetch failed with status 503" (Some 503)
                     (Some "https://site.test/a") (Some "site.test")
                     (Some (Errors.FetchFailedError "Fetch failed with status 503" 3
                              (Some 503) "https://site.test/a" (Some "site.test") None))))
    by (vm_compute; reflexivity).
  rewrite Hrun in H. cbn in H. injection H as ->. discriminate Hff.
Qed.




(** ** Cancellation *)




(** ** Health records *)

(** C6, as the code has it.  A call that returns a response has stored the
    cookies of the response for the host before it returns; it has recorded
    no success: for every site the time of the last success is what it was
    before the call and the failure counter has not gone down. *)
Theorem fetchResponse_ok_stores_cookies_records_no_success
    (env : World.Env) (req : Fetcher.FetchRequestOptions) (u : Http.URL) (w w' : World.t)
    (fuel : nat) (r : Http.Response) :
  World.parseURL env (Fetcher.url req) = Some u ->
  Fetcher.fetchResponse fuel env req w = Some (Fetcher.Returned r, w') ->
  Http.ok r = true
  /\ World.cookieJar w'
     = CookieStore.storeCookies (Http.host u) (Http.getSetCookie r) (Http.setCookieHeader r)
         (World.cookieJar w)
  /\ forall site, ScrapeMetrics.healthKept site w w'.
Proof.
  intros Hurl Hrun. unfold Fetcher.fetchResponse in Hrun. rewrite Hurl in Hrun.
  destruct (attempts_returned env req u fuel fuel 0 w r w' Hrun) as [Hok Hjar].
  split; [exact Hok|]. split; [exact Hjar|].
  intros site. exact (attempts_healthKept env req u fuel fuel 0 w _ w' site Hrun).
Qed.

(** After a failed call has left two failures, a call that gets 200 stores
    the cookie and leaves the health record as it was: two failures and no
    last success. *)
Lemma fetchResponse_ok_witness :
  (Http.ok (Examples.respond 200) = true
   /\ World.cookieJar Examples.recovered
      = CookieStore.storeCookies "site.test" (CookieStore.RawArray ["sid=1; Path=/"]) None
          (World.cookieJar Examples.troubled)
   /\ forall site, ScrapeMetrics.healthKept site Examples.troubled Examples.recovered)
  /\ ScrapeMetrics.failures "site.test" Examples.troubled = 2%nat
  /\ ScrapeMetrics.failures "site.test" Examples.recovered = 2%nat
  /\ ScrapeMetrics.lastSuccessOf "site.test" Examples.recovered = None.
Proof.
  split.
  - apply (fetchResponse_ok_stores_cookies_records_no_success
             Examples.recovering (Examples.request 0 None) Examples.siteUrl
             Examples.troubled Examples.recovered 3 (Examples.respond 200)).
    + reflexivity.
    + vm_compute. reflexivity.
  - vm_compute. repeat split; reflexivity.
Defined.

(** C6, as the specification words it, fails: after the call that got the
    200 the record of the site still counts two failures. *)
Lemma fetchResponse_ok_keeps_failure_count :
  ~ Spec.recordsSuccess 3 Examples.recovering (Examples.request 0 None) "site.test"
      Examples.troubled.
Proof.
  intros H.
  destruct (H (Examples.respond 200) Examples.recovered ltac:(vm_compute; reflexivity))
    as [_ Hzero].
  vm_compute in Hzero. discriminate Hzero.
Qed.

(** C10, as the code has it.  A call that ends on a status that is not ok,
    with no retry left, has recorded two failures for the site in its last
    turn, and one more in every earlier turn that met a status that is not
    ok and not in the retry set: the counter of the site grows by 2 plus
    the number of those earlier turns. *)
Theorem fetchResponse_failure_counted_twice_in_last_turn
    (env : World.Env) (req : Fetcher.FetchRequestOptions) (u : Http.URL) (w w' : World.t)
    (fuel : nat) (o : Fetcher.Outcome) :
  World.parseURL env (Fetcher.url req) = Some u ->
  Fetcher.fetchResponse fuel env req w = Some (o, w') ->
  Fetcher.endedOnStatus o = true ->
  let siteKey := default (Http.host u) (Fetcher.site req) in
  exists last earlier,
    World.fetchLog w' = last :: (earlier ++ World.fetchLog w)%list
    /\ ScrapeMetrics.failures siteKey w'
       = (ScrapeMetrics.failures siteKey w + Fetcher.countFatal earlier + 2)%nat.
Proof.
  intros Hurl Hrun Hend. unfold Fetcher.fetchResponse in Hrun. rewrite Hurl in Hrun.
  exact (attempts_failure_count env req u fuel fuel 0 w o w' Hrun Hend).
Qed.

(** Two attempts that both meet 404: one failure for the first, two for the
    last. *)
Lemma fetchResponse_failure_count_witness :
  exists last earlier,
    World.fetchLog (Examples.stateAfter Examples.notFoundTwice)
    = last :: (earlier ++ World.fetchLog Examples.fresh)%list
    /\ ScrapeMetrics.failures "site.test" (Examples.stateAfter Examples.notFoundTwice)
       = (ScrapeMetrics.failures "site.test" Examples.fresh
          + Fetcher.countFatal earlier + 2)%nat.
Proof.
  apply (fetchResponse_failure_counted_twice_in_last_turn
           (Examples.server 10 (fun _ => 404)) (Examples.request 1 None) Examples.siteUrl
           Examples.fresh (Examples.stateAfter Examples.notFoundTwice) 3
           (Examples.outcomeOf Examples.notFoundTwice)).
  - reflexivity.
  - vm_compute. reflexivity.
  - vm_compute. reflexivity.
Defined.

(** C10, as stated, fails: with one retry allowed, a call that meets 404
    twice raises the counter by 3. *)
Lemma fetchResponse_404_counts_three :
  ~ Spec.countsTwo 3 (Examples.server 10 (fun _ => 404)) (Examples.request 1 None)
      "site.test" Examples.fresh.
Proof.
  intros H.
  specialize (H (Examples.outcomeOf Examples.notFoundTwice)
                (Examples.stateAfter Examples.notFoundTwice)
                ltac:(vm_compute; reflexivity) ltac:(vm_compute; reflexivity)).
  vm_compute in H. discriminate H.
Qed.

(** ** The response cache *)

Section LruCacheFacts.
Import LruCache.

Lemma find_key (k : string) (es : list CacheEntry) (e : CacheEntry) :
  find k es = Some e -> key e = k.
Proof.
  unfold find. induction es as [|e0 es IH]; [discriminate|]. cbn [List.find].
  destruct (String.eqb (key e0) k) eqn:E; [|exact IH].
  intros [= <-]. apply String.eqb_eq, E.
Qed.

Lemma find_cons (k : string) (e0 : CacheEntry) (es : list CacheEntry) :
  find k (e0 :: es) = if String.eqb (key e0) k then Some e0 else find k es.
Proof. reflexivity. Qed.

Lemma find_without (k k' : string) (es : list CacheEntry) :
  find k' (without k es) = if decide (k = k') then None else find k' es.
Proof.
  unfold find, without. induction es as [|e0 es IH]; [destruct (decide _); reflexivity|].
  rewrite filter_cons. destruct (decide (key e0 ≠ k)) as [Hne|Heq].
  - cbn [List.find]. rewrite IH.
    destruct (decide (k = k')) as [->|Hkk].
    + destruct (String.eqb (key e0) k') eqn:E; [|reflexivity].
      apply String.eqb_eq in E. contradiction.
    + reflexivity.
  - rewrite IH. destruct (decide (k = k')) as [->|Hkk]; [reflexivity|].
    cbn [List.find]. destruct (String.eqb (key e0) k') eqn:E; [|reflexivity].
    apply String.eqb_eq in E. exfalso. apply Heq. intros Hk. apply Hkk. congruence.
Qed.

Lemma find_take (n : nat) (k : string) (es : list CacheEntry) (e : CacheEntry) :
  find k (take n es) = Some e -> find k es = Some e.
Proof.
  unfold find. revert n. induction es as [|e0 es IH]; intros [|n]; cbn; try discriminate.
  destruct (String.eqb (key e0) k); [trivial|apply IH].
Qed.

(** [cache.get] makes no entry live that was not. *)
Lemma hasLive_get (now t : Q) (k k' : string) (c : LruCache.t) (v : Value) :
  hasLive t k' (snd (get now k c)) = Some v -> hasLive t k' c = Some v.
Proof.
  unfold get, hasLive.
  destruct (find k (entries c)) as [e|] eqn:Ek; [|trivial].
  pose proof (find_key _ _ _ Ek) as Hkey.
  destruct (live now e); cbn [snd entries].
  - rewrite find_cons, find_without, Hkey.
    destruct (String.eqb k k') eqn:E.
    + apply String.eqb_eq in E. subst k'. rewrite Ek. trivial.
    + destruct (decide (k = k')) as [->|_]; [rewrite String.eqb_refl in E; discriminate|].
      trivial.
  - rewrite find_without. destruct (decide (k = k')); [discriminate|trivial].
Qed.

(** After [cache.set(k, v)], a live entry is the new one or was there. *)
Lemma hasLive_set (now t ttl : Q) (k k' : string) (v v' : Value) (c : LruCache.t) :
  hasLive t k' (set now k v ttl c) = Some v' ->
  (k' = k /\ v' = v) \/ hasLive t k' c = Some v'.
Proof.
  unfold set, hasLive. cbn [entries].
  destruct (find k' (take _ _)) as [e|] eqn:E; [|discriminate].
  apply find_take in E. rewrite find_cons in E. cbn [key] in E.
  destruct (String.eqb k k') eqn:Ekk.
  - apply String.eqb_eq in Ekk. subst k'. injection E as <-. cbn [value].
    destruct (live t _); [|discriminate]. intros [= <-]. left. split; reflexivity.
  - rewrite find_without in E.
    destruct (decide (k = k')); [discriminate|]. rewrite E.
    intros H. right. exact H.
Qed.

End LruCacheFacts.

Section CacheFacts.
Import LruCache Cache.

Lemma toStore_json (res : Downstream) (v : Value) :
  toStore json res = Some v
  <-> ((d_status res < 399)%Z
       /\ exists fields, d_json res = Some (Json.JObject fields)
                         /\ Json.okFlag (Json.JObject fields) = true
                         /\ v = VObject fields).
Proof.
  unfold toStore. split.
  - destruct (d_status res <? 399)%Z eqn:Es; [|discriminate].
    apply Z.ltb_lt in Es.
    destruct (d_json res) as [body|]; [|discriminate].
    destruct (Json.truthy body && Json.isObject body && Json.okFlag body) eqn:E;
      [|discriminate].
    apply andb_true_iff in E as [_ Eok].
    destruct body; try discriminate. intros [= <-].
    split; [exact Es|]. eexists. repeat split. exact Eok.
  - intros (Es & fields & -> & Eok & ->).
    apply Z.ltb_lt in Es. rewrite Es. cbn [Json.truthy Json.isObject andb]. rewrite Eok.
    reflexivity.
Qed.

Lemma toStore_text (res : Downstream) (v : Value) :
  toStore text res = Some v <-> ((d_status res < 399)%Z /\ v = VText (d_text res)).
Proof.
  unfold toStore. split.
  - destruct (d_status res <? 399)%Z eqn:Es; [|discriminate].
    apply Z.ltb_lt in Es. intros [= <-]. split; [exact Es|reflexivity].
  - intros (Es & ->). apply Z.ltb_lt in Es. rewrite Es. reflexivity.
Qed.

(** The middleware puts nothing into the cache but what [toStore] gives
    for the key of the request. *)
Lemma serverCache_stores_toStore (ttl : option Q) (responseType : ResponseType)
    (next : Handler) (req : Request) (st : State) (t : Q) (k : string) (v : Value) :
  hasLive t k (cache (snd (serverCache ttl responseType next req st))) = Some v ->
  hasLive t k (cache st) = Some v
  \/ (k = cacheKey req /\ toStore responseType (answer next (calls st) req) = Some v).
Proof.
  unfold serverCache.
  pose proof (hasLive_get (now st) t (cacheKey req) k (cache st) v) as Hget.
  destruct (get (now st) (cacheKey req) (cache st)) as [cachedData cache1].
  cbn [snd] in Hget.
  destruct (match cachedData with
            | Some v0 => if truthyValue v0 then Some v0 else None
            | None => None
            end) as [[fields|body]|]; cbn [snd cache].
  - intros H. left. apply Hget, H.
  - intros H. left. apply Hget, H.
  - destruct (toStore responseType (answer next (calls st) req)) as [v0|] eqn:Es.
    + intros H. apply hasLive_set in H as [[-> ->]|H].
      * right. split; reflexivity.
      * left. apply Hget, H.
    + intros H. left. apply Hget, H.
Qed.

(** A live entry whose value is truthy is served, and the handler does not
    run. *)
Lemma serverCache_hit (ttl : option Q) (responseType : ResponseType)
    (next : Handler) (req : Request) (st : State) (v : Value) :
  hasLive (now st) (cacheKey req) (cache st) = Some v -> truthyValue v = true ->
  fst (serverCache ttl responseType next req st)
  = match v with
    | VObject fields => FromCacheJson (Json.JObject fields)
    | VText body => FromCacheText body
    end
  /\ calls (snd (serverCache ttl responseType next req st)) = calls st.
Proof.
  unfold hasLive, serverCache, get. intros Hlive Htruthy.
  destruct (find (cacheKey req) (entries (cache st))) as [e|]; [|discriminate].
  destruct (live (now st) e); [|discriminate].
  injection Hlive as ->. rewrite Htruthy.
  destruct v; split; reflexivity.
Qed.

End CacheFacts.

(** C3, as the code has it.  The middleware puts into the cache nothing but
    the value that the part after [await next()] computes for the key of
    the request.  With [responseType] ["json"] that part stores the body
    when the status is below 399 and the body is a JSON object whose [ok]
    is truthy; with ["text"] it stores the body whenever the status is
    below 399, whatever the body says. *)
Theorem serverCache_stores_by_status_and_ok_flag
    (ttl : option Q) (responseType : Cache.ResponseType) (next : Cache.Handler)
    (req : Cache.Request) (st : Cache.State) :
  let res := Cache.answer next (Cache.calls st) req in
  (forall t k v,
     LruCache.hasLive t k (Cache.cache (snd (Cache.serverCache ttl responseType next req st)))
     = Some v ->
     LruCache.hasLive t k (Cache.cache st) = Some v
     \/ (k = Cache.cacheKey req /\ Cache.toStore responseType res = Some v))
  /\ (forall v,
        Cache.toStore Cache.json res = Some v
        <-> ((Cache.d_status res < 399)%Z
             /\ exists fields, Cache.d_json res = Some (Json.JObject fields)
                               /\ Json.okFlag (Json.JObject fields) = true
                               /\ v = LruCache.VObject fields))
  /\ (forall v,
        Cache.toStore Cache.text res = Some v
        <-> ((Cache.d_status res < 399)%Z /\ v = LruCache.VText (Cache.d_text res))).
Proof.
  intros res. split; [|split].
  - intros t k v. apply serverCache_stores_toStore.
  - intros v. apply toStore_json.
  - intros v. apply toStore_text.
Qed.

(** A text body is stored on its status alone. *)
Lemma serverCache_stores_witness :
  Cache.toStore Cache.text (Cache.answer (Examples.plainText "hello") 0 Examples.page)
  = Some (LruCache.VText "hello").
Proof.
  apply (proj2 (proj2 (serverCache_stores_by_status_and_ok_flag
                         None Cache.text (Examples.plainText "hello") Examples.page
                         Examples.emptyCache))).
  split; [reflexivity|reflexivity].
Defined.

(** C3, as the specification words it, fails for both response types: a
    text body, which has no [ok], is stored; and so is a JSON body whose
    [ok] is 1, which is not [true]. *)
Lemma serverCache_stores_without_ok_true :
  ~ Spec.storesOnlyOk (Some 1%Q) Cache.text (Examples.plainText "hello") Examples.page
      Examples.emptyCache
  /\ ~ Spec.storesOnlyOk (Some 1%Q) Cache.json (Examples.payload (Json.JNumber 1))
        Examples.page Examples.emptyCache.
Proof.
  split; intros H.
  - destruct (H 5%Q (LruCache.VText "hello") ltac:(vm_compute; reflexivity))
      as [Hbefore|(body & Hj & _)]; [vm_compute in Hbefore|cbn in Hj]; discriminate.
  - destruct (H 5%Q (LruCache.VObject [("ok", Json.JNumber 1)]) ltac:(vm_compute; reflexivity))
      as [Hbefore|(body & Hj & Hok)]; [vm_compute in Hbefore; discriminate|].
    cbn in Hj. injection Hj as <-. vm_compute in Hok. discriminate.
Qed.

(** C5.  A text route whose handler answered with an empty body has a live
    entry one second later, and the next request for the same key still
    runs the handler: the test [if (cachedData)] takes the empty string for
    a miss. *)
Theorem serverCache_live_empty_text_entry_runs_handler :
  LruCache.hasLive (Cache.now Examples.emptyBodyCached) (Cache.cacheKey Examples.page)
    (Cache.cache Examples.emptyBodyCached) = Some (LruCache.VText "")
  /\ fst (Cache.serverCache (Some 1%Q) Cache.text (Examples.plainText "") Examples.page
            Examples.emptyBodyCached)
     = Cache.FromHandler
         {| Cache.d_status := 200; Cache.d_text := ""; Cache.d_json := None |}
  /\ Cache.calls (snd (Cache.serverCache (Some 1%Q) Cache.text (Examples.plainText "")
                         Examples.page Examples.emptyBodyCached))
     = S (Cache.calls Examples.emptyBodyCached)
  /\ ~ Spec.hitSkipsHandler (Some 1%Q) Cache.text (Examples.plainText "") Examples.page
        Examples.emptyBodyCached.
Proof.
  split; [vm_compute; reflexivity|]. split; [vm_compute; reflexivity|].
  split; [vm_compute; reflexivity|].
  intros H. specialize (H (LruCache.VText "") ltac:(vm_compute; reflexivity)).
  vm_compute in H. discriminate H.
Qed.

(** ** Batches of redirect resolutions *)

Section DataFetcherFacts.
Import DataFetcher.
Context (env : Env) (i : nat) (url ref : string) (retries : Z).

(** When every call fails, the loop rethrows the error of its last turn. *)
Lemma retryLoop_all_fail (n : nat) (attempt : Z) (calls pauses : nat) :
  Z.of_nat n = retries - attempt + 1 -> (1 <= n)%nat ->
  (forall k, attempt <= k <= retries -> failsAt env i url ref k) ->
  exists e, settled (retryLoop n env i url ref retries attempt calls pauses) = Rejected e.
Proof.
  revert attempt calls pauses.
  induction n as [|n IH]; intros attempt calls pauses Hn H1 Hfail; [lia|].
  cbn [retryLoop].
  destruct (Hfail attempt ltac:(lia)) as [e He]. rewrite He.
  destruct (attempt =? retries)%Z eqn:E; [exists e; reflexivity|].
  apply Z.eqb_neq in E. apply IH; [lia|lia|].
  intros k Hk. apply Hfail. lia.
Qed.

(** The first call that succeeds gives the result. *)
Lemma retryLoop_first_success (n : nat) (attempt k : Z) (target : string)
    (calls pauses : nat) :
  attempt <= k <= retries -> k - attempt + 1 <= Z.of_nat n ->
  resolvesAt env i url ref k target ->
  (forall j, attempt <= j < k -> failsAt env i url ref j) ->
  settled (retryLoop n env i url ref retries attempt calls pauses)
  = Fulfilled (JsString target).
Proof.
  revert attempt calls pauses.
  induction n as [|n IH]; intros attempt calls pauses Hk Hn Hres Hfail; [lia|].
  cbn [retryLoop].
  destruct (Z.eq_dec attempt k) as [->|Hne].
  - unfold resolvesAt in Hres. rewrite Hres. reflexivity.
  - destruct (Hfail attempt ltac:(lia)) as [e He]. rewrite He.
    destruct (attempt =? retries)%Z eqn:E; [apply Z.eqb_eq in E; lia|].
    apply IH; [lia|lia|exact Hres|]. intros j Hj. apply Hfail. lia.
Qed.

(** The retries are bounded. *)
Lemma retryLoop_calls (n : nat) (attempt : Z) (calls0 pauses : nat) :
  (calls (retryLoop n env i url ref retries attempt calls0 pauses) <= calls0 + n)%nat.
Proof.
  revert attempt calls0 pauses.
  induction n as [|n IH]; intros attempt calls0 pauses; cbn [retryLoop]; [cbn; lia|].
  destruct (getFinalUrl env url ref (fetched env i url attempt)); [cbn; lia|].
  destruct (attempt =? retries)%Z; [cbn; lia|].
  specialize (IH (attempt + 1) (S calls0) (S pauses)). lia.
Qed.

(** The loop looks at nothing but the calls for its own position. *)
Lemma retryLoop_own_calls (env' : Env) (n : nat) (attempt : Z) (calls pauses : nat) :
  resolveURL env' = resolveURL env -> hostname env' = hostname env ->
  (forall k, fetched env' i url k = fetched env i url k) ->
  retryLoop n env' i url ref retries attempt calls pauses
  = retryLoop n env i url ref retries attempt calls pauses.
Proof.
  intros Hr Hh Hf. revert attempt calls pauses.
  induction n as [|n IH]; intros attempt calls pauses; cbn [retryLoop]; [reflexivity|].
  assert (E : getFinalUrl env' url ref (fetched env' i url attempt)
              = getFinalUrl env url ref (fetched env i url attempt)).
  { rewrite Hf. unfold getFinalUrl. rewrite Hr, Hh. reflexivity. }
  rewrite E. destruct (getFinalUrl env url ref (fetched env i url attempt)); [reflexivity|].
  destruct (attempt =? retries)%Z; [reflexivity|]. apply IH.
Qed.

End DataFetcherFacts.

(** C9.  With one attempt per URL at least, [getFinalUrls] returns a list
    as long as its input in which the entry at each position is the result
    of that position's own attempts: the empty string when all its
    attempts fail, the target of its first successful attempt otherwise;
    what happens to the other URLs of the batch does not change it, and no
    URL is tried more often than [retries] times. *)
Theorem getFinalUrls_keeps_order_and_isolates_failures
    (env : DataFetcher.Env) (urls : list string) (ref : string) (retries : option Z) :
  let r := default 3 retries in
  1 <= r ->
  length (DataFetcher.getFinalUrls env urls ref retries) = length urls
  /\ forall i url,
       urls !! i = Some url ->
       ((forall k, 1 <= k <= r -> DataFetcher.failsAt env i url ref k) ->
        DataFetcher.getFinalUrls env urls ref retries !! i
        = Some (DataFetcher.JsString ""))
       /\ (forall k target,
             1 <= k <= r -> DataFetcher.resolvesAt env i url ref k target ->
             (forall j, 1 <= j < k -> DataFetcher.failsAt env i url ref j) ->
             DataFetcher.getFinalUrls env urls ref retries !! i
             = Some (DataFetcher.JsString target))
       /\ (forall env',
             DataFetcher.resolveURL env' = DataFetcher.resolveURL env ->
             DataFetcher.hostname env' = DataFetcher.hostname env ->
             (forall k, DataFetcher.fetched env' i url k = DataFetcher.fetched env i url k) ->
             DataFetcher.getFinalUrls env' urls ref retries !! i
             = DataFetcher.getFinalUrls env urls ref retries !! i)
       /\ (DataFetcher.calls (DataFetcher.retryRequest env i url ref r) <= Z.to_nat r)%nat.
Proof.
  intros r Hr. unfold DataFetcher.getFinalUrls. fold r.
  split; [apply length_imap|].
  intros i url Hi. rewrite list_lookup_imap, Hi. cbn [option_map fmap option_fmap].
  unfold DataFetcher.retryRequest.
  split; [|split; [|split]].
  - intros Hfail.
    destruct (retryLoop_all_fail env i url ref r (Z.to_nat r) 1 0 0
                ltac:(lia) ltac:(lia) Hfail) as [e He].
    rewrite He. reflexivity.
  - intros k target Hk Hres Hfail.
    rewrite (retryLoop_first_success env i url ref r (Z.to_nat r) 1 k target 0 0
               Hk ltac:(lia) Hres Hfail).
    reflexivity.
  - intros env' Hres Hhost Hf. rewrite list_lookup_imap, Hi. cbn [option_map fmap option_fmap].
    rewrite (retryLoop_own_calls env i url ref r env' (Z.to_nat r) 1 0 0 Hres Hhost Hf).
    reflexivity.
  - apply (retryLoop_calls env i url ref r (Z.to_nat r) 1 0 0).
Qed.

(** The scenario: one URL that redirects and one that always fails, with
    one attempt each. *)
Lemma getFinalUrls_witness :
  DataFetcher.getFinalUrls Examples.batch ["urlA"; "urlC"] "ref" (Some 1)
  = [DataFetcher.JsString "urlB"; DataFetcher.JsString ""]
  /\ DataFetcher.getFinalUrls Examples.batch ["urlA"; "urlC"] "ref" (Some 1) !! 1%nat
     = Some (DataFetcher.JsString "").
Proof.
  split; [vm_compute; reflexivity|].
  pose proof (getFinalUrls_keeps_order_and_isolates_failures
                Examples.batch ["urlA"; "urlC"] "ref" (Some 1)) as H.
  cbv zeta in H. destruct H as [_ H]; [cbn; lia|].
  destruct (H 1%nat "urlC" eq_refl) as [Hfail _].
  apply Hfail. intros k _. eexists. reflexivity.
Defined.

(** * Further properties *)

(** ** The rate limiter over time *)

Section LimiterRate.
Import World RateLimiter LimiterRuns.
Local Open Scope Q_scope.
Context (env : Env) (host : string) (rps burst : Q).
Hypothesis Hrps : 0 < rps.
Hypothesis Hburst : 1 <= burst.

Local Abbreviation rateInv := (LimiterRuns.rateInv host rps burst).

Lemma scaled_add (a b : Q) : a / 1000 * rps + b / 1000 * rps == (a + b) / 1000 * rps.
Proof. field. Qed.

Lemma rateInv_bucketOk (t0 : Q) (c : nat) (w : World.t) :
  rateInv t0 c w -> bucketOk host w.
Proof.
  intros [_ H] b Hb. rewrite Hb in H. destruct H as (H0 & Hl & _). split; assumption.
Qed.

Lemma rateInv_pass (t0 : Q) (c : nat) (w : World.t) :
  rateInv t0 c w ->
  rateInv t0 (match snd (limitPass host rps burst w) with None => S c | Some _ => c end)
    (fst (limitPass host rps burst w)).
Proof.
  intros Hinv. pose proof (rateInv_bucketOk _ _ _ Hinv) as Hok.
  destruct (available_bounds host rps burst Hrps Hburst w Hok) as [Ha0 Hab].
  assert (Hgain : inject_Z (Z.of_nat c) + available host rps burst w
                  <= burst + (World.now w - t0) / 1000 * rps).
  { destruct Hinv as [Ht0 Hb]. unfold available.
    destruct (buckets w !! host) as [b|] eqn:E; cbn [from_option id].
    - destruct Hb as (H0 & Hl & Hl0 & Hc).
      pose proof (Q.le_min_r burst (tokens b + (World.now w - last b) / 1000 * rps)) as Hm.
      pose proof (scaled_add (World.now w - last b) (last b - t0)) as Hs.
      assert (Hs' : (World.now w - last b + (last b - t0)) / 1000 * rps
                    == (World.now w - t0) / 1000 * rps) by (field).
      rewrite Hs' in Hs.
      set (A := (World.now w - last b) / 1000 * rps) in *.
      set (B := (last b - t0) / 1000 * rps) in *.
      set (C := (World.now w - t0) / 1000 * rps) in *.
      set (M := Qmin burst (tokens b + A)) in *.
      lra.
    - subst c. change (inject_Z (Z.of_nat 0)) with 0.
      pose proof (Q.le_min_l burst (burst + (World.now w - World.now w) / 1000 * rps)) as Hm.
      pose proof (scaled_nonneg (World.now w - t0) rps ltac:(lra) Hrps) as Hn.
      set (M := Qmin burst _) in *. set (C := (World.now w - t0) / 1000 * rps) in *.
      lra. }
  rewrite limitPass_eq by assumption. cbv zeta.
  destruct Hinv as [Ht0 _].
  destruct (Qlt_le_dec (available host rps burst w) 1) as [Hlt|Hge]; cbn [fst snd];
    (split; [exact Ht0|]); cbn [buckets with_buckets World.now];
    rewrite lookup_insert_eq; cbn [tokens last].
  - repeat split; try lra.
  - repeat split; try lra.
    rewrite Nat2Z.inj_succ, <- Z.add_1_r, inject_Z_plus. change (inject_Z 1) with 1. lra.
Qed.

Lemma rateInv_sleep (t0 : Q) (c : nat) (ms : Q) (w : World.t) :
  rateInv t0 c w -> rateInv t0 c (sleep env ms w).
Proof.
  intros [Ht0 Hb]. pose proof (sleep_now env ms w) as Hs.
  pose proof (Q.le_max_l 0 ms) as Hm. pose proof (ofN_nonneg (lag env (timers w))) as Hl.
  split; [cbn [sleep World.now]; lra|].
  cbn [sleep buckets World.now]. destruct (buckets w !! host) as [b|]; [|exact Hb].
  destruct Hb as (H0 & Hlast & Hl0 & Hc). repeat split; try assumption. lra.
Qed.

Lemma rateInv_run (t0 : Q) (acts : list Action) :
  forall (c : nat) (w : World.t),
    rateInv t0 c w ->
    rateInv t0 (c + snd (run env host rps burst acts w)) (fst (run env host rps burst acts w)).
Proof.
  induction acts as [|[|ms] acts IH]; intros c w Hinv; cbn [run].
  - cbn [fst snd]. rewrite Nat.add_0_r. exact Hinv.
  - pose proof (rateInv_pass t0 c w Hinv) as Hp.
    destruct (limitPass host rps burst w) as [w1 wait]. cbn [fst snd] in Hp.
    specialize (IH _ w1 Hp).
    destruct (run env host rps burst acts w1) as [w2 n]. cbn [fst snd] in IH |- *.
    destruct wait; [exact IH|].
    replace (c + S n)%nat with (S c + n)%nat by lia. exact IH.
  - apply IH, rateInv_sleep, Hinv.
Qed.

Lemma rateInv_bound (t0 : Q) (c : nat) (w : World.t) :
  rateInv t0 c w -> inject_Z (Z.of_nat c) <= burst + (World.now w - t0) / 1000 * rps.
Proof.
  intros [Ht0 Hb].
  pose proof (scaled_nonneg (World.now w - t0) rps ltac:(lra) Hrps) as Hn.
  destruct (buckets w !! host) as [b|].
  - destruct Hb as (H0 & Hl & Hl0 & Hc).
    pose proof (scaled_add (World.now w - last b) (last b - t0)) as Hs.
    assert (Hs' : (World.now w - last b + (last b - t0)) / 1000 * rps
                  == (World.now w - t0) / 1000 * rps) by (field).
    rewrite Hs' in Hs.
    pose proof (scaled_nonneg (World.now w - last b) rps ltac:(lra) Hrps) as Hn'.
    set (A := (World.now w - last b) / 1000 * rps) in *.
    set (B := (last b - t0) / 1000 * rps) in *.
    set (C := (World.now w - t0) / 1000 * rps) in *.
    lra.
  - subst c. change (inject_Z (Z.of_nat 0)) with 0.
    set (C := (World.now w - t0) / 1000 * rps) in *. lra.
Qed.

End LimiterRate.

(** X1.  The rate limit.  On a host that has no bucket yet, whatever the
    callers and the timers do, the number of calls of [limit] that have
    returned is at most [burst] plus [rps] times the seconds that have
    passed. *)
Theorem limit_grants_at_most_burst_plus_rate
    (env : World.Env) (host : string) (rps burst : Q) (acts : list LimiterRuns.Action)
    (w : World.t) :
  (0 < rps)%Q -> (1 <= burst)%Q ->
  World.buckets w !! host = None ->
  (inject_Z (Z.of_nat (snd (LimiterRuns.run env host rps burst acts w)))
   <= burst
      + (World.now (fst (LimiterRuns.run env host rps burst acts w)) - World.now w)
        / 1000 * rps)%Q.
Proof.
  intros Hrps Hburst Hnone.
  assert (Hinv : LimiterRuns.rateInv host rps burst (World.now w) 0 w).
  { split; [lra|]. rewrite Hnone. reflexivity. }
  pose proof (rateInv_run env host rps burst Hrps Hburst (World.now w) acts 0%nat w Hinv) as H.
  cbn [Nat.add] in H.
  eapply rateInv_bound; eassumption.
Qed.

(** One token, one per second: of three calls within the first second, the
    third one only returns after the timer. *)
Lemma limit_grants_witness :
  (inject_Z (Z.of_nat (snd (LimiterRuns.run (Examples.server 10 (fun _ => 200%Z)) "site.test" 1 1
                              [LimiterRuns.Pass; LimiterRuns.Pass; LimiterRuns.Timer 1000;
                               LimiterRuns.Pass] Examples.fresh)))
   <= 1 + (World.now (fst (LimiterRuns.run (Examples.server 10 (fun _ => 200%Z)) "site.test" 1 1
                             [LimiterRuns.Pass; LimiterRuns.Pass; LimiterRuns.Timer 1000;
                              LimiterRuns.Pass] Examples.fresh))
           - World.now Examples.fresh) / 1000 * 1)%Q.
Proof.
  apply (limit_grants_at_most_burst_plus_rate
           (Examples.server 10 (fun _ => 200%Z)) "site.test" 1 1
           [LimiterRuns.Pass; LimiterRuns.Pass; LimiterRuns.Timer 1000; LimiterRuns.Pass]
           Examples.fresh).
  - reflexivity.
  - discriminate.
  - reflexivity.
Defined.


(** X2.  With [burst] below 1, [limit] never returns on a host that has no
    bucket: each run of its body builds a fresh bucket of [burst] tokens,
    waits, and starts again without having stored it. *)
Theorem limit_never_returns_when_burst_below_one
    (env : World.Env) (host : string) (rps burst : Q) (w : World.t) (fuel : nat) :
  (burst < 1)%Q -> World.buckets w !! host = None ->
  RateLimiter.limitLoop fuel env host rps burst w = None.
Proof.
  intros Hb. revert w. induction fuel as [|fuel IH]; intros w Hnone; [reflexivity|].
  cbn [RateLimiter.limitLoop]. unfold RateLimiter.limitPass. rewrite Hnone.
  cbn [from_option id World.tokens World.last].
  destruct (Qlt_le_dec _ 1) as [_|Hge].
  - apply IH. exact Hnone.
  - pose proof (Q.le_min_l burst
                  (burst + (World.now w - World.now w) / 1000 * rps)%Q) as Hm.
    lra.
Qed.

Lemma limit_never_returns_witness :
  RateLimiter.limitLoop 50 (Examples.server 10 (fun _ => 200)) "site.test" 1 (1 # 2)
    Examples.fresh = None.
Proof.
  apply (limit_never_returns_when_burst_below_one
           (Examples.server 10 (fun _ => 200)) "site.test" 1 (1 # 2) Examples.fresh 50).
  - reflexivity.
  - reflexivity.
Defined.

(** X3.  A call of [limit] for one host leaves the buckets of all other
    hosts as they are. *)
Theorem limit_leaves_other_hosts
    (env : World.Env) (host other : string) (rps burst : Q) (w w' : World.t)
    (fuel : nat) :
  RateLimiter.limitLoop fuel env host rps burst w = Some w' ->
  other <> host ->
  World.buckets w' !! other = World.buckets w !! other.
Proof.
  intros Hrun Hne. revert w Hrun. induction fuel as [|fuel IH]; intros w Hrun; [discriminate|].
  cbn [RateLimiter.limitLoop] in Hrun. unfold RateLimiter.limitPass in Hrun.
  destruct (Qlt_le_dec _ 1) as [Hlt|Hge] in Hrun.
  - apply IH in Hrun. rewrite Hrun. cbn [World.sleep World.buckets].
    destruct (World.buckets w !! host); cbn [World.with_buckets World.buckets];
      [rewrite lookup_insert_ne by congruence|]; reflexivity.
  - injection Hrun as <-. cbn [World.with_buckets World.buckets].
    rewrite lookup_insert_ne by congruence. reflexivity.
Qed.

Lemma limit_leaves_other_hosts_witness :
  exists w',
    RateLimiter.limitLoop 1 (Examples.server 10 (fun _ => 200)) "other.test" 1 1
      Examples.drained = Some w'
    /\ World.buckets w' !! "site.test" = World.buckets Examples.drained !! "site.test".
Proof.
  eexists. split; [reflexivity|].
  apply (limit_leaves_other_hosts (Examples.server 10 (fun _ => 200)) "other.test"
           "site.test" 1 1 Examples.drained _ 1).
  - reflexivity.
  - discriminate.
Defined.

(** X4.  After [resetRateLimiter(host)] the next call of [limit] for the
    host returns at once, whatever the bucket held before, and leaves
    [burst - 1] tokens; [resetRateLimiter()] and [resetRateLimiter("")]
    drop the buckets of all hosts. *)
Theorem resetRateLimiter_lets_next_call_through
    (env : World.Env) (host : string) (rps burst : Q) (w : World.t) :
  (1 <= burst)%Q -> JsString.truthy host = true ->
  (exists w',
     RateLimiter.limitLoop 1 env host rps burst (RateLimiter.resetRateLimiter (Some host) w)
     = Some w'
     /\ World.now w' = World.now w /\ World.timers w' = World.timers w
     /\ exists b, World.buckets w' !! host = Some b
                  /\ (World.tokens b == burst - 1)%Q /\ World.last b = World.now w)
  /\ World.buckets (RateLimiter.resetRateLimiter None w) = ∅
  /\ World.buckets (RateLimiter.resetRateLimiter (Some "") w) = ∅.
Proof.
  intros Hb Ht. split; [|split; reflexivity].
  unfold RateLimiter.resetRateLimiter. rewrite Ht.
  cbn [RateLimiter.limitLoop]. unfold RateLimiter.limitPass.
  cbn [World.with_buckets World.buckets World.now]. rewrite lookup_delete_eq.
  cbn [from_option id World.tokens World.last].
  assert (E : (Qmin burst (burst + (World.now w - World.now w) / 1000 * rps) == burst)%Q).
  { assert (E0 : ((World.now w - World.now w) / 1000 * rps == 0)%Q) by (field).
    rewrite E0. apply Q.min_l. lra. }
  destruct (Qlt_le_dec _ 1) as [Hlt|Hge]; [rewrite E in Hlt; lra|].
  eexists. split; [reflexivity|]. cbn [World.with_buckets World.buckets World.now World.timers].
  split; [reflexivity|]. split; [reflexivity|].
  eexists. split; [apply lookup_insert_eq|]. cbn [World.tokens World.last].
  split; [rewrite E; reflexivity|reflexivity].
Qed.

Lemma resetRateLimiter_witness :
  exists w',
    RateLimiter.limitLoop 1 (Examples.server 10 (fun _ => 200)) "site.test" 1 1
      (RateLimiter.resetRateLimiter (Some "site.test") Examples.drained) = Some w'
    /\ World.now w' = World.now Examples.drained
    /\ World.timers w' = World.timers Examples.drained
    /\ exists b, World.buckets w' !! "site.test" = Some b
                 /\ (World.tokens b == 1 - 1)%Q /\ World.last b = World.now Examples.drained.
Proof.
  apply (resetRateLimiter_lets_next_call_through
           (Examples.server 10 (fun _ => 200)) "site.test" 1 1 Examples.drained).
  - discriminate.
  - reflexivity.
Defined.


(** ** Health records over time *)

Section HealthFacts.
Import Metrics World ScrapeMetrics Health.
Context (env : Env).

Lemma recordFailures_snoc (site : string) (errs : list Failure) (e : Failure) (w : World.t) :
  recordFailures env site (errs ++ [e]) w
  = recordScrapeFailure site (fl_status e) (fl_message e) (fl_url e)
      (sleep env (fl_after e) (recordFailures env site errs w)).
Proof. unfold recordFailures. rewrite fold_left_app. reflexivity. Qed.

Lemma recordFailures_count (site : string) (errs : list Failure) (w : World.t) :
  failures site (recordFailures env site errs w) = (failures site w + length errs)%nat.
Proof.
  induction errs as [|e errs IH] using rev_ind; [cbn; lia|].
  rewrite recordFailures_snoc, failures_recorded, length_app.
  rewrite (failures_same_metrics site (recordFailures env site errs w)) by reflexivity.
  rewrite IH. cbn. lia.
Qed.

Lemma recordFailures_other (site other : string) (errs : list Failure) (w : World.t) :
  other <> site ->
  metrics (recordFailures env site errs w) !! other = metrics w !! other.
Proof.
  intros Hne. induction errs as [|e errs IH] using rev_ind; [reflexivity|].
  rewrite recordFailures_snoc. wcbn. rewrite lookup_insert_ne by congruence. exact IH.
Qed.

Lemma recordFailures_lastSuccess (site : string) (errs : list Failure) (w : World.t) :
  lastSuccessOf site (recordFailures env site errs w) = lastSuccessOf site w.
Proof.
  induction errs as [|e errs IH] using rev_ind; [reflexivity|].
  rewrite recordFailures_snoc.
  destruct (healthKept_recorded site site (fl_status e) (fl_message e) (fl_url e)
              (sleep env (fl_after e) (recordFailures env site errs w))) as [H _].
  rewrite H. exact IH.
Qed.

End HealthFacts.

(** X5.  Failures in a row and a success.  After a series of
    [recordScrapeFailure] for a site its counter has grown by the length of
    the series, and the last success is what it was; a [recordScrapeSuccess]
    then sets the counter to 0 and the last success to the current time and
    keeps the last error; the records of other sites do not change. *)
Theorem failures_add_up_and_success_resets
    (env : World.Env) (site : string) (errs : list Health.Failure) (w : World.t) :
  let w1 := Health.recordFailures env site errs w in
  let w2 := ScrapeMetrics.recordScrapeSuccess site w1 in
  ScrapeMetrics.failures site w1 = (ScrapeMetrics.failures site w + length errs)%nat
  /\ ScrapeMetrics.lastSuccessOf site w1 = ScrapeMetrics.lastSuccessOf site w
  /\ ScrapeMetrics.failures site w2 = 0%nat
  /\ ScrapeMetrics.lastSuccessOf site w2 = Some (World.now w1)
  /\ Health.lastErrorOf site w2 = Health.lastErrorOf site w1
  /\ forall other, other <> site ->
       World.metrics w2 !! other = World.metrics w !! other.
Proof.
  intros w1 w2. split; [apply recordFailures_count|].
  split; [apply recordFailures_lastSuccess|].
  unfold w2, ScrapeMetrics.recordScrapeSuccess, ScrapeMetrics.failures,
    ScrapeMetrics.lastSuccessOf, Health.lastErrorOf, ScrapeMetrics.getOrCreate.
  cbn [World.with_metrics World.metrics]. rewrite !lookup_insert_eq.
  cbn [from_option id Metrics.consecutiveFailures Metrics.lastSuccess Metrics.lastError].
  do 3 (split; [reflexivity|]).
  intros other Hne. rewrite lookup_insert_ne by congruence.
  apply recordFailures_other, Hne.
Qed.

(** X6.  Reading the health of a site registers the site: after
    [getScrapeHealth(site)] the site is listed by [getAllScrapeHealth()],
    with no failure if it was unknown; the reading returns what the record
    holds and changes what no later reading returns, for any site. *)
Theorem getScrapeHealth_registers_site (site : string) (w : World.t) :
  let entry := fst (ScrapeMetrics.getScrapeHealth site w) in
  let w' := snd (ScrapeMetrics.getScrapeHealth site w) in
  Health.getAllScrapeHealth w' !! site = Some entry
  /\ (World.metrics w !! site = None ->
      entry = {| Metrics.lastSuccess := None; Metrics.lastError := None;
                 Metrics.consecutiveFailures := 0 |}
      /\ Health.getAllScrapeHealth w !! site = None)
  /\ (forall e, World.metrics w !! site = Some e -> entry = e /\ World.metrics w' = World.metrics w)
  /\ forall other,
       ScrapeMetrics.getOrCreate other (World.metrics w')
       = ScrapeMetrics.getOrCreate other (World.metrics w).
Proof.
  cbv zeta. unfold ScrapeMetrics.getScrapeHealth, Health.getAllScrapeHealth.
  cbn [fst snd World.with_metrics World.metrics].
  split; [apply lookup_insert_eq|]. split; [|split].
  - intros Hnone. unfold ScrapeMetrics.getOrCreate. rewrite Hnone. split; reflexivity.
  - intros e He. unfold ScrapeMetrics.getOrCreate. rewrite He. cbn [from_option id].
    split; [reflexivity|]. apply insert_id, He.
  - intros other. unfold ScrapeMetrics.getOrCreate at 1 3.
    destruct (decide (site = other)) as [->|Hne].
    + rewrite lookup_insert_eq. reflexivity.
    + rewrite lookup_insert_ne by exact Hne. reflexivity.
Qed.

(** ** Strings *)

Section StringFacts.
Import JsString.

Lemma append_nil (s : string) : EmptyString +:+ s = s.
Proof. reflexivity. Qed.

Lemma append_cons (a : ascii) (s t : string) : String a s +:+ t = String a (s +:+ t).
Proof. reflexivity. Qed.

Lemma split_nonempty (c : ascii) (s : string) : split c s <> [].
Proof.
  destruct s as [|a t]; cbn [split]; [discriminate|].
  destruct (Ascii.eqb a c); [discriminate|]. destruct (split c t); discriminate.
Qed.

Lemma split_cons (c a : ascii) (t : string) :
  split c (String a t)
  = if Ascii.eqb a c then EmptyString :: split c t
    else match split c t with
         | h :: r => String a h :: r
         | [] => [String a EmptyString]
         end.
Proof. reflexivity. Qed.

Lemma split_app (c : ascii) (s1 s2 : string) :
  split c (s1 +:+ String c s2) = (split c s1 ++ split c s2)%list.
Proof.
  induction s1 as [|a t IH].
  - rewrite append_nil, split_cons, Ascii.eqb_refl. reflexivity.
  - rewrite append_cons, !split_cons, IH. destruct (Ascii.eqb a c); [reflexivity|].
    pose proof (split_nonempty c t) as Hne.
    destruct (split c t) as [|h r]; [contradiction|]. reflexivity.
Qed.

(** A string without the separator is one part. *)
Lemma split_plain (c : ascii) (s : string) :
  CookieText.includes c s = false -> split c s = [s].
Proof.
  induction s as [|a t IH]; cbn [CookieText.includes split]; [reflexivity|].
  intros H. apply orb_false_iff in H as [Ha Ht]. rewrite Ha, (IH Ht). reflexivity.
Qed.

Lemma split_plain_app (c : ascii) (s1 s2 : string) :
  CookieText.includes c s1 = false ->
  split c (s1 +:+ s2)
  = match split c s2 with
    | h :: r => (s1 +:+ h) :: r
    | [] => [s1]
    end.
Proof.
  intros H. induction s1 as [|a t IH].
  - rewrite append_nil. pose proof (split_nonempty c s2).
    destruct (split c s2); [contradiction|reflexivity].
  - cbn [CookieText.includes] in H. apply orb_false_iff in H as [Ha Ht].
    rewrite append_cons, split_cons, Ha, (IH Ht).
    pose proof (split_nonempty c s2). destruct (split c s2); [contradiction|reflexivity].
Qed.

(** Splitting and joining with the same separator gives the string back. *)
Lemma join_cons (sep x y : string) (l : list string) :
  join sep (x :: y :: l) = x +:+ sep +:+ join sep (y :: l).
Proof. reflexivity. Qed.

Lemma join_split (c : ascii) (s : string) :
  join (String c EmptyString) (split c s) = s.
Proof.
  induction s as [|a t IH]; [reflexivity|].
  pose proof (split_nonempty c t) as Hne.
  rewrite split_cons. destruct (Ascii.eqb a c) eqn:E.
  - apply Ascii.eqb_eq in E. subst a.
    destruct (split c t) as [|h r]; [contradiction|].
    rewrite join_cons, append_nil, append_cons, append_nil, IH. reflexivity.
  - destruct (split c t) as [|h r]; [contradiction|].
    destruct r as [|h' r].
    + cbn in IH |- *. rewrite IH. reflexivity.
    + rewrite join_cons in IH |- *. rewrite append_cons, IH. reflexivity.
Qed.

Lemma trimEnd_cons (a : ascii) (t : string) :
  trimEnd (String a t)
  = if truthy (trimEnd t) then String a (trimEnd t)
    else if is_space a then EmptyString else String a EmptyString.
Proof. cbn [trimEnd]. destruct (trimEnd t); reflexivity. Qed.

Lemma trimEnd_idem (s : string) : trimEnd (trimEnd s) = trimEnd s.
Proof.
  induction s as [|a t IH]; [reflexivity|].
  rewrite trimEnd_cons. destruct (truthy (trimEnd t)) eqn:Et.
  - rewrite trimEnd_cons, IH, Et. reflexivity.
  - destruct (is_space a) eqn:Ea; [reflexivity|].
    rewrite trimEnd_cons. cbn [trimEnd truthy]. rewrite Ea. reflexivity.
Qed.

Lemma trimStart_trimEnd (s : string) : trimStart (trimEnd s) = trimEnd (trimStart s).
Proof.
  induction s as [|a t IH]; [reflexivity|].
  cbn [trimStart]. rewrite trimEnd_cons.
  destruct (is_space a) eqn:Ea.
  - destruct (truthy (trimEnd t)) eqn:Et.
    + cbn [trimStart]. rewrite Ea. exact IH.
    + rewrite <- IH. destruct (trimEnd t); [reflexivity|discriminate].
  - rewrite trimEnd_cons.
    destruct (truthy (trimEnd t)); cbn [trimStart]; rewrite Ea; reflexivity.
Qed.

Lemma trimStart_idem (s : string) : trimStart (trimStart s) = trimStart s.
Proof.
  induction s as [|a t IH]; [reflexivity|].
  cbn [trimStart]. destruct (is_space a) eqn:Ea; [exact IH|].
  cbn [trimStart]. rewrite Ea. reflexivity.
Qed.

Lemma trim_trimStart (s : string) : trim (trimStart s) = trim s.
Proof. unfold trim. rewrite trimStart_idem. reflexivity. Qed.

Lemma trim_trimEnd (s : string) : trim (trimEnd s) = trim s.
Proof. unfold trim. rewrite trimStart_trimEnd, trimEnd_idem. reflexivity. Qed.

Lemma trim_idem (s : string) : trim (trim s) = trim s.
Proof. unfold trim at 2. rewrite trim_trimEnd, trim_trimStart. reflexivity. Qed.

Lemma trim_space (a : ascii) (s : string) :
  is_space a = true -> trim (String a s) = trim s.
Proof. intros Ha. unfold trim. cbn [trimStart]. rewrite Ha. reflexivity. Qed.

(** [trimStart] and [trimEnd] before a split change the first and the last
    part only, when the separator is no white space. *)
Lemma split_trimStart (c : ascii) (s : string) :
  is_space c = false ->
  map trim (split c (trimStart s)) = map trim (split c s).
Proof.
  intros Hc. induction s as [|a t IH]; [reflexivity|].
  cbn [trimStart]. destruct (is_space a) eqn:Ea; [|reflexivity].
  rewrite IH, split_cons.
  destruct (Ascii.eqb a c) eqn:E; [apply Ascii.eqb_eq in E; congruence|].
  pose proof (split_nonempty c t). destruct (split c t) as [|h r]; [contradiction|].
  cbn [map]. rewrite (trim_space a h Ea). reflexivity.
Qed.

Lemma split_single (c : ascii) (s h : string) : split c s = [h] -> s = h.
Proof.
  intros H. rewrite <- (join_split c s), H. reflexivity.
Qed.

Lemma split_trimEnd_last (c : ascii) (s : string) :
  is_space c = false ->
  exists front l,
    split c s = (front ++ [l])%list /\ split c (trimEnd s) = (front ++ [trimEnd l])%list.
Proof.
  intros Hc. induction s as [|a t (front & l & Hs & Ht)]; [exists [], EmptyString; split; reflexivity|].
  rewrite trimEnd_cons, split_cons.
  destruct (truthy (trimEnd t)) eqn:Et.
  - rewrite split_cons, Hs, Ht. destruct (Ascii.eqb a c) eqn:E.
    + exists (EmptyString :: front), l. split; reflexivity.
    + destruct front as [|f fs].
      * exists [], (String a l). cbn [app]. split; [reflexivity|].
        apply split_single in Hs. subst l. rewrite trimEnd_cons, Et. reflexivity.
      * exists (String a f :: fs), l. split; reflexivity.
  - assert (E0 : trimEnd t = EmptyString) by (destruct (trimEnd t); [reflexivity|discriminate]).
    rewrite E0 in Ht. cbn [split] in Ht.
    assert (front = [] /\ trimEnd l = EmptyString) as [-> El].
    { destruct front as [|f [|f' fs]]; cbn in Ht; [|discriminate..].
      injection Ht as <-. split; reflexivity. }
    cbn [app] in Hs. rewrite Hs.
    destruct (is_space a) eqn:Ea.
    + destruct (Ascii.eqb a c) eqn:E; [apply Ascii.eqb_eq in E; congruence|].
      exists [], (String a l). split; [reflexivity|].
      rewrite trimEnd_cons, El, Ea. reflexivity.
    + rewrite split_cons. destruct (Ascii.eqb a c) eqn:E.
      * exists [EmptyString], l. rewrite El. split; reflexivity.
      * exists [], (String a l). split; [reflexivity|].
        rewrite trimEnd_cons, El, Ea. reflexivity.
Qed.

Lemma split_trimEnd (c : ascii) (s : string) :
  is_space c = false ->
  map trim (split c (trimEnd s)) = map trim (split c s).
Proof.
  intros Hc. destruct (split_trimEnd_last c s Hc) as (front & l & -> & ->).
  rewrite !map_app. cbn [map]. rewrite trim_trimEnd. reflexivity.
Qed.

Lemma split_trim (c : ascii) (s : string) :
  is_space c = false ->
  map trim (split c (trim s)) = map trim (split c s).
Proof.
  intros Hc. unfold trim at 2. rewrite split_trimEnd, split_trimStart by exact Hc. reflexivity.
Qed.

End StringFacts.

Section MoreStringFacts.
Import JsString.

Lemma append_nil_r (s : string) : s +:+ EmptyString = s.
Proof. induction s as [|a t IH]; [reflexivity|]. rewrite append_cons, IH. reflexivity. Qed.

Lemma append_assoc (s t u : string) : (s +:+ t) +:+ u = s +:+ t +:+ u.
Proof. induction s as [|a s IH]; [reflexivity|]. rewrite !append_cons, IH. reflexivity. Qed.

Lemma includes_app (c : ascii) (s t : string) :
  CookieText.includes c (s +:+ t) = CookieText.includes c s || CookieText.includes c t.
Proof.
  induction s as [|a s IH]; [reflexivity|].
  rewrite append_cons. cbn [CookieText.includes]. rewrite IH, orb_assoc. reflexivity.
Qed.

Lemma includes_trimStart (c : ascii) (s : string) :
  CookieText.includes c s = false -> CookieText.includes c (trimStart s) = false.
Proof.
  induction s as [|a t IH]; [reflexivity|]. intros H. cbn [trimStart].
  destruct (is_space a); [|exact H].
  cbn [CookieText.includes] in H. apply orb_false_iff in H as [_ H]. apply IH, H.
Qed.

Lemma trimStart_app (s t : string) :
  truthy (trimStart s) = true -> trimStart (s +:+ t) = trimStart s +:+ t.
Proof.
  induction s as [|a s IH]; [discriminate|].
  rewrite append_cons. cbn [trimStart]. destruct (is_space a); [exact IH|].
  intros _. rewrite append_cons. reflexivity.
Qed.

Lemma trimEnd_nonspace (a : ascii) (t : string) :
  is_space a = false -> trimEnd (String a t) = String a (trimEnd t).
Proof.
  intros Ha. rewrite trimEnd_cons, Ha. destruct (trimEnd t); reflexivity.
Qed.

Lemma trimEnd_app (s t : string) :
  truthy (trimEnd t) = true -> trimEnd (s +:+ t) = s +:+ trimEnd t.
Proof.
  intros Ht. induction s as [|a s IH]; [reflexivity|].
  rewrite !append_cons, trimEnd_cons, IH.
  destruct (s +:+ trimEnd t) eqn:E; [|reflexivity].
  destruct s; [|discriminate E]. rewrite append_nil in E. rewrite E in Ht. discriminate Ht.
Qed.

End MoreStringFacts.

(** ** Insertion-ordered maps: the keys *)

Section JsMapKeys.

Lemma JsMap_set_keys (k v : string) (m : JsMap.t) :
  map fst (JsMap.set k v m)
  = if bool_decide (k ∈ map fst m) then map fst m else (map fst m ++ [k])%list.
Proof.
  induction m as [|[k0 v0] m IH]; [reflexivity|].
  cbn [JsMap.set map fst]. destruct (String.eqb k0 k) eqn:E.
  - apply String.eqb_eq in E. subst k0.
    rewrite bool_decide_eq_true_2 by (apply elem_of_cons; left; reflexivity). reflexivity.
  - apply String.eqb_neq in E. cbn [map fst]. rewrite IH.
    destruct (bool_decide (k ∈ map fst m)) eqn:Em.
    + apply bool_decide_eq_true in Em.
      rewrite bool_decide_eq_true_2 by (apply elem_of_cons; right; exact Em). reflexivity.
    + apply bool_decide_eq_false in Em.
      rewrite bool_decide_eq_false_2; [reflexivity|].
      intros H. apply elem_of_cons in H as [H|H]; [congruence|contradiction].
Qed.

Lemma JsMap_set_fresh (k v : string) (m : JsMap.t) :
  k ∉ map fst m -> JsMap.set k v m = (m ++ [(k, v)])%list.
Proof.
  induction m as [|[k0 v0] m IH]; [reflexivity|].
  cbn [map fst]. intros H. apply not_elem_of_cons in H as [Hne H].
  cbn [JsMap.set]. destruct (String.eqb k0 k) eqn:E.
  - apply String.eqb_eq in E. congruence.
  - rewrite (IH H). reflexivity.
Qed.

Lemma JsMap_set_NoDup (k v : string) (m : JsMap.t) :
  NoDup (map fst m) -> NoDup (map fst (JsMap.set k v m)).
Proof.
  intros H. rewrite JsMap_set_keys. destruct (bool_decide (k ∈ map fst m)) eqn:E; [exact H|].
  apply bool_decide_eq_false in E. apply NoDup_app. split; [exact H|].
  split; [|apply NoDup_singleton].
  intros x Hx Hx'. apply list_elem_of_singleton in Hx'. subst x. contradiction.
Qed.

Lemma JsMap_set_prefix (k v : string) (m : JsMap.t) :
  exists added, map fst (JsMap.set k v m) = (map fst m ++ added)%list.
Proof.
  rewrite JsMap_set_keys. destruct (bool_decide _); [exists []|exists [k]];
    rewrite ?app_nil_r; reflexivity.
Qed.

Lemma JsMap_setAll_NoDup (src : list (string * string)) (dst : JsMap.t) :
  NoDup (map fst dst) -> NoDup (map fst (JsMap.setAll src dst)).
Proof.
  unfold JsMap.setAll. revert dst. induction src as [|[k v] src IH]; intros dst H; [exact H|].
  cbn [fold_left]. apply IH, JsMap_set_NoDup, H.
Qed.

Lemma JsMap_setAll_prefix (src : list (string * string)) (dst : JsMap.t) :
  exists added, map fst (JsMap.setAll src dst) = (map fst dst ++ added)%list.
Proof.
  unfold JsMap.setAll. revert dst. induction src as [|[k v] src IH]; intros dst.
  - exists []. rewrite app_nil_r. reflexivity.
  - cbn [fold_left fst snd]. destruct (IH (JsMap.set k v dst)) as (a2 & ->).
    destruct (JsMap_set_prefix k v dst) as (a1 & ->).
    exists (a1 ++ a2)%list. rewrite app_assoc. reflexivity.
Qed.

Lemma JsMap_setAll_keys (src : list (string * string)) (dst : JsMap.t) (k : string) :
  k ∈ map fst (JsMap.setAll src dst) <-> k ∈ map fst dst \/ k ∈ map fst src.
Proof.
  unfold JsMap.setAll. revert dst. induction src as [|[k0 v0] src IH]; intros dst.
  - cbn. rewrite elem_of_nil. tauto.
  - cbn [fold_left map fst snd]. rewrite IH, JsMap_set_keys, elem_of_cons.
    destruct (bool_decide (k0 ∈ map fst dst)) eqn:E.
    + apply bool_decide_eq_true in E. split; [tauto|].
      intros [H|[->|H]]; tauto.
    + rewrite elem_of_app, list_elem_of_singleton. tauto.
Qed.

(** Copying a map whose keys are distinct gives the same map. *)
Lemma JsMap_setAll_copy (m d : JsMap.t) :
  NoDup (map fst (d ++ m)) -> JsMap.setAll m d = (d ++ m)%list.
Proof.
  unfold JsMap.setAll. revert d. induction m as [|[k v] m IH]; intros d H.
  - rewrite app_nil_r. reflexivity.
  - cbn [fold_left fst snd]. rewrite JsMap_set_fresh.
    + rewrite IH; rewrite <- app_assoc; [reflexivity|exact H].
    + rewrite map_app in H. apply NoDup_app in H as (_ & H & _).
      intros Hk. apply (H k Hk). cbn. apply elem_of_cons. left. reflexivity.
Qed.

End JsMapKeys.

(** ** Cookies: what is stored and what is sent *)

Section CookieFacts.
Import JsString CookieJar CookieStore.

Lemma semicolon_no_space : is_space ";"%char = false.
Proof. reflexivity. Qed.

Lemma cookiePairs_parts (parts parts' : list string) :
  map trim parts = map trim parts' ->
  filter (fun nv : string * string => truthy (fst nv) = true)
    (map nameValue (filter (fun part => truthy part = true) (map trim parts)))
  = filter (fun nv : string * string => truthy (fst nv) = true)
      (map nameValue (filter (fun part => truthy part = true) (map trim parts'))).
Proof. intros ->. reflexivity. Qed.

Lemma cookiePairs_trim (s : string) : cookiePairs (trim s) = cookiePairs s.
Proof. unfold cookiePairs. apply cookiePairs_parts, split_trim, semicolon_no_space. Qed.

Lemma cookiePairs_space (s : string) : cookiePairs (String " " s) = cookiePairs s.
Proof.
  unfold cookiePairs. apply cookiePairs_parts. rewrite split_cons.
  change (Ascii.eqb " " ";") with false. cbv iota.
  pose proof (split_nonempty ";" s). destruct (split ";" s) as [|h r]; [contradiction|].
  cbn [map]. rewrite trim_space by reflexivity. reflexivity.
Qed.

Lemma cookiePairs_app (s t : string) :
  cookiePairs (s +:+ String ";" t) = (cookiePairs s ++ cookiePairs t)%list.
Proof.
  unfold cookiePairs. rewrite split_app, map_app, filter_app, map_app, filter_app. reflexivity.
Qed.

Lemma cookiePairs_empty : cookiePairs EmptyString = [].
Proof. reflexivity. Qed.

Lemma cookiePairs_join (parts : list string) :
  cookiePairs (join "; " parts) = List.concat (map cookiePairs parts).
Proof.
  induction parts as [|p [|q parts] IH]; [reflexivity| |].
  - cbn [map List.concat]. rewrite app_nil_r. reflexivity.
  - rewrite join_cons. change ("; " +:+ join "; " (q :: parts))
      with (String ";" (String " " (join "; " (q :: parts)))).
    rewrite cookiePairs_app, cookiePairs_space, IH. reflexivity.
Qed.

(** The bindings that a part of [joinCookies] contributes. *)
Lemma joined_parts (parts : list (option string)) :
  List.concat
    (map cookiePairs
       (omap id
          (filter (fun part => truthy_opt part = true)
             (map (fun part => trim <$> part) parts))))
  = List.concat (map (fun part => from_option cookiePairs [] part) parts).
Proof.
  induction parts as [|[p|] parts IH]; [reflexivity| |].
  - cbn [map fmap option_fmap option_map List.concat from_option].
    rewrite filter_cons. destruct (decide (truthy_opt (Some (trim p)) = true)) as [Ht|Ht].
    + cbn [omap list_omap id map List.concat]. rewrite cookiePairs_trim.
      f_equal. exact IH.
    + rewrite IH, <- (cookiePairs_trim p). cbn [truthy_opt] in Ht.
      destruct (trim p); [reflexivity|]. exfalso. apply Ht. reflexivity.
  - cbn [map fmap option_fmap option_map List.concat from_option app].
    rewrite filter_cons. destruct (decide (truthy_opt None = true)) as [Ht|Ht]; [discriminate|].
    exact IH.
Qed.

Lemma truthy_length (s : string) : (0 <? String.length s)%nat = truthy s.
Proof. destruct s; reflexivity. Qed.

Lemma storeOne_prefix (store : JsMap.t) (cookie : string) :
  (NoDup (map fst store) -> NoDup (map fst (storeOne store cookie)))
  /\ exists added, map fst (storeOne store cookie) = (map fst store ++ added)%list.
Proof.
  unfold storeOne.
  assert (Hsame : (NoDup (map fst store) -> NoDup (map fst store))
                  /\ exists added, map fst store = (map fst store ++ added)%list).
  { split; [tauto|]. exists []. rewrite app_nil_r. reflexivity. }
  repeat case_match; try exact Hsame.
  split; [apply JsMap_set_NoDup|apply JsMap_set_prefix].
Qed.

Lemma storeAll_prefix (cookies : list string) (store : JsMap.t) :
  (NoDup (map fst store) -> NoDup (map fst (fold_left storeOne cookies store)))
  /\ exists added, map fst (fold_left storeOne cookies store) = (map fst store ++ added)%list.
Proof.
  revert store. induction cookies as [|c cookies IH]; intros store.
  - split; [tauto|]. exists []. rewrite app_nil_r. reflexivity.
  - cbn [fold_left]. destruct (IH (storeOne store c)) as [Hn (a2 & Ha2)].
    destruct (storeOne_prefix store c) as [Hn1 (a1 & Ha1)].
    split; [intros H; apply Hn, Hn1, H|].
    exists (a1 ++ a2)%list. rewrite Ha2, Ha1, app_assoc. reflexivity.
Qed.

(** A cookie [name=value] followed by attributes: what [storeCookies]
    takes from it. *)
Lemma storeOne_plain (store : JsMap.t) (name value attrs : string) :
  CookieText.includes "=" name = false -> CookieText.includes ";" name = false ->
  CookieText.includes ";" value = false -> CookieText.attributes attrs = true ->
  truthy (trimStart name) = true ->
  storeOne store (name +:+ "=" +:+ value +:+ attrs)
  = JsMap.set (trimStart name) (trimEnd value) store.
Proof.
  intros Hn1 Hn2 Hv Ha Hname. unfold storeOne.
  assert (Hsplit : exists r, split ";" (name +:+ "=" +:+ value +:+ attrs)
                             = (name +:+ "=" +:+ value) :: r).
  { rewrite <- (append_assoc "=" value attrs), <- (append_assoc name).
    rewrite split_plain_app.
    - destruct attrs as [|c rest].
      + exists []. cbn [split]. rewrite append_nil_r. reflexivity.
      + cbn [CookieText.attributes] in Ha. rewrite split_cons, Ha.
        eexists. rewrite append_nil_r. reflexivity.
    - rewrite !includes_app, Hn2, Hv. reflexivity. }
  destruct Hsplit as (r & ->).
  assert (Hpair : truthy (name +:+ "=" +:+ value) = true).
  { destruct name; [discriminate Hname|reflexivity]. }
  rewrite Hpair.
  assert (Htrim : trim (name +:+ "=" +:+ value) = trimStart name +:+ "=" +:+ trimEnd value).
  { unfold trim. rewrite trimStart_app by exact Hname.
    change ("=" +:+ value) with (String "=" value).
    change ("=" +:+ trimEnd value) with (String "=" (trimEnd value)).
    rewrite trimEnd_app; rewrite trimEnd_nonspace by reflexivity; reflexivity. }
  rewrite Htrim. unfold nameValue.
  change ("=" +:+ trimEnd value) with (String "=" (trimEnd value)).
  rewrite split_app, split_plain by (apply includes_trimStart, Hn1).
  cbn [app fst snd]. rewrite Hname.
  change "="%string with (String "=" EmptyString). rewrite join_split. reflexivity.
Qed.

Lemma splitSetCookie_nonempty (s : string) : splitSetCookie s <> [].
Proof.
  destruct s as [|a t]; cbn [splitSetCookie]; [discriminate|].
  destruct (_ && _); [discriminate|]. destruct (splitSetCookie t); discriminate.
Qed.

Lemma splitSetCookie_plain (s : string) :
  CookieText.includes "," s = false -> splitSetCookie s = [s].
Proof.
  induction s as [|a t IH]; [reflexivity|]. cbn [CookieText.includes splitSetCookie].
  intros H. apply orb_false_iff in H as [Ha Ht]. rewrite Ha, (IH Ht). reflexivity.
Qed.

Lemma splitSetCookie_cons (a : ascii) (t : string) :
  splitSetCookie (String a t)
  = if Ascii.eqb a "," && lookahead t then EmptyString :: splitSetCookie t
    else match splitSetCookie t with
         | h :: r => String a h :: r
         | [] => [String a EmptyString]
         end.
Proof. reflexivity. Qed.

Lemma splitSetCookie_comma (s t : string) :
  CookieText.includes "," s = false ->
  splitSetCookie (s +:+ String "," t)
  = if lookahead t then s :: splitSetCookie t
    else match splitSetCookie t with
         | h :: r => (s +:+ String "," h) :: r
         | [] => [s +:+ ","]
         end.
Proof.
  intros Hs. induction s as [|a s IH].
  - rewrite append_nil, splitSetCookie_cons. cbn [Ascii.eqb Bool.eqb andb].
    destruct (lookahead t); [reflexivity|].
    destruct (splitSetCookie t); reflexivity.
  - cbn [CookieText.includes] in Hs. apply orb_false_iff in Hs as [Ha Hs].
    rewrite append_cons, splitSetCookie_cons, Ha, (IH Hs). cbn [andb].
    destruct (lookahead t); [reflexivity|].
    destruct (splitSetCookie t); reflexivity.
Qed.

Lemma splitSetCookie_unsplit (s : string) :
  CookieText.unsplit s = true -> splitSetCookie s = [s].
Proof.
  induction s as [|a t IH]; [reflexivity|]. cbn [CookieText.unsplit].
  intros H. apply andb_true_iff in H as [Ha Ht]. apply negb_true_iff in Ha.
  rewrite splitSetCookie_cons, Ha, (IH Ht). reflexivity.
Qed.

Lemma join_splitSetCookie (s : string) : join "," (splitSetCookie s) = s.
Proof.
  induction s as [|a t IH]; [reflexivity|].
  pose proof (splitSetCookie_nonempty t) as Hne.
  rewrite splitSetCookie_cons. destruct (Ascii.eqb a "," && lookahead t) eqn:E.
  - apply andb_true_iff in E as [E _]. apply Ascii.eqb_eq in E. subst a.
    destruct (splitSetCookie t) as [|h r]; [contradiction|].
    rewrite join_cons, append_nil, IH. reflexivity.
  - destruct (splitSetCookie t) as [|h [|h' r]]; [contradiction| |].
    + cbn in IH |- *. rewrite IH. reflexivity.
    + rewrite join_cons in IH |- *. rewrite append_cons, IH. reflexivity.
Qed.

End CookieFacts.

(** X7.  No cookie name occurs twice in the [Cookie] header that
    [buildCookieHeader] builds; the names are those stored for the host and
    those the override binds; and the stored cookies come first, in the
    order in which they were stored. *)
Theorem buildCookieHeader_names_unique (stored : JsMap.t) (override : option string) :
  let merged := CookieJar.mergedCookies stored override in
  NoDup (map fst merged)
  /\ (forall name,
        name ∈ map fst merged
        <-> name ∈ map fst stored
            \/ exists o, override = Some o /\ name ∈ map fst (CookieJar.cookiePairs o))
  /\ (NoDup (map fst stored) ->
      exists added, map fst merged = (map fst stored ++ added)%list).
Proof.
  cbv zeta. unfold CookieJar.mergedCookies.
  assert (Hcopy : NoDup (map fst (JsMap.setAll stored JsMap.empty)))
    by (apply JsMap_setAll_NoDup; constructor).
  assert (Hkeys : forall name,
            name ∈ map fst (JsMap.setAll stored JsMap.empty) <-> name ∈ map fst stored).
  { intros name. rewrite JsMap_setAll_keys. cbn. rewrite elem_of_nil. tauto. }
  assert (Hsame : NoDup (map fst stored) -> JsMap.setAll stored JsMap.empty = stored).
  { intros H. apply (JsMap_setAll_copy stored []). exact H. }
  destruct override as [o|]; [destruct (JsString.truthy o) eqn:Eo|].
  - unfold CookieJar.append. split; [apply JsMap_setAll_NoDup, Hcopy|]. split.
    + intros name. rewrite JsMap_setAll_keys, Hkeys. split; [|intros [H|(o' & [= <-] & H)]; tauto].
      intros [H|H]; [left; exact H|right; exists o; split; [reflexivity|exact H]].
    + intros H. rewrite (Hsame H). apply JsMap_setAll_prefix.
  - split; [exact Hcopy|]. split.
    + intros name. rewrite Hkeys. split; [tauto|]. intros [H|(o' & [= <-] & H)]; [exact H|].
      destruct o; [|discriminate Eo]. cbn in H. apply elem_of_nil in H. contradiction.
    + intros H. rewrite (Hsame H). exists []. rewrite app_nil_r. reflexivity.
  - split; [exact Hcopy|]. split.
    + intros name. rewrite Hkeys. split; [tauto|]. intros [H|(o' & [=] & _)]. exact H.
    + intros H. rewrite (Hsame H). exists []. rewrite app_nil_r. reflexivity.
Qed.

Lemma buildCookieHeader_names_witness :
  exists added,
    map fst (CookieJar.mergedCookies [("a", "1"); ("b", "2")] (Some "b=3; c=4; c=5"))
    = (map fst [("a", "1"); ("b", "2")] ++ added)%list.
Proof.
  pose proof (buildCookieHeader_names_unique [("a", "1"); ("b", "2")]
                (Some "b=3; c=4; c=5")) as H.
  cbv zeta in H. destruct H as (_ & _ & H). apply H.
  apply (bool_decide_unpack _). vm_compute. exact I.
Defined.

(** X8.  [storeCookies] changes the cookies of the response's host only;
    there it drops no cookie and keeps the order of the names, new names
    going to the end, and no name is stored twice. *)
Theorem storeCookies_keeps_stored_cookies
    (host : string) (rawSetCookie : CookieStore.RawSetCookie) (fallback : option string)
    (jar : CookieJar.Jar) :
  let jar' := CookieStore.storeCookies host rawSetCookie fallback jar in
  let names (j : CookieJar.Jar) := map fst (default JsMap.empty (j !! host)) in
  (forall other, other <> host -> jar' !! other = jar !! other)
  /\ (exists added, names jar' = (names jar ++ added)%list)
  /\ (NoDup (names jar) -> NoDup (names jar')).
Proof.
  cbv zeta. unfold CookieStore.storeCookies.
  destruct (CookieStore.collect rawSetCookie fallback) as [|c cookies] eqn:E.
  - split; [reflexivity|]. split; [exists []; rewrite app_nil_r; reflexivity|tauto].
  - rewrite lookup_insert_eq. cbn [default from_option id].
    destruct (storeAll_prefix (c :: cookies) (default JsMap.empty (jar !! host))) as [Hn Ha].
    split; [intros other Hne; apply lookup_insert_ne; congruence|].
    split; [exact Ha|exact Hn].
Qed.

Lemma storeCookies_keeps_witness :
  Examples.storedJar !! "other.test"
  = CookieStore.storeCookies "site.test" (CookieStore.RawArray ["b=9; Path=/"; "c=3"]) None
      Examples.storedJar !! "other.test"
  /\ NoDup (map fst (default JsMap.empty
                       (CookieStore.storeCookies "site.test"
                          (CookieStore.RawArray ["b=9; Path=/"; "c=3"]) None
                          Examples.storedJar !! "site.test"))).
Proof.
  pose proof (storeCookies_keeps_stored_cookies "site.test"
                (CookieStore.RawArray ["b=9; Path=/"; "c=3"]) None Examples.storedJar) as H.
  cbv zeta in H. destruct H as (Hother & _ & Hnodup). split.
  - symmetry. apply Hother. discriminate.
  - apply Hnodup. apply (bool_decide_unpack _). vm_compute. exact I.
Defined.

(** X9.  A cookie that a response sets comes back in the next request.  The
    response carries one [Set-Cookie] header, [name=value] followed by
    attributes, the name without [=] and [;] and the value without [;] (it
    may hold [=]); [getSetCookie()] gives it as an array or a string, or
    does not exist, and [headers.get("set-cookie")] gives it too, as
    [fetch] does, or gives nothing.  When the header is read by
    [headers.get], the regular expression of [storeCookies] must not split
    it.  Then [storeCookies] binds the name, without the white space before
    it, to the value, without the white space after it; and when nothing
    else is stored for the host, the next [Cookie] header is that
    binding. *)
Theorem stored_cookie_is_sent_back
    (host name value attrs : string) (rawSetCookie : CookieStore.RawSetCookie)
    (fallback : option string) (jar : CookieJar.Jar) :
  CookieText.includes "=" name = false -> CookieText.includes ";" name = false ->
  CookieText.includes ";" value = false -> CookieText.attributes attrs = true ->
  JsString.truthy (JsString.trimStart name) = true ->
  let cookie := name +:+ "=" +:+ value +:+ attrs in
  (rawSetCookie = CookieStore.RawArray [cookie]
   \/ rawSetCookie = CookieStore.RawString cookie
   \/ (rawSetCookie = CookieStore.RawUndefined /\ fallback = Some cookie)) ->
  (fallback = None \/ (fallback = Some cookie /\ CookieText.unsplit cookie = true)) ->
  let jar' := CookieStore.storeCookies host rawSetCookie fallback jar in
  JsMap.get (JsString.trimStart name) (default JsMap.empty (jar' !! host))
  = Some (JsString.trimEnd value)
  /\ (jar !! host = None ->
      CookieJar.buildCookieHeader jar' host None
      = Some (JsString.trimStart name +:+ "=" +:+ JsString.trimEnd value)).
Proof.
  intros Hn1 Hn2 Hv Ha Hname. cbv zeta.
  set (cookie := name +:+ "=" +:+ value +:+ attrs).
  intros Hraw Hfb.
  assert (Hone : forall store,
            CookieStore.storeOne store cookie
            = JsMap.set (JsString.trimStart name) (JsString.trimEnd value) store)
    by (intros store; apply storeOne_plain; assumption).
  assert (Htruthy : JsString.truthy cookie = true)
    by (unfold cookie; destruct name; [discriminate Hname|reflexivity]).
  assert (Hcollect : CookieStore.collect rawSetCookie fallback = [cookie]
                     \/ CookieStore.collect rawSetCookie fallback = [cookie; cookie]).
  { unfold CookieStore.collect.
    destruct Hfb as [->|[-> Hun]].
    - destruct Hraw as [->|[->|[_ [=]]]]; left; reflexivity.
    - rewrite Htruthy, (splitSetCookie_unsplit _ Hun).
      destruct Hraw as [->|[->|[-> _]]]; [right|right|left]; reflexivity. }
  unfold CookieStore.storeCookies.
  destruct Hcollect as [-> | ->]; rewrite lookup_insert_eq; cbn [default from_option id fold_left];
    rewrite !Hone; (split; [rewrite JsMap_get_set, String.eqb_refl; reflexivity|]);
    intros Hnone; rewrite buildCookieHeader_merged, lookup_insert_eq, Hnone;
    cbn [default from_option id JsMap.empty JsMap.set]; rewrite ?String.eqb_refl; reflexivity.
Qed.

(** A response as [fetch] presents it: the header by [getSetCookie()] and by
    [headers.get("set-cookie")], with a comma in the date of [Expires]. *)
Lemma stored_cookie_witness :
  JsMap.get "token"
    (default JsMap.empty
       (CookieStore.storeCookies "site.test"
          (CookieStore.RawArray
             [" token=YWJj==  ; Expires=Wed, 21 Oct 2015 07:28:00 GMT; Path=/"])
          (Some " token=YWJj==  ; Expires=Wed, 21 Oct 2015 07:28:00 GMT; Path=/")
          ∅ !! "site.test"))
  = Some "YWJj=="
  /\ ((∅ : CookieJar.Jar) !! "site.test" = None ->
      CookieJar.buildCookieHeader
        (CookieStore.storeCookies "site.test"
           (CookieStore.RawArray
              [" token=YWJj==  ; Expires=Wed, 21 Oct 2015 07:28:00 GMT; Path=/"])
           (Some " token=YWJj==  ; Expires=Wed, 21 Oct 2015 07:28:00 GMT; Path=/") ∅)
        "site.test" None
      = Some "token=YWJj==").
Proof.
  apply (stored_cookie_is_sent_back "site.test" " token" "YWJj==  "
           "; Expires=Wed, 21 Oct 2015 07:28:00 GMT; Path=/"
           (CookieStore.RawArray
              [" token=YWJj==  ; Expires=Wed, 21 Oct 2015 07:28:00 GMT; Path=/"])
           (Some " token=YWJj==  ; Expires=Wed, 21 Oct 2015 07:28:00 GMT; Path=/") ∅).
  - reflexivity.
  - reflexivity.
  - reflexivity.
  - reflexivity.
  - reflexivity.
  - left. reflexivity.
  - right. split; reflexivity.
Defined.

(** Where the regular expression does split the header, the round trip
    fails: of the cookie [a=x,y=z], read by both [getSetCookie()] and
    [headers.get("set-cookie")], the jar keeps [a=x] and [y=z]. *)
Lemma stored_cookie_with_comma_is_cut :
  CookieText.unsplit "a=x,y=z" = false
  /\ CookieJar.buildCookieHeader
       (CookieStore.storeCookies "site.test" (CookieStore.RawArray ["a=x,y=z"])
          (Some "a=x,y=z") ∅)
       "site.test" None
     = Some "a=x; y=z".
Proof. split; vm_compute; reflexivity. Qed.

(** X10.  The split of a combined [Set-Cookie] header loses no character:
    the parts joined with [,] are the header.  And a comma after a text [s]
    without commas separates two cookies exactly when what follows it has an
    [=] after one character at least and before any [;]; otherwise, as in
    the date of [Expires], the comma stays inside the cookie. *)
Theorem splitSetCookie_splits_before_next_cookie (s t : string) :
  CookieText.includes "," s = false ->
  JsString.join "," (CookieStore.splitSetCookie (s +:+ "," +:+ t)) = s +:+ "," +:+ t
  /\ CookieStore.splitSetCookie (s +:+ "," +:+ t)
     = if CookieStore.lookahead t then s :: CookieStore.splitSetCookie t
       else match CookieStore.splitSetCookie t with
            | h :: r => (s +:+ "," +:+ h) :: r
            | [] => [s +:+ ","]
            end.
Proof.
  intros Hs. split; [apply join_splitSetCookie|]. apply splitSetCookie_comma, Hs.
Qed.

Lemma splitSetCookie_witness :
  JsString.join ","
    (CookieStore.splitSetCookie ("a=1; Expires=Wed" +:+ "," +:+ " 21 Oct 2015 07:28:00 GMT; Path=/, b=2"))
  = "a=1; Expires=Wed" +:+ "," +:+ " 21 Oct 2015 07:28:00 GMT; Path=/, b=2"
  /\ CookieStore.splitSetCookie
       ("a=1; Expires=Wed" +:+ "," +:+ " 21 Oct 2015 07:28:00 GMT; Path=/, b=2")
     = ["a=1; Expires=Wed, 21 Oct 2015 07:28:00 GMT; Path=/"; " b=2"].
Proof.
  apply (splitSetCookie_splits_before_next_cookie "a=1; Expires=Wed"
           " 21 Oct 2015 07:28:00 GMT; Path=/, b=2").
  reflexivity.
Defined.

(** What [joinCookies] passes on binds what its parts bind, part after
    part. *)
Lemma mergedCookies_joinCookies (parts : list (option string)) (stored : JsMap.t) :
  CookieJar.mergedCookies stored (HostCookies.joinCookies parts)
  = JsMap.setAll
      (List.concat (map (fun part => from_option CookieJar.cookiePairs [] part) parts))
      (JsMap.setAll stored JsMap.empty).
Proof.
  unfold HostCookies.joinCookies, CookieJar.mergedCookies. cbv zeta.
  rewrite truthy_length, <- joined_parts, <- cookiePairs_join.
  destruct (JsString.truthy (JsString.join "; " _)) eqn:E.
  - rewrite E. reflexivity.
  - destruct (JsString.join "; " _); [reflexivity|discriminate E].
Qed.

(** X11.  Which cookie wins.  With the cookies that [getFinalUrl] and
    [wajikFetch] pass to [fetchResponse],
    [joinCookies(hostConfig?.cookies, headerCookie)], a name has in the
    [Cookie] header the value of the caller's [Cookie] header, else that of
    the host configuration, else the stored one. *)
Theorem joinCookies_header_cookie_wins
    (hostCookies headerCookie : option string) (stored : JsMap.t) (name : string) :
  JsMap.get name
    (CookieJar.mergedCookies stored (HostCookies.joinCookies [hostCookies; headerCookie]))
  = match JsMap.get name
            (JsMap.setAll (from_option CookieJar.cookiePairs [] headerCookie) JsMap.empty)
    with
    | Some v => Some v
    | None =>
        match JsMap.get name
                (JsMap.setAll (from_option CookieJar.cookiePairs [] hostCookies) JsMap.empty)
        with
        | Some v => Some v
        | None => JsMap.get name (JsMap.setAll stored JsMap.empty)
        end
    end.
Proof.
  rewrite mergedCookies_joinCookies.
  cbn [map List.concat]. rewrite app_nil_r.
  unfold JsMap.setAll at 1. rewrite fold_left_app.
  fold (JsMap.setAll (from_option CookieJar.cookiePairs [] hostCookies)
          (JsMap.setAll stored JsMap.empty)).
  match goal with |- JsMap.get name (fold_left ?f ?src ?dst) = _ =>
    change (fold_left f src dst) with (JsMap.setAll src dst) end.
  rewrite JsMap_get_setAll.
  rewrite (JsMap_get_setAll name (from_option CookieJar.cookiePairs [] hostCookies)).
  reflexivity.
Qed.

(** ** The fetcher: calls without a signal *)

Section FetcherUnsignalled.
Import World Http Errors Fetcher.
Context (env : Env) (req : FetchRequestOptions) (u : URL).

Local Abbreviation siteKey := (default (host u) (site req)).
Local Abbreviation budget := (default 3%Z (maxRetries req)).
Local Abbreviation limitMs := (Qmax 0 (default 25000%Q (timeoutMs req))).

Hypothesis Hrps : (0 < default (1 # 2) (rps req))%Q.
Hypothesis Hburst : (1 <= default 2 (burst req))%Q.
Hypothesis Hsig : signal req = None.

(** One turn of the loop of a call without a signal: one request is sent;
    the upstream's reply arrives, or the timer of [timeoutMs] milliseconds
    cancels the request. *)
Lemma attemptPass_unsignalled (limitFuel : nat) (attempt : Z) (w : World.t) :
  (2 <= limitFuel)%nat -> RateLimiter.bucketOk (host u) w ->
  exists w1 rec w3,
    (World.now w <= World.now w1)%Q
    /\ fr_attempt rec = attempt /\ fr_at rec = World.now w1
    /\ fetchLog w3 = rec :: fetchLog w
    /\ metrics w3 = metrics w /\ cookieJar w3 = cookieJar w
    /\ RateLimiter.bucketOk (host u) w3
    /\ (let up := upstream env (length (fetchLog w)) in
        ((ofN (latency up) < limitMs)%Q
         /\ fr_result rec = reply up /\ World.now w3 = (World.now w1 + ofN (latency up))%Q)
        \/ ((limitMs <= ofN (latency up))%Q
            /\ fr_result rec = inr timedOut /\ World.now w3 = (World.now w1 + limitMs)%Q))
    /\ attemptPass limitFuel env req u attempt w
       = Some match fr_result rec with
              | inl response =>
                  onResponse env (url req) siteKey (host u) budget attempt response w3
              | inr e =>
                  onError env (url req) siteKey budget attempt (ForeignError e) w3
              end.
Proof.
  intros Hf Hok.
  destruct (limit_total env req u Hrps Hburst limitFuel w Hf Hok) as (w1 & Hl & Hok1).
  destruct (attemptPass_some env req u limitFuel attempt w w1 Hl) as (step & Hstep).
  rewrite Hstep.
  apply attemptPass_inv in Hstep as (w1' & Hl' & Hn1 & _ & _ & _ & Hcase).
  assert (w1' = w1) by congruence. subst w1'.
  destruct Hcase as [(sg & Hsg & _)
                    |(_ & rec & w3 & Hatt & Hat & Hlog & Hn3 & Hb3 & Hm3 & Hc3 & Hres & Hstep)];
    [congruence|].
  exists w1, rec, w3. cbv zeta in Hres |- *. destruct Hres as [Hres Hdone].
  rewrite Hsig in Hres, Hdone. cbn [cancellation fst snd] in Hres, Hdone.
  do 6 (split; [assumption|]).
  split; [exact (bucketOk_later (host u) w1 w3 Hok1 Hb3 Hn3)|].
  split; [|congruence].
  destruct (Qlt_le_dec _ _) as [Hlt|Hge] in Hres, Hdone.
  - left. split; [lra|]. split; assumption.
  - right. split; [lra|]. split; assumption.
Qed.

Lemma pow2_next (a : Z) : 0 <= a -> (inject_Z (2 ^ (a + 1)) == 2 * inject_Z (2 ^ a))%Q.
Proof.
  intros Ha. rewrite Z.pow_add_r by lia. change (2 ^ 1) with 2.
  rewrite Z.mul_comm, inject_Z_mult. reflexivity.
Qed.


Lemma onError_timedOut_retry (url siteKey0 : string) (m attempt : Z) (w : World.t) :
  attempt <= m ->
  onError env url siteKey0 m attempt (ForeignError timedOut) w
  = Continue (backoff env 300 150 attempt w).
Proof.
  intros Ha. unfold onError. cbn [Errors.name timedOut f_name].
  rewrite bool_decide_eq_true_2 by reflexivity.
  apply Z.leb_le in Ha. rewrite Ha. reflexivity.
Qed.

Lemma onError_spent (url siteKey0 : string) (m attempt : Z) (e : Foreign) (w : World.t) :
  m < attempt ->
  onError env url siteKey0 m attempt (ForeignError e) w
  = Throw (ScraperError (messageOf (ForeignError e)) (f_status e) (Some url)
             (Some siteKey0) (Some (ForeignError e)))
          (ScrapeMetrics.recordScrapeFailure siteKey0 (f_status e)
             (messageOf (ForeignError e)) (Some url) w).
Proof.
  intros Ha. unfold onError. apply Z.leb_gt in Ha. rewrite Ha, !andb_false_r. reflexivity.
Qed.

Lemma count_succ (n : nat) (x : Q) :
  (inject_Z (Z.of_nat (S n)) * x == inject_Z (Z.of_nat n) * x + x)%Q.
Proof.
  rewrite Nat2Z.inj_succ. unfold Z.succ. rewrite inject_Z_plus. ring.
Qed.

(** Against an upstream that never answers within the time limit, each
    request is cancelled by the timer, the loop uses its whole budget with
    the backoff of 300 ms doubled each time, and the failure is recorded
    once. *)
Lemma attempts_timed_out (limitFuel n : nat) :
  (2 <= limitFuel)%nat ->
  Upstreams.silent env (default 25000%Q (timeoutMs req)) ->
  forall (fuel : nat) (attempt : Z) (w : World.t),
    0 <= attempt -> Z.of_nat n = Z.max 0 (budget - attempt) -> (S n <= fuel)%nat ->
    RateLimiter.bucketOk (host u) w ->
    exists new w',
      attempts fuel limitFuel env req u attempt w
      = Some (Threw (ScraperError "Request timed out" None (Some (url req)) (Some siteKey)
                       (Some (ForeignError timedOut))), w')
      /\ fetchLog w' = (new ++ fetchLog w)%list /\ length new = S n
      /\ Forall (fun rec => fr_result rec = inr timedOut) new
      /\ ScrapeMetrics.failures siteKey w' = S (ScrapeMetrics.failures siteKey w)
      /\ (World.now w + inject_Z (Z.of_nat (S n)) * limitMs
          + 300 * (inject_Z (2 ^ (attempt + Z.of_nat n)) - inject_Z (2 ^ attempt))
          <= World.now w')%Q.
Proof.
  intros Hlf Hup. induction n as [|n IH]; intros fuel attempt w Ha Hn Hfuel Hok.
  - destruct fuel as [|fuel]; [lia|]. cbn [attempts].
    destruct (attemptPass_unsignalled limitFuel (attempt + 1) w Hlf Hok)
      as (w1 & rec & w3 & Hn1 & _ & _ & Hlog & Hm3 & _ & _ & Hres & ->).
    cbv zeta in Hres. specialize (Hup (length (fetchLog w))).
    destruct Hres as [(Hlt & _)|(_ & Hres & Hdone)]; [lra|].
    rewrite Hres, onError_spent by lia.
    eexists [rec], _. split; [reflexivity|]. wcbn.
    split; [exact Hlog|]. split; [reflexivity|].
    split; [constructor; [exact Hres|constructor]|].
    split; [rewrite failures_recorded, (failures_same_metrics siteKey w w3 Hm3); reflexivity|].
    rewrite Hdone, Z.add_0_r. change (inject_Z (Z.of_nat 1)) with 1%Q.
    set (P := inject_Z (2 ^ attempt)). lra.
  - destruct fuel as [|fuel]; [lia|]. cbn [attempts].
    destruct (attemptPass_unsignalled limitFuel (attempt + 1) w Hlf Hok)
      as (w1 & rec & w3 & Hn1 & _ & _ & Hlog & Hm3 & _ & Hok3 & Hres & ->).
    cbv zeta in Hres. pose proof (Hup (length (fetchLog w))) as Hlate.
    destruct Hres as [(Hlt & _)|(_ & Hres & Hdone)]; [lra|].
    rewrite Hres, onError_timedOut_retry by lia.
    destruct (backoff_Quiet env 300 150 (attempt + 1) w3) as [Hq1 Hq2 Hq3 _ Hq5].
    pose proof (backoff_now env 300 150 (attempt + 1) w3 ltac:(lra)) as Hwait.
    replace (attempt + 1 - 1) with attempt in Hwait by lia.
    destruct (IH fuel (attempt + 1) (backoff env 300 150 (attempt + 1) w3)
                ltac:(lia) ltac:(lia) ltac:(lia) (bucketOk_later _ _ _ Hok3 Hq2 Hq1))
      as (new & w' & Hrun & Hlog' & Hlen & Hall & Hcount & Htime).
    exists (new ++ [rec])%list, w'. split; [exact Hrun|].
    split; [rewrite Hlog', Hq5, Hlog, <- app_assoc; reflexivity|].
    split; [rewrite length_app, Hlen; cbn; lia|].
    split; [apply Forall_app; split; [exact Hall|constructor; [exact Hres|constructor]]|].
    split.
    { rewrite Hcount, (failures_same_metrics siteKey w3 _ Hq3),
        (failures_same_metrics siteKey w w3 Hm3). reflexivity. }
    replace (attempt + 1 + Z.of_nat n) with (attempt + Z.of_nat (S n)) in Htime by lia.
    pose proof (pow2_next attempt Ha) as Hp.
    pose proof (count_succ (S n) limitMs) as Hc.
    rewrite Hdone in Hwait.
    set (L := limitMs) in *.
    set (X := (inject_Z (Z.of_nat (S (S n))) * L)%Q) in *.
    set (Y := (inject_Z (Z.of_nat (S n)) * L)%Q) in *.
    set (P := inject_Z (2 ^ attempt)) in *.
    set (P1 := inject_Z (2 ^ (attempt + 1))) in *.
    set (PN := inject_Z (2 ^ (attempt + Z.of_nat (S n)))) in *.
    lra.
Qed.


(** After [k] answers with a status of the retry set, the budget not
    spent, an ok response is returned; no failure is recorded on the
    way. *)
Lemma attempts_recovers (limitFuel k : nat) (r : Response) :
  (2 <= limitFuel)%nat -> ok r = true ->
  forall (fuel : nat) (attempt : Z) (w : World.t),
    0 <= attempt -> attempt + Z.of_nat k <= budget -> (S k <= fuel)%nat ->
    RateLimiter.bucketOk (host u) w ->
    (forall j, (j < k)%nat ->
       Upstreams.answersAt env (default 25000%Q (timeoutMs req)) (length (fetchLog w) + j)
         (fun r' => isRetryStatus (Http.status r') = true)) ->
    Upstreams.answersAt env (default 25000%Q (timeoutMs req)) (length (fetchLog w) + k)
      (fun r' => r' = r) ->
    exists new w',
      attempts fuel limitFuel env req u attempt w = Some (Returned r, w')
      /\ fetchLog w' = (new ++ fetchLog w)%list /\ length new = S k
      /\ metrics w' = metrics w
      /\ cookieJar w'
         = CookieStore.storeCookies (host u) (getSetCookie r) (setCookieHeader r) (cookieJar w)
      /\ (World.now w + 500 * (inject_Z (2 ^ (attempt + Z.of_nat k)) - inject_Z (2 ^ attempt))
          <= World.now w')%Q.
Proof.
  intros Hlf Hokr. induction k as [|k IH]; intros fuel attempt w Ha Hb Hfuel Hok Hretry Hlast.
  - destruct fuel as [|fuel]; [lia|]. cbn [attempts].
    destruct (attemptPass_unsignalled limitFuel (attempt + 1) w Hlf Hok)
      as (w1 & rec & w3 & Hn1 & _ & _ & Hlog & Hm3 & Hc3 & _ & Hres & ->).
    cbv zeta in Hres. destruct Hlast as (r' & Hreply & -> & Hlat).
    rewrite Nat.add_0_r in Hreply, Hlat.
    destruct Hres as [(_ & Hres & Hdone)|(Hge & _)]; [|lra].
    rewrite Hres, Hreply, onResponse_ok by exact Hokr.
    eexists [rec], _. split; [reflexivity|]. wcbn.
    split; [exact Hlog|]. split; [reflexivity|]. split; [exact Hm3|].
    split; [rewrite Hc3; reflexivity|].
    rewrite Hdone, Z.add_0_r.
    pose proof (ofN_nonneg (latency (upstream env (length (fetchLog w))))).
    set (P := inject_Z (2 ^ attempt)). lra.
  - destruct fuel as [|fuel]; [lia|]. cbn [attempts].
    destruct (attemptPass_unsignalled limitFuel (attempt + 1) w Hlf Hok)
      as (w1 & rec & w3 & Hn1 & _ & _ & Hlog & Hm3 & Hc3 & Hok3 & Hres & ->).
    cbv zeta in Hres.
    destruct (Hretry 0%nat ltac:(lia)) as (r0 & Hreply & Hr0 & Hlat).
    rewrite Nat.add_0_r in Hreply, Hlat.
    destruct Hres as [(_ & Hres & Hdone)|(Hge & _)]; [|lra].
    rewrite Hres, Hreply, onResponse_retry by (first [exact Hr0|lia]).
    destruct (backoff_Quiet env 500 250 (attempt + 1) w3) as [Hq1 Hq2 Hq3 Hq4 Hq5].
    pose proof (backoff_now env 500 250 (attempt + 1) w3 ltac:(lra)) as Hwait.
    replace (attempt + 1 - 1) with attempt in Hwait by lia.
    assert (Hlen4 : length (fetchLog (backoff env 500 250 (attempt + 1) w3))
                    = S (length (fetchLog w))) by (rewrite Hq5, Hlog; reflexivity).
    destruct (IH fuel (attempt + 1) (backoff env 500 250 (attempt + 1) w3)
                ltac:(lia) ltac:(lia) ltac:(lia) (bucketOk_later _ _ _ Hok3 Hq2 Hq1))
      as (new & w' & Hrun & Hlog' & Hlen & Hm' & Hc' & Htime).
    { intros j Hj. rewrite Hlen4.
      replace (S (length (fetchLog w)) + j)%nat with (length (fetchLog w) + S j)%nat by lia.
      apply Hretry. lia. }
    { rewrite Hlen4.
      replace (S (length (fetchLog w)) + k)%nat with (length (fetchLog w) + S k)%nat by lia.
      exact Hlast. }
    exists (new ++ [rec])%list, w'. split; [exact Hrun|].
    split; [rewrite Hlog', Hq5, Hlog, <- app_assoc; reflexivity|].
    split; [rewrite length_app, Hlen; cbn; lia|].
    split; [congruence|]. split; [rewrite Hc', Hq4, Hc3; reflexivity|].
    replace (attempt + 1 + Z.of_nat k) with (attempt + Z.of_nat (S k)) in Htime by lia.
    pose proof (pow2_next attempt Ha) as Hp.
    pose proof (ofN_nonneg (latency (upstream env (length (fetchLog w))))).
    rewrite Hdone in Hwait.
    set (P := inject_Z (2 ^ attempt)) in *.
    set (P1 := inject_Z (2 ^ (attempt + 1))) in *.
    set (PN := inject_Z (2 ^ (attempt + Z.of_nat (S k)))) in *.
    lra.
Qed.

(** A failed connection whose error is no [AbortError] and carries no
    status of the retry set ends the call in the turn in which it
    occurs. *)
Lemma attempts_connection_failure (limitFuel fuel : nat) (attempt : Z) (w : World.t)
    (e : Foreign) :
  (2 <= limitFuel)%nat -> RateLimiter.bucketOk (host u) w ->
  Upstreams.failsAt env (default 25000%Q (timeoutMs req)) (length (fetchLog w)) e ->
  f_name e <> Some "AbortError" -> isRetryStatus (default 0 (f_status e)) = false ->
  exists rec w',
    attempts (S fuel) limitFuel env req u attempt w
    = Some (Threw (ScraperError (messageOf (ForeignError e)) (f_status e) (Some (url req))
                     (Some siteKey) (Some (ForeignError e))), w')
    /\ fetchLog w' = rec :: fetchLog w /\ fr_result rec = inr e
    /\ ScrapeMetrics.failures siteKey w' = S (ScrapeMetrics.failures siteKey w).
Proof.
  intros Hlf Hok [Hreply Hlat] Hname Hstatus. cbn [attempts].
  destruct (attemptPass_unsignalled limitFuel (attempt + 1) w Hlf Hok)
    as (w1 & rec & w3 & Hn1 & _ & _ & Hlog & Hm3 & Hc3 & _ & Hres & ->).
  cbv zeta in Hres. destruct Hres as [(_ & Hres & Hdone)|(Hge & _)]; [|lra].
  rewrite Hres, Hreply. unfold onError. cbn [Errors.name Errors.status isFetchFailedError].
  rewrite bool_decide_eq_false_2 by exact Hname. rewrite Hstatus.
  cbn [andb orb]. rewrite andb_false_r.
  eexists rec, _. split; [reflexivity|]. wcbn.
  split; [exact Hlog|]. split; [congruence|].
  rewrite failures_recorded, (failures_same_metrics siteKey w w3 Hm3). reflexivity.
Qed.

End FetcherUnsignalled.

(** ** The fetcher: bounds that hold for every call *)

Section FetcherBounds.
Import World Http Errors Fetcher.
Context (env : Env) (req : FetchRequestOptions) (u : URL).

Local Abbreviation siteKey := (default (host u) (site req)).
Local Abbreviation budget := (default 3%Z (maxRetries req)).

(** A call sends [maxRetries + 1] requests at most, the clock does not go
    back, and what the loop throws is a [ScraperError] with the URL and the
    site. *)
Lemma attempts_bounded (fuel limitFuel : nat) (attempt : Z) (w : World.t)
    (o : Outcome) (w' : World.t) :
  attempts fuel limitFuel env req u attempt w = Some (o, w') ->
  (exists new,
     fetchLog w' = (new ++ fetchLog w)%list
     /\ Z.of_nat (length new) <= Z.max 0 (budget - attempt) + 1)
  /\ (World.now w <= World.now w')%Q
  /\ forall e, o = Threw e ->
       exists message status cause,
         e = ScraperError message status (Some (url req)) (Some siteKey) cause.
Proof.
  revert attempt w. induction fuel as [|fuel IH]; intros attempt w Hrun; [discriminate|].
  cbn [attempts] in Hrun.
  destruct (attemptPass limitFuel env req u (attempt + 1) w) as [step|] eqn:Epass;
    [|discriminate].
  apply attemptPass_inv in Epass as (w1 & _ & Hn1 & _ & _ & Hf1 & Hcase).
  destruct Hcase as [(sg' & _ & _ & ->)
                    |(_ & rec & w3 & _ & _ & Hlog & Hn3 & _ & _ & _ & _ & ->)].
  - simplify_eq. split; [exists []; split; [exact Hf1|cbn; lia]|].
    split; [exact Hn1|]. intros e [= <-]. eexists _, _, _. reflexivity.
  - assert (Hcont : forall w4, fetchLog w4 = fetchLog w3 -> (World.now w3 <= World.now w4)%Q ->
              attempt + 1 <= budget ->
              attempts fuel limitFuel env req u (attempt + 1) w4 = Some (o, w') ->
              (exists new,
                 fetchLog w' = (new ++ fetchLog w)%list
                 /\ Z.of_nat (length new) <= Z.max 0 (budget - attempt) + 1)
              /\ (World.now w <= World.now w')%Q
              /\ forall e, o = Threw e ->
                   exists message status cause,
                     e = ScraperError message status (Some (url req)) (Some siteKey) cause).
    { intros w4 Hlog4 Hn4 Ha Hrun4.
      destruct (IH _ _ Hrun4) as ((new & Hlog' & Hlen) & Hnow & Hshape).
      split; [|split; [lra|exact Hshape]].
      exists (new ++ [rec])%list. split; [rewrite Hlog', Hlog4, Hlog, <- app_assoc; reflexivity|].
      rewrite length_app. cbn [length]. lia. }
    assert (Hone : (exists new,
                      fetchLog w3 = (new ++ fetchLog w)%list
                      /\ Z.of_nat (length new) <= Z.max 0 (budget - attempt) + 1))
      by (exists [rec]; split; [exact Hlog|cbn; lia]).
    destruct (fr_result rec) as [r|e] eqn:Eres.
    + destruct (onResponse_cases env (url req) siteKey (host u) budget (attempt + 1) r w3)
        as [(_ & _ & Ha & E)|[(_ & _ & Ha & E)|[(_ & _ & E)|(_ & E)]]]; rewrite E in Hrun.
      * destruct (backoff_Quiet env 500 250 (attempt + 1) w3) as [Hq1 _ _ _ Hq5].
        exact (Hcont _ Hq5 Hq1 Ha Hrun).
      * destruct (backoff_Quiet env 600 400 (attempt + 1)
                    (recorded (url req) siteKey r w3)) as [Hq1 _ _ _ Hq5].
        exact (Hcont _ Hq5 Hq1 Ha Hrun).
      * simplify_eq. split; [exact Hone|]. split; [wcbn; lra|].
        intros e [= <-]. eexists _, _, _. reflexivity.
      * simplify_eq. split; [exact Hone|]. split; [wcbn; lra|]. discriminate.
    + destruct (onError_cases env (url req) siteKey budget (attempt + 1) e w3)
        as [(Ha & base & jitter & E)|E]; rewrite E in Hrun.
      * destruct (backoff_Quiet env base jitter (attempt + 1) w3) as [Hq1 _ _ _ Hq5].
        exact (Hcont _ Hq5 Hq1 Ha Hrun).
      * simplify_eq. split; [exact Hone|]. split; [wcbn; lra|].
        intros e' [= <-]. eexists _, _, _. reflexivity.
Qed.

End FetcherBounds.

(** X12.  Timeouts.  When the upstream never answers within [timeoutMs], a
    call without a signal sends [maxRetries + 1] requests, each cancelled by
    the timer, waits between them 300 ms, 600 ms, ... at least, and then
    throws a [ScraperError] with the message of the timer and no status;
    one failure is recorded for the site. *)
Theorem fetchResponse_timeouts_use_whole_budget
    (env : World.Env) (req : Fetcher.FetchRequestOptions) (u : Http.URL) (w : World.t)
    (fuel : nat) :
  World.parseURL env (Fetcher.url req) = Some u ->
  Fetcher.signal req = None ->
  (0 < default (1 # 2) (Fetcher.rps req))%Q ->
  (1 <= default 2 (Fetcher.burst req))%Q ->
  RateLimiter.bucketOk (Http.host u) w ->
  Upstreams.silent env (default 25000%Q (Fetcher.timeoutMs req)) ->
  let n := Z.to_nat (Z.max 0 (default 3 (Fetcher.maxRetries req))) in
  (2 <= fuel)%nat -> (S n <= fuel)%nat ->
  let siteKey := default (Http.host u) (Fetcher.site req) in
  exists new w',
    Fetcher.fetchResponse fuel env req w
    = Some (Fetcher.Threw
              (Errors.ScraperError "Request timed out" None (Some (Fetcher.url req))
                 (Some siteKey) (Some (Errors.ForeignError Fetcher.timedOut))), w')
    /\ World.fetchLog w' = (new ++ World.fetchLog w)%list
    /\ length new = S n
    /\ Forall (fun rec => World.fr_result rec = inr Fetcher.timedOut) new
    /\ ScrapeMetrics.failures siteKey w' = S (ScrapeMetrics.failures siteKey w)
    /\ (World.now w
        + inject_Z (Z.of_nat (S n)) * Qmax 0 (default 25000 (Fetcher.timeoutMs req))
        + 300 * (inject_Z (2 ^ Z.of_nat n) - 1)
        <= World.now w')%Q.
Proof.
  intros Hurl Hsig Hrps Hburst Hok Hup n Hf2 Hfn siteKey.
  unfold Fetcher.fetchResponse. rewrite Hurl.
  destruct (attempts_timed_out env req u Hrps Hburst Hsig fuel n Hf2 Hup fuel 0 w)
    as (new & w' & Hrun & Hrest); [lia|unfold n; lia|exact Hfn|exact Hok|].
  exists new, w'. split; [exact Hrun|]. exact Hrest.
Qed.

Lemma server_silent (ms : N) (s : nat -> Z) :
  (25000 <= ms)%N -> Upstreams.silent (Examples.server ms s) 25000.
Proof.
  intros Hms k. cbn [Examples.server World.upstream World.latency]. unfold World.ofN.
  rewrite Q.max_r by (vm_compute; discriminate).
  change 25000%Q with (inject_Z 25000). rewrite <- Zle_Qle. lia.
Qed.

(** Two retries against an upstream that takes 30 s: three requests, and
    the call fails after 75.9 s at the earliest. *)
Lemma fetchResponse_timeouts_witness :
  exists new w',
    Fetcher.fetchResponse 3 Scenarios.stalled (Examples.request 2 None) Examples.fresh
    = Some (Fetcher.Threw
              (Errors.ScraperError "Request timed out" None (Some "https://site.test/a")
                 (Some "site.test") (Some (Errors.ForeignError Fetcher.timedOut))), w')
    /\ World.fetchLog w' = (new ++ World.fetchLog Examples.fresh)%list
    /\ length new = 3%nat
    /\ Forall (fun rec => World.fr_result rec = inr Fetcher.timedOut) new
    /\ ScrapeMetrics.failures "site.test" w' = S (ScrapeMetrics.failures "site.test" Examples.fresh)
    /\ (World.now Examples.fresh + inject_Z (Z.of_nat 3) * Qmax 0 25000
        + 300 * (inject_Z (2 ^ Z.of_nat 2) - 1)
        <= World.now w')%Q.
Proof.
  apply (fetchResponse_timeouts_use_whole_budget Scenarios.stalled (Examples.request 2 None)
           Examples.siteUrl Examples.fresh 3).
  - reflexivity.
  - reflexivity.
  - reflexivity.
  - discriminate.
  - apply bucketOk_fresh.
  - apply server_silent. discriminate.
  - lia.
  - cbn. lia.
Defined.

(** X13.  Recovery.  When the upstream answers the first [k] requests of a
    call with statuses of the retry set, [k] being at most [maxRetries], and
    the next one with an ok response, the call returns that response after
    [k + 1] requests and 500 ms, 1000 ms, ... of backoff at least; the
    health records are left as they were, and the cookies of the response
    are stored. *)
Theorem fetchResponse_returns_after_retryable_statuses
    (env : World.Env) (req : Fetcher.FetchRequestOptions) (u : Http.URL) (w : World.t)
    (fuel k : nat) (r : Http.Response) :
  World.parseURL env (Fetcher.url req) = Some u ->
  Fetcher.signal req = None ->
  (0 < default (1 # 2) (Fetcher.rps req))%Q ->
  (1 <= default 2 (Fetcher.burst req))%Q ->
  RateLimiter.bucketOk (Http.host u) w ->
  Z.of_nat k <= default 3 (Fetcher.maxRetries req) ->
  (forall j, (j < k)%nat ->
     Upstreams.answersAt env (default 25000%Q (Fetcher.timeoutMs req))
       (length (World.fetchLog w) + j)
       (fun r' => Fetcher.isRetryStatus (Http.status r') = true)) ->
  Upstreams.answersAt env (default 25000%Q (Fetcher.timeoutMs req))
    (length (World.fetchLog w) + k) (fun r' => r' = r) ->
  Http.ok r = true ->
  (2 <= fuel)%nat -> (S k <= fuel)%nat ->
  exists new w',
    Fetcher.fetchResponse fuel env req w = Some (Fetcher.Returned r, w')
    /\ World.fetchLog w' = (new ++ World.fetchLog w)%list
    /\ length new = S k
    /\ World.metrics w' = World.metrics w
    /\ World.cookieJar w'
       = CookieStore.storeCookies (Http.host u) (Http.getSetCookie r)
           (Http.setCookieHeader r) (World.cookieJar w)
    /\ (World.now w + 500 * (inject_Z (2 ^ Z.of_nat k) - 1) <= World.now w')%Q.
Proof.
  intros Hurl Hsig Hrps Hburst Hok Hk Hretry Hlast Hokr Hf2 Hfk.
  unfold Fetcher.fetchResponse. rewrite Hurl.
  destruct (attempts_recovers env req u Hrps Hburst Hsig fuel k r Hf2 Hokr fuel 0 w)
    as (new & w' & Hrun & Hrest); [lia|lia|exact Hfk|exact Hok|exact Hretry|exact Hlast|].
  exists new, w'. split; [exact Hrun|]. exact Hrest.
Qed.

Lemma server_answersAt (ms : N) (s : nat -> Z) (k : nat) (P : Http.Response -> Prop) :
  (ms < 25000)%N -> P (Examples.respond (s k)) ->
  Upstreams.answersAt (Examples.server ms s) 25000 k P.
Proof.
  intros Hms HP. exists (Examples.respond (s k)).
  split; [reflexivity|]. split; [exact HP|].
  cbn [Examples.server World.upstream World.latency]. unfold World.ofN.
  rewrite Q.max_r by (vm_compute; discriminate).
  change 25000%Q with (inject_Z 25000). rewrite <- Zlt_Qlt. lia.
Qed.

(** 503, 503, 200: the third request gets the response, 1.5 s after the
    call at the earliest. *)
Lemma fetchResponse_returns_witness :
  exists new w',
    Fetcher.fetchResponse 3 Scenarios.flaky (Examples.request 3 None) Examples.fresh
    = Some (Fetcher.Returned (Examples.respond 200), w')
    /\ World.fetchLog w' = (new ++ World.fetchLog Examples.fresh)%list
    /\ length new = 3%nat
    /\ World.metrics w' = World.metrics Examples.fresh
    /\ World.cookieJar w'
       = CookieStore.storeCookies "site.test" (CookieStore.RawArray ["sid=1; Path=/"]) None
           (World.cookieJar Examples.fresh)
    /\ (World.now Examples.fresh + 500 * (inject_Z (2 ^ Z.of_nat 2) - 1) <= World.now w')%Q.
Proof.
  apply (fetchResponse_returns_after_retryable_statuses Scenarios.flaky
           (Examples.request 3 None) Examples.siteUrl Examples.fresh 3 2
           (Examples.respond 200)).
  - reflexivity.
  - reflexivity.
  - reflexivity.
  - discriminate.
  - apply bucketOk_fresh.
  - cbn. lia.
  - intros j Hj. apply server_answersAt; [reflexivity|].
    destruct j as [|[|j]]; [reflexivity|reflexivity|lia].
  - apply server_answersAt; reflexivity.
  - reflexivity.
  - lia.
  - lia.
Defined.

(** X14.  A failed connection is not retried.  When [fetch] rejects with an
    error that is no [AbortError] and carries no status of the retry set, as
    the [TypeError] of a refused connection, the call ends at once,
    whatever [maxRetries] is: one request, one recorded failure, and a
    [ScraperError] with the message of the error and the error as its
    cause. *)
Theorem fetchResponse_connection_failure_is_fatal
    (env : World.Env) (req : Fetcher.FetchRequestOptions) (u : Http.URL) (w : World.t)
    (fuel : nat) (e : Errors.Foreign) :
  World.parseURL env (Fetcher.url req) = Some u ->
  Fetcher.signal req = None ->
  (0 < default (1 # 2) (Fetcher.rps req))%Q ->
  (1 <= default 2 (Fetcher.burst req))%Q ->
  RateLimiter.bucketOk (Http.host u) w ->
  Upstreams.failsAt env (default 25000%Q (Fetcher.timeoutMs req))
    (length (World.fetchLog w)) e ->
  Errors.f_name e <> Some "AbortError" ->
  Fetcher.isRetryStatus (default 0 (Errors.f_status e)) = false ->
  (2 <= fuel)%nat ->
  let siteKey := default (Http.host u) (Fetcher.site req) in
  exists rec w',
    Fetcher.fetchResponse fuel env req w
    = Some (Fetcher.Threw
              (Errors.ScraperError (Errors.messageOf (Errors.ForeignError e))
                 (Errors.f_status e) (Some (Fetcher.url req)) (Some siteKey)
                 (Some (Errors.ForeignError e))), w')
    /\ World.fetchLog w' = rec :: World.fetchLog w
    /\ World.fr_result rec = inr e
    /\ ScrapeMetrics.failures siteKey w' = S (ScrapeMetrics.failures siteKey w).
Proof.
  intros Hurl Hsig Hrps Hburst Hok Hfail Hname Hstatus Hf2 siteKey.
  unfold Fetcher.fetchResponse. rewrite Hurl.
  destruct fuel as [|fuel]; [lia|].
  exact (attempts_connection_failure env req u Hrps Hburst Hsig (S fuel) fuel 0 w e
           Hf2 Hok Hfail Hname Hstatus).
Qed.

Lemma fetchResponse_connection_failure_witness :
  exists rec w',
    Fetcher.fetchResponse 4 Scenarios.offline (Examples.request 3 None) Examples.fresh
    = Some (Fetcher.Threw
              (Errors.ScraperError "fetch failed" None (Some "https://site.test/a")
                 (Some "site.test")
                 (Some (Errors.ForeignError Scenarios.connectionRefused))), w')
    /\ World.fetchLog w' = rec :: World.fetchLog Examples.fresh
    /\ World.fr_result rec = inr Scenarios.connectionRefused
    /\ ScrapeMetrics.failures "site.test" w'
       = S (ScrapeMetrics.failures "site.test" Examples.fresh).
Proof.
  apply (fetchResponse_connection_failure_is_fatal Scenarios.offline
           (Examples.request 3 None) Examples.siteUrl Examples.fresh 4
           Scenarios.connectionRefused).
  - reflexivity.
  - reflexivity.
  - reflexivity.
  - discriminate.
  - apply bucketOk_fresh.
  - split; [reflexivity|reflexivity].
  - discriminate.
  - reflexivity.
  - lia.
Defined.

(** X15.  Every call ends.  With a positive rate and a bucket of one token
    at least, a call of [fetchResponse] returns or throws after
    [maxRetries + 1] requests at most (one request when [maxRetries] is not
    positive), whatever the upstream does. *)
Theorem fetchResponse_ends_within_budget
    (env : World.Env) (req : Fetcher.FetchRequestOptions) (u : Http.URL) (w : World.t)
    (fuel : nat) :
  World.parseURL env (Fetcher.url req) = Some u ->
  (0 < default (1 # 2) (Fetcher.rps req))%Q ->
  (1 <= default 2 (Fetcher.burst req))%Q ->
  RateLimiter.bucketOk (Http.host u) w ->
  let n := Z.to_nat (Z.max 0 (default 3 (Fetcher.maxRetries req))) in
  (2 <= fuel)%nat -> (S n <= fuel)%nat ->
  exists o w' new,
    Fetcher.fetchResponse fuel env req w = Some (o, w')
    /\ World.fetchLog w' = (new ++ World.fetchLog w)%list
    /\ (length new <= S n)%nat
    /\ (World.now w <= World.now w')%Q.
Proof.
  intros Hurl Hrps Hburst Hok n Hf2 Hfn.
  unfold Fetcher.fetchResponse. rewrite Hurl.
  destruct (attempts_total env req u Hrps Hburst fuel fuel 0 w Hf2 Hok)
    as (o & w' & Hrun); [lia|unfold n in Hfn; lia|].
  destruct (attempts_bounded env req u fuel fuel 0 w o w' Hrun)
    as ((new & Hlog & Hlen) & Hnow & _).
  exists o, w', new. split; [exact Hrun|]. split; [exact Hlog|].
  split; [unfold n; lia|exact Hnow].
Qed.

Lemma fetchResponse_ends_witness :
  exists o w' new,
    Fetcher.fetchResponse 4 Scenarios.offline (Examples.request 3 None) Examples.fresh
    = Some (o, w')
    /\ World.fetchLog w' = (new ++ World.fetchLog Examples.fresh)%list
    /\ (length new <= 4)%nat
    /\ (World.now Examples.fresh <= World.now w')%Q.
Proof.
  apply (fetchResponse_ends_within_budget Scenarios.offline (Examples.request 3 None)
           Examples.siteUrl Examples.fresh 4).
  - reflexivity.
  - reflexivity.
  - discriminate.
  - apply bucketOk_fresh.
  - lia.
  - cbn. lia.
Defined.

(** X16.  What a call throws.  [fetchResponse] throws the [TypeError] of
    [new URL(url)], before it has changed anything, or a [ScraperError]
    that carries the URL and the site; a [FetchFailedError] never leaves
    it. *)
Theorem fetchResponse_throws_ScraperError
    (env : World.Env) (req : Fetcher.FetchRequestOptions) (w w' : World.t)
    (fuel : nat) (e : Errors.Thrown) :
  Fetcher.fetchResponse fuel env req w = Some (Fetcher.Threw e, w') ->
  Errors.isFetchFailedError e = false
  /\ match World.parseURL env (Fetcher.url req) with
     | None => e = Errors.ForeignError Fetcher.invalidURL /\ w' = w
     | Some u =>
         exists message status cause,
           e = Errors.ScraperError message status (Some (Fetcher.url req))
                 (Some (default (Http.host u) (Fetcher.site req))) cause
     end.
Proof.
  unfold Fetcher.fetchResponse. destruct (World.parseURL env (Fetcher.url req)) as [u|].
  - intros Hrun.
    destruct (attempts_bounded env req u fuel fuel 0 w _ w' Hrun) as (_ & _ & Hshape).
    destruct (Hshape e eq_refl) as (message & status & cause & ->).
    split; [reflexivity|]. eexists _, _, _. reflexivity.
  - intros [= <- <-]. split; [reflexivity|]. split; reflexivity.
Qed.

Lemma fetchResponse_throws_witness :
  Errors.isFetchFailedError (Scenarios.thrownBy Scenarios.notFound) = false
  /\ exists message status cause,
       Scenarios.thrownBy Scenarios.notFound
       = Errors.ScraperError message status (Some "https://site.test/a")
           (Some "site.test") cause.
Proof.
  apply (fetchResponse_throws_ScraperError (Examples.server 10 (fun _ => 404))
           (Examples.request 0 None) Examples.fresh
           (Examples.stateAfter Scenarios.notFound) 3
           (Scenarios.thrownBy Scenarios.notFound)).
  vm_compute. reflexivity.
Defined.

(** X17.  A signal that has aborted before the call.  The call still waits
    for the rate limiter and takes a token of the host; then it throws
    ["Request aborted"]: no request is sent and no failure is recorded. *)
Theorem fetchResponse_aborted_before_call
    (env : World.Env) (req : Fetcher.FetchRequestOptions) (u : Http.URL) (w : World.t)
    (fuel : nat) (sg : Http.AbortSignal) :
  World.parseURL env (Fetcher.url req) = Some u ->
  Fetcher.signal req = Some sg ->
  Fetcher.aborted sg (World.now w) = true ->
  (0 < default (1 # 2) (Fetcher.rps req))%Q ->
  (1 <= default 2 (Fetcher.burst req))%Q ->
  RateLimiter.bucketOk (Http.host u) w ->
  (2 <= fuel)%nat ->
  exists w',
    Fetcher.fetchResponse fuel env req w
    = Some (Fetcher.Threw
              (Errors.ScraperError "Request aborted" None (Some (Fetcher.url req))
                 (Some (default (Http.host u) (Fetcher.site req))) None), w')
    /\ RateLimiter.limit fuel env (Http.host u) (Fetcher.rps req) (Fetcher.burst req) w
       = Some w'
    /\ (exists b, World.buckets w' !! Http.host u = Some b)
    /\ World.fetchLog w' = World.fetchLog w
    /\ World.metrics w' = World.metrics w
    /\ World.cookieJar w' = World.cookieJar w.
Proof.
  intros Hurl Hsg Hab Hrps Hburst Hok Hf2.
  unfold Fetcher.fetchResponse. rewrite Hurl.
  destruct (limit_total env req u Hrps Hburst fuel w Hf2 Hok) as (w1 & Hl & _).
  pose proof Hl as Hq. unfold RateLimiter.limit in Hq.
  assert (Hbucket : exists b, World.buckets w1 !! Http.host u = Some b).
  { clear -Hq. revert w Hq. induction fuel as [|fuel IH]; intros w Hq; [discriminate|].
    cbn [RateLimiter.limitLoop] in Hq. unfold RateLimiter.limitPass in Hq.
    destruct (Qlt_le_dec _ 1) as [Hlt|Hge] in Hq; [exact (IH _ Hq)|].
    injection Hq as <-. cbn [World.with_buckets World.buckets].
    rewrite lookup_insert_eq. eexists. reflexivity. }
  apply limitLoop_Quiet_but_buckets in Hq as (Hn & Hm & Hc & Hf).
  exists w1. destruct fuel as [|fuel']; [lia|].
  cbn [Fetcher.attempts]. unfold Fetcher.attemptPass. rewrite Hl, Hsg.
  rewrite (aborted_later sg _ _ Hab Hn).
  split; [reflexivity|]. split; [reflexivity|]. split; [exact Hbucket|].
  split; [exact Hf|]. split; [exact Hm|exact Hc].
Qed.

Lemma fetchResponse_aborted_before_witness :
  exists w',
    Fetcher.fetchResponse 2 (Examples.server 10 (fun _ => 200))
      (Examples.request 3 (Some (Examples.abortsAt 0))) Examples.fresh
    = Some (Fetcher.Threw
              (Errors.ScraperError "Request aborted" None (Some "https://site.test/a")
                 (Some "site.test") None), w')
    /\ RateLimiter.limit 2 (Examples.server 10 (fun _ => 200)) "site.test" None None
         Examples.fresh = Some w'
    /\ (exists b, World.buckets w' !! "site.test" = Some b)
    /\ World.fetchLog w' = World.fetchLog Examples.fresh
    /\ World.metrics w' = World.metrics Examples.fresh
    /\ World.cookieJar w' = World.cookieJar Examples.fresh.
Proof.
  apply (fetchResponse_aborted_before_call (Examples.server 10 (fun _ => 200))
           (Examples.request 3 (Some (Examples.abortsAt 0))) Examples.siteUrl
           Examples.fresh 2 (Examples.abortsAt 0)).
  - reflexivity.
  - reflexivity.
  - reflexivity.
  - reflexivity.
  - discriminate.
  - apply bucketOk_fresh.
  - lia.
Defined.

(** ** User agents and request headers *)

Section AgentFacts.
Import World Http Errors Fetcher Agents.
Context (env : Env).

Lemma random_index (w : World.t) :
  0 <= Qfloor (fst (Math_random env w) * inject_Z (Z.of_nat (length USER_AGENTS))) < 5.
Proof.
  destruct (random_range env w) as [H0 H1].
  set (r := fst (Math_random env w)) in *.
  change (inject_Z (Z.of_nat (length USER_AGENTS))) with 5%Q.
  split.
  - change 0 with (Qfloor 0). apply Qfloor_resp_le. lra.
  - pose proof (Qfloor_le (r * 5)) as Hf.
    rewrite Zlt_Qlt. change (inject_Z 5) with 5%Q. lra.
Qed.

Lemma chooseUserAgent_stored (host : string) (i : Z) (w : World.t) :
  uaState w !! host = Some i -> 0 <= i < 5 ->
  chooseUserAgent env host w
  = (at_index USER_AGENTS i, with_uaState (insert host (Z.rem (i + 1) 5)) w).
Proof.
  intros Hi Hr. unfold chooseUserAgent. rewrite Hi.
  change (Z.of_nat (length USER_AGENTS)) with 5.
  rewrite (Z.rem_small i 5) by lia. reflexivity.
Qed.

Lemma at_index_elem (arr : list string) (i : Z) :
  0 <= i < Z.of_nat (length arr) -> at_index arr i ∈ arr.
Proof.
  intros Hi. unfold at_index.
  destruct (lookup_lt_is_Some_2 arr (Z.to_nat i) ltac:(lia)) as [x Hx].
  rewrite Hx. cbn. eapply list_elem_of_lookup_2, Hx.
Qed.

(** The index that a call of [chooseUserAgent] uses. *)
Lemma chooseUserAgent_index (host : string) (w : World.t) :
  uaStateOk w ->
  exists i w1,
    0 <= i < 5
    /\ chooseUserAgent env host w
       = (at_index USER_AGENTS i, with_uaState (insert host (Z.rem (i + 1) 5)) w1)
    /\ uaState w1 = uaState w
    /\ (forall j, uaState w !! host = Some j -> i = j /\ w1 = w).
Proof.
  intros Hok. destruct (uaState w !! host) as [j|] eqn:E.
  - pose proof (Hok host j E) as Hj. change (Z.of_nat (length USER_AGENTS)) with 5 in Hj.
    exists j, w. split; [exact Hj|]. split; [apply chooseUserAgent_stored; assumption|].
    split; [reflexivity|]. intros j' [= <-]. split; reflexivity.
  - pose proof (random_index w) as Hr.
    exists (Qfloor (fst (Math_random env w) * inject_Z (Z.of_nat (length USER_AGENTS)))),
           (snd (Math_random env w)).
    split; [exact Hr|]. split.
    + unfold chooseUserAgent. rewrite E.
      destruct (Math_random env w) as [r w1] eqn:Er. cbn [fst snd] in *.
      change (Z.of_nat (length USER_AGENTS)) with 5.
      rewrite (Z.rem_small _ 5) by exact Hr. reflexivity.
    + split; [reflexivity|]. intros j [=].
Qed.

Lemma uaStateOk_next (host : string) (i : Z) (w w1 : World.t) :
  uaStateOk w -> uaState w1 = uaState w -> 0 <= i < 5 ->
  uaStateOk (with_uaState (insert host (Z.rem (i + 1) 5)) w1).
Proof.
  intros Hok Hs Hi h j. cbn [with_uaState uaState]. rewrite Hs.
  destruct (decide (host = h)) as [->|Hne].
  - rewrite lookup_insert_eq. intros [= <-]. change (Z.of_nat (length USER_AGENTS)) with 5.
    pose proof (Z.rem_bound_pos (i + 1) 5 ltac:(lia) ltac:(lia)). lia.
  - rewrite lookup_insert_ne by exact Hne. apply Hok.
Qed.

End AgentFacts.

Ltac rem5 :=
  repeat match goal with
         | |- context [Z.rem ?a 5] =>
             let v := eval vm_compute in (Z.rem a 5) in change (Z.rem a 5) with v
         end.

(** X18.  The user agents of a host go round.  Each call of
    [chooseUserAgent] returns one of [USER_AGENTS] and leaves the state of
    the other hosts alone; six calls in a row for a host return the five
    user agents in the order of the list, from some position on and around,
    and then the first of them again. *)
Theorem chooseUserAgent_goes_round (env : World.Env) (host : string) (w : World.t) :
  Agents.uaStateOk w ->
  let uas := fst (Agents.chooseUserAgents 6 env host w) in
  let w' := snd (Agents.chooseUserAgents 6 env host w) in
  (exists i, (i < 5)%nat
             /\ take 5 uas = (drop i Fetcher.USER_AGENTS ++ take i Fetcher.USER_AGENTS)%list
             /\ uas !! 5%nat = uas !! 0%nat)
  /\ Forall (fun ua => ua ∈ Fetcher.USER_AGENTS) uas
  /\ Agents.uaStateOk w'
  /\ forall other, other <> host -> World.uaState w' !! other = World.uaState w !! other.
Proof.
  intros Hok. cbv zeta.
  destruct (chooseUserAgent_index env host w Hok) as (i & w1 & Hi & Hfirst & Hs1 & _).
  assert (Hstep : forall j w0,
            0 <= j < 5 ->
            Fetcher.chooseUserAgent env host (World.with_uaState (insert host j) w0)
            = (Fetcher.at_index Fetcher.USER_AGENTS j,
               World.with_uaState (insert host (Z.rem (j + 1) 5)) w0)).
  { intros j w0 Hj. rewrite (chooseUserAgent_stored env host j) by
      (first [apply lookup_insert_eq|exact Hj]).
    f_equal. unfold World.with_uaState. cbn [World.uaState World.now World.timers
      World.randoms World.buckets World.metrics World.cookieJar World.fetchLog].
    rewrite insert_insert_eq. reflexivity. }
  assert (Hcases : i = 0 \/ i = 1 \/ i = 2 \/ i = 3 \/ i = 4) by lia.
  assert (Hrun : Agents.chooseUserAgents 6 env host w
                 = ([Fetcher.at_index Fetcher.USER_AGENTS i;
                     Fetcher.at_index Fetcher.USER_AGENTS (Z.rem (i + 1) 5);
                     Fetcher.at_index Fetcher.USER_AGENTS (Z.rem (i + 2) 5);
                     Fetcher.at_index Fetcher.USER_AGENTS (Z.rem (i + 3) 5);
                     Fetcher.at_index Fetcher.USER_AGENTS (Z.rem (i + 4) 5);
                     Fetcher.at_index Fetcher.USER_AGENTS i],
                    World.with_uaState (insert host (Z.rem (i + 1) 5)) w1)).
  { cbn [Agents.chooseUserAgents]. rewrite Hfirst.
    destruct Hcases as [-> | [-> | [-> | [-> | ->]]]];
      repeat (rem5; rewrite Hstep by lia); rem5; reflexivity. }
  rewrite Hrun. cbn [fst snd]. split.
  - exists (Z.to_nat i). split; [lia|].
    destruct Hcases as [-> | [-> | [-> | [-> | ->]]]]; split; reflexivity.
  - split.
    + destruct Hcases as [-> | [-> | [-> | [-> | ->]]]];
        rem5; repeat (constructor; [apply at_index_elem; cbn; lia|]);
        constructor.
    + split; [exact (uaStateOk_next host i w w1 Hok Hs1 Hi)|].
      intros other Hne. cbn [World.with_uaState World.uaState].
      rewrite lookup_insert_ne by congruence. rewrite Hs1. reflexivity.
Qed.

Lemma chooseUserAgent_witness :
  exists i, (i < 5)%nat
    /\ take 5 (fst (Agents.chooseUserAgents 6 (Examples.server 10 (fun _ => 200)) "site.test"
                      Examples.fresh))
       = (drop i Fetcher.USER_AGENTS ++ take i Fetcher.USER_AGENTS)%list
    /\ fst (Agents.chooseUserAgents 6 (Examples.server 10 (fun _ => 200)) "site.test"
              Examples.fresh) !! 5%nat
       = fst (Agents.chooseUserAgents 6 (Examples.server 10 (fun _ => 200)) "site.test"
                Examples.fresh) !! 0%nat.
Proof.
  apply (chooseUserAgent_goes_round (Examples.server 10 (fun _ => 200)) "site.test"
           Examples.fresh).
  intros host i H. unfold Examples.fresh in H. cbn [World.uaState] in H.
  rewrite lookup_empty in H. discriminate H.
Defined.

Section HeaderFacts.
Import World Http Errors Fetcher Agents.
Context (env : Env).

Lemma truthy_app (a b : string) :
  JsString.truthy a = true -> JsString.truthy (a +:+ b) = true.
Proof. destruct a; [discriminate|reflexivity]. Qed.

Lemma render_truthy (m : JsMap.t) : m <> [] -> JsString.truthy (CookieJar.render m) = true.
Proof.
  destruct m as [|[k v] m]; [contradiction|]. intros _. unfold CookieJar.render.
  cbn [map fst snd].
  assert (Hx : JsString.truthy (k +:+ "=" +:+ v) = true) by (destruct k; reflexivity).
  destruct m as [|kv m]; [exact Hx|].
  cbn [map]. rewrite join_cons. apply truthy_app, Hx.
Qed.

Lemma buildCookieHeader_truthy (jar : CookieJar.Jar) (host : string)
    (override : option string) (c : string) :
  CookieJar.buildCookieHeader jar host override = Some c -> JsString.truthy c = true.
Proof.
  rewrite buildCookieHeader_merged.
  destruct (CookieJar.mergedCookies _ override) as [|kv m] eqn:E; [discriminate|].
  intros [= <-]. apply render_truthy. discriminate.
Qed.

Lemma buildHeaders_eq (u : URL) (hdrs : gmap string string) (cookies : option string)
    (attempt : Z) (w : World.t) :
  let uaw :=
    match hdrs !! "User-Agent" with
    | Some v => (v, w)
    | None => chooseUserAgent env (host u) w
    end in
  buildHeaders env u hdrs cookies attempt w
  = (match CookieJar.buildCookieHeader (cookieJar w) (host u) cookies with
     | Some c => <["Cookie" := c]> (plainHeaders u hdrs attempt (fst uaw))
     | None => plainHeaders u hdrs attempt (fst uaw)
     end, snd uaw).
Proof.
  cbv zeta. unfold buildHeaders, plainHeaders.
  assert (Hjar : cookieJar (snd match hdrs !! "User-Agent" with
                                | Some v => (v, w)
                                | None => chooseUserAgent env (host u) w
                                end) = cookieJar w).
  { destruct (hdrs !! "User-Agent"); [reflexivity|].
    apply (quiet_cookieJar _ _ (chooseUserAgent_Quiet env (host u) w)). }
  destruct (match hdrs !! "User-Agent" with
            | Some v => (v, w)
            | None => chooseUserAgent env (host u) w
            end) as [ua w1].
  cbn [fst snd] in *. rewrite Hjar.
  destruct (CookieJar.buildCookieHeader (cookieJar w) (host u) cookies) as [c|] eqn:E;
    [|reflexivity].
  rewrite (buildCookieHeader_truthy _ _ _ _ E). reflexivity.
Qed.

End HeaderFacts.

(** X19.  The headers of a request.  What the caller passes in [headers]
    wins over the defaults, the rotation and the referer of the origin; the
    [Cookie] entry alone is replaced, when the jar or the [cookies] option
    yield a cookie header.  Every request has a [User-Agent], an
    [Accept-Language] and a [Referer]; those the caller leaves out are a
    member of [USER_AGENTS], a member of [ACCEPT_LANGUAGES] and the origin
    with a slash; and a caller's [User-Agent] leaves the rotation where it
    is. *)
Theorem buildHeaders_caller_headers_win
    (env : World.Env) (u : Http.URL) (hdrs : gmap string string) (cookies : option string)
    (attempt : Z) (w : World.t) :
  let final := fst (Fetcher.buildHeaders env u hdrs cookies attempt w) in
  let w1 := snd (Fetcher.buildHeaders env u hdrs cookies attempt w) in
  (forall k v, k <> "Cookie" -> hdrs !! k = Some v -> final !! k = Some v)
  /\ final !! "Cookie"
     = match CookieJar.buildCookieHeader (World.cookieJar w) (Http.host u) cookies with
       | Some c => Some c
       | None => hdrs !! "Cookie"
       end
  /\ (forall k, k ∈ ["User-Agent"; "Accept-Language"; "Referer"] -> is_Some (final !! k))
  /\ (forall k, is_Some (Fetcher.DEFAULT_HEADERS !! k) -> is_Some (final !! k))
  /\ (hdrs !! "Referer" = None -> final !! "Referer" = Some (Http.origin u +:+ "/"))
  /\ (hdrs !! "Accept-Language" = None -> 0 <= attempt ->
      exists lang, final !! "Accept-Language" = Some lang /\ lang ∈ Fetcher.ACCEPT_LANGUAGES)
  /\ (is_Some (hdrs !! "User-Agent") -> w1 = w)
  /\ (hdrs !! "User-Agent" = None -> Agents.uaStateOk w ->
      exists ua, final !! "User-Agent" = Some ua /\ ua ∈ Fetcher.USER_AGENTS).
Proof.
  cbv zeta. rewrite buildHeaders_eq. cbv zeta. cbn [fst snd].
  set (uaw := match hdrs !! "User-Agent" with
              | Some v => (v, w)
              | None => Fetcher.chooseUserAgent env (Http.host u) w
              end).
  set (plain := Agents.plainHeaders u hdrs attempt (fst uaw)).
  assert (Hplain : forall k, k <> "Cookie" ->
            match CookieJar.buildCookieHeader (World.cookieJar w) (Http.host u) cookies with
            | Some c => <["Cookie" := c]> plain
            | None => plain
            end !! k = plain !! k).
  { intros k Hk. destruct (CookieJar.buildCookieHeader _ _ _); [|reflexivity].
    apply lookup_insert_ne. congruence. }
  assert (Hcaller : forall k v, hdrs !! k = Some v -> plain !! k = Some v).
  { intros k v Hv. unfold plain, Agents.plainHeaders. apply lookup_union_Some_l, Hv. }
  assert (Hnew : forall k, hdrs !! k = None ->
            plain !! k
            = (<["Referer" := default (Http.origin u +:+ "/") (hdrs !! "Referer")]>
                 (<["Accept-Language" :=
                      default (Fetcher.at_index Fetcher.ACCEPT_LANGUAGES
                                 (Z.rem attempt (Z.of_nat (length Fetcher.ACCEPT_LANGUAGES))))
                              (hdrs !! "Accept-Language")]>
                    (<["User-Agent" := fst uaw]> Fetcher.DEFAULT_HEADERS))) !! k).
  { intros k Hk. unfold plain, Agents.plainHeaders. apply lookup_union_r, Hk. }
  assert (Hsome : forall k,
            is_Some ((<["Referer" := default (Http.origin u +:+ "/") (hdrs !! "Referer")]>
                 (<["Accept-Language" :=
                      default (Fetcher.at_index Fetcher.ACCEPT_LANGUAGES
                                 (Z.rem attempt (Z.of_nat (length Fetcher.ACCEPT_LANGUAGES))))
                              (hdrs !! "Accept-Language")]>
                    (<["User-Agent" := fst uaw]> Fetcher.DEFAULT_HEADERS))) !! k) ->
            is_Some (plain !! k)).
  { intros k Hk. destruct (hdrs !! k) as [v|] eqn:E.
    - rewrite (Hcaller k v E). eexists. reflexivity.
    - rewrite (Hnew k E). exact Hk. }
  split; [intros k v Hk Hv; rewrite (Hplain k Hk); apply Hcaller, Hv|].
  split.
  { destruct (CookieJar.buildCookieHeader _ _ _); [apply lookup_insert_eq|].
    unfold plain, Agents.plainHeaders. apply lookup_union_l. reflexivity. }
  split.
  { intros k Hk. rewrite Hplain.
    - apply Hsome.
      repeat (apply elem_of_cons in Hk as [->|Hk]);
        [| |
         |apply elem_of_nil in Hk; contradiction].
      + rewrite lookup_insert_ne, lookup_insert_ne, lookup_insert_eq by discriminate.
        eexists. reflexivity.
      + rewrite lookup_insert_ne, lookup_insert_eq by discriminate. eexists. reflexivity.
      + rewrite lookup_insert_eq. eexists. reflexivity.
    - intros ->. repeat (apply elem_of_cons in Hk as [Hk|Hk]; [discriminate Hk|]).
      apply elem_of_nil in Hk. contradiction. }
  split.
  { intros k Hk. rewrite Hplain.
    - apply Hsome. rewrite !lookup_insert_is_Some'. tauto.
    - intros ->. destruct Hk as [v Hv]. discriminate Hv. }
  split.
  { intros Hr. rewrite Hplain by discriminate. rewrite (Hnew _ Hr), Hr.
    apply lookup_insert_eq. }
  split.
  { intros Hl Ha. rewrite Hplain by discriminate. rewrite (Hnew _ Hl), Hl.
    rewrite lookup_insert_ne, lookup_insert_eq by discriminate.
    eexists. split; [reflexivity|]. cbn [default from_option id].
    apply at_index_elem. change (Z.of_nat (length Fetcher.ACCEPT_LANGUAGES)) with 3.
    pose proof (Z.rem_bound_pos attempt 3 Ha ltac:(lia)). lia. }
  split.
  { intros [v Hv]. unfold uaw. rewrite Hv. reflexivity. }
  intros Hua Hok. rewrite Hplain by discriminate. rewrite (Hnew _ Hua).
  rewrite lookup_insert_ne, lookup_insert_ne, lookup_insert_eq by discriminate.
  eexists. split; [reflexivity|]. unfold uaw. rewrite Hua.
  destruct (chooseUserAgent_index env (Http.host u) w Hok) as (i & w0 & Hi & -> & _).
  cbn [fst]. apply at_index_elem. exact Hi.
Qed.

(** The headers of a second attempt for a caller that sets [Accept] and
    [Cookie], the jar holding two cookies for the host. *)
Lemma buildHeaders_witness :
  fst (Fetcher.buildHeaders (Examples.server 10 (fun _ => 200)) Examples.siteUrl
         (<["Accept" := "application/json"]> (<["Cookie" := "z=0"]> ∅)) None 2
         Scenarios.withJar) !! "Accept" = Some "application/json"
  /\ fst (Fetcher.buildHeaders (Examples.server 10 (fun _ => 200)) Examples.siteUrl
            (<["Accept" := "application/json"]> (<["Cookie" := "z=0"]> ∅)) None 2
            Scenarios.withJar) !! "Cookie" = Some "a=1; b=2"
  /\ fst (Fetcher.buildHeaders (Examples.server 10 (fun _ => 200)) Examples.siteUrl
            (<["Accept" := "application/json"]> (<["Cookie" := "z=0"]> ∅)) None 2
            Scenarios.withJar) !! "Referer" = Some "https://site.test/".
Proof.
  pose proof (buildHeaders_caller_headers_win (Examples.server 10 (fun _ => 200))
                Examples.siteUrl
                (<["Accept" := "application/json"]> (<["Cookie" := "z=0"]> ∅)) None 2
                Scenarios.withJar) as H.
  cbv zeta in H. destruct H as (Hcaller & Hcookie & _ & _ & Href & _).
  split; [apply Hcaller; [discriminate|reflexivity]|].
  split; [rewrite Hcookie; reflexivity|].
  apply Href. reflexivity.
Defined.

(** ** The response cache over time *)

Section CacheRunFacts.
Import LruCache Cache CacheRuns.

Lemma get_maxEntries (t : Q) (k : string) (c : LruCache.t) :
  maxEntries (snd (get t k c)) = maxEntries c.
Proof. unfold get. repeat case_match; reflexivity. Qed.

(** What a request that misses does. *)
Lemma serverCache_miss (ttl : option Q) (responseType : ResponseType) (next : Handler)
    (req : Request) (st : State) :
  misses req st ->
  serverCache ttl responseType next req st
  = (FromHandler (answer next (calls st) req),
     {| cache :=
          match toStore responseType (answer next (calls st) req) with
          | Some v =>
              LruCache.set (now st + World.ofN (duration next (calls st)))%Q (cacheKey req) v
                (newTTL ttl) (snd (get (now st) (cacheKey req) (cache st)))
          | None => snd (get (now st) (cacheKey req) (cache st))
          end;
        now := (now st + World.ofN (duration next (calls st)))%Q;
        calls := S (calls st) |}).
Proof.
  intros Hmiss. unfold serverCache.
  assert (Hnone : match fst (get (now st) (cacheKey req) (cache st)) with
                  | Some v => if truthyValue v then Some v else None
                  | None => None
                  end = None).
  { unfold misses, hasLive in Hmiss. unfold get.
    destruct (find (cacheKey req) (entries (cache st))) as [e|]; [|reflexivity].
    destruct (live (now st) e); [|reflexivity].
    cbn [fst]. rewrite (Hmiss _ eq_refl). reflexivity. }
  destruct (get (now st) (cacheKey req) (cache st)) as [cachedData cache1].
  cbn [fst snd] in *. rewrite Hnone. reflexivity.
Qed.

(** After the look-up of a request that misses, no later request finds a
    truthy value that is live. *)
Lemma misses_after_get (req : Request) (st : State) (t : Q) (v : Value) :
  misses req st ->
  hasLive t (cacheKey req) (snd (get (now st) (cacheKey req) (cache st))) = Some v ->
  truthyValue v = false.
Proof.
  unfold misses, hasLive, get. intros Hmiss.
  destruct (find (cacheKey req) (entries (cache st))) as [e|] eqn:Ek.
  - pose proof (find_key _ _ _ Ek) as Hkey.
    destruct (live (now st) e); cbn [snd entries].
    + rewrite find_cons, Hkey, String.eqb_refl.
      destruct (live t e); [|discriminate]. intros [= <-]. apply Hmiss. reflexivity.
    + rewrite find_without. destruct (decide _) as [_|Hne]; [discriminate|contradiction].
  - cbn [snd]. rewrite Ek. discriminate.
Qed.

Lemma hasLive_stored (t0 t ttl : Q) (k : string) (v : Value) (c : LruCache.t) :
  hasLive t k (LruCache.set t0 k v ttl c)
  = if bool_decide (1 <= maxEntries c)%nat
    then if Qlt_le_dec t (t0 + ttl) then Some v else None
    else None.
Proof.
  unfold hasLive, LruCache.set. cbn [entries maxEntries].
  destruct (maxEntries c) as [|n].
  - rewrite bool_decide_eq_false_2 by lia. reflexivity.
  - rewrite bool_decide_eq_true_2 by lia. cbn [take].
    rewrite find_cons. cbn [key]. rewrite String.eqb_refl.
    unfold live. cbn [expiresAt value]. destruct (Qlt_le_dec t (t0 + ttl)); reflexivity.
Qed.

End CacheRunFacts.

(** X20.  How long a response is served from the cache.  After a request
    that missed and whose result was stored with a truthy value, the cache
    holding one entry at least, a request for the same key is answered from
    the cache, the handler not running, when less than the time to live has
    passed since the handler returned; from then on the handler runs
    again. *)
Theorem serverCache_serves_stored_response_until_ttl
    (ttl ttl' : option Q) (responseType responseType' : Cache.ResponseType)
    (next next' : Cache.Handler) (req : Cache.Request) (st : Cache.State) (ms : N)
    (v : LruCache.Value) :
  CacheRuns.misses req st ->
  Cache.toStore responseType (Cache.answer next (Cache.calls st) req) = Some v ->
  Cache.truthyValue v = true ->
  (1 <= LruCache.maxEntries (Cache.cache st))%nat ->
  let st1 := CacheRuns.afterRequest ttl responseType next req ms st in
  let second := Cache.serverCache ttl' responseType' next' req st1 in
  Cache.calls st1 = S (Cache.calls st)
  /\ ((World.ofN ms < Cache.newTTL ttl)%Q ->
      fst second
      = match v with
        | LruCache.VObject fields => Cache.FromCacheJson (Json.JObject fields)
        | LruCache.VText body => Cache.FromCacheText body
        end
      /\ Cache.calls (snd second) = S (Cache.calls st))
  /\ ((Cache.newTTL ttl <= World.ofN ms)%Q ->
      fst second = Cache.FromHandler (Cache.answer next' (S (Cache.calls st)) req)
      /\ Cache.calls (snd second) = S (S (Cache.calls st))).
Proof.
  intros Hmiss Hstore Htruthy Hmax. cbv zeta. unfold CacheRuns.afterRequest.
  rewrite (serverCache_miss ttl responseType next req st Hmiss), Hstore. cbn [snd].
  unfold Cache.later. cbn [Cache.cache Cache.now Cache.calls].
  set (t1 := (Cache.now st + World.ofN (Cache.duration next (Cache.calls st)))%Q).
  set (cache1 := snd (LruCache.get (Cache.now st) (Cache.cacheKey req) (Cache.cache st))).
  assert (Hlive : forall t,
            LruCache.hasLive t (Cache.cacheKey req)
              (LruCache.set t1 (Cache.cacheKey req) v (Cache.newTTL ttl) cache1)
            = if Qlt_le_dec t (t1 + Cache.newTTL ttl) then Some v else None).
  { intros t. rewrite hasLive_stored. unfold cache1. rewrite get_maxEntries.
    rewrite bool_decide_eq_true_2 by exact Hmax. reflexivity. }
  split; [reflexivity|]. split.
  - intros Hms. apply serverCache_hit; [|exact Htruthy].
    cbn [Cache.cache Cache.now]. rewrite Hlive.
    destruct (Qlt_le_dec _ _) as [_|Hge]; [reflexivity|lra].
  - intros Hms. rewrite serverCache_miss; [split; reflexivity|].
    intros v0. cbn [Cache.cache Cache.now]. rewrite Hlive.
    destruct (Qlt_le_dec _ _) as [Hlt|_]; [lra|discriminate].
Qed.

(** A request to a text route, and the same request 30 s later. *)
Lemma serverCache_serves_witness :
  fst (Cache.serverCache (Some 1%Q) Cache.text (Examples.plainText "other") Examples.page
         (CacheRuns.afterRequest (Some 1%Q) Cache.text (Examples.plainText "hello")
            Examples.page 30000 Examples.emptyCache))
  = Cache.FromCacheText "hello"
  /\ Cache.calls
       (snd (Cache.serverCache (Some 1%Q) Cache.text (Examples.plainText "other")
               Examples.page
               (CacheRuns.afterRequest (Some 1%Q) Cache.text (Examples.plainText "hello")
                  Examples.page 30000 Examples.emptyCache)))
     = S (Cache.calls Examples.emptyCache).
Proof.
  pose proof (serverCache_serves_stored_response_until_ttl (Some 1%Q) (Some 1%Q) Cache.text
                Cache.text (Examples.plainText "hello") (Examples.plainText "other")
                Examples.page Examples.emptyCache 30000 (LruCache.VText "hello")) as H.
  cbv zeta in H. destruct H as (_ & Hhit & _).
  - intros v Hv. vm_compute in Hv. discriminate Hv.
  - reflexivity.
  - reflexivity.
  - cbn. lia.
  - apply Hhit. vm_compute. reflexivity.
Defined.

(** X21.  A result that is not stored is asked for again.  After a request
    that missed and whose result was not stored (a status of 399 or above,
    or on a JSON route a body that is no object with a truthy [ok]), every
    later request for the same key runs the handler again. *)
Theorem serverCache_unstored_result_runs_handler_again
    (ttl ttl' : option Q) (responseType responseType' : Cache.ResponseType)
    (next next' : Cache.Handler) (req : Cache.Request) (st : Cache.State) (ms : N) :
  CacheRuns.misses req st ->
  Cache.toStore responseType (Cache.answer next (Cache.calls st) req) = None ->
  let st1 := CacheRuns.afterRequest ttl responseType next req ms st in
  let second := Cache.serverCache ttl' responseType' next' req st1 in
  fst second = Cache.FromHandler (Cache.answer next' (S (Cache.calls st)) req)
  /\ Cache.calls (snd second) = S (S (Cache.calls st))
  /\ CacheRuns.misses req st1.
Proof.
  intros Hmiss Hstore. cbv zeta. unfold CacheRuns.afterRequest.
  rewrite (serverCache_miss ttl responseType next req st Hmiss), Hstore. cbn [snd].
  unfold Cache.later. cbn [Cache.cache Cache.now Cache.calls].
  assert (Hmiss1 : CacheRuns.misses req
            {| Cache.cache :=
                 snd (LruCache.get (Cache.now st) (Cache.cacheKey req) (Cache.cache st));
               Cache.now :=
                 (Cache.now st + World.ofN (Cache.duration next (Cache.calls st))
                  + World.ofN ms)%Q;
               Cache.calls := S (Cache.calls st) |}).
  { intros v Hv. cbn [Cache.cache Cache.now] in Hv.
    exact (misses_after_get req st _ v Hmiss Hv). }
  rewrite (serverCache_miss _ _ _ _ _ Hmiss1). cbn [fst snd Cache.calls].
  split; [reflexivity|]. split; [reflexivity|exact Hmiss1].
Qed.

(** A JSON route whose handler answers [{"ok": false}]. *)
Lemma serverCache_unstored_witness :
  fst (Cache.serverCache None Cache.json (Examples.payload (Json.JBool true)) Examples.page
         (CacheRuns.afterRequest None Cache.json (Examples.payload (Json.JBool false))
            Examples.page 10 Examples.emptyCache))
  = Cache.FromHandler
      (Cache.answer (Examples.payload (Json.JBool true)) 1 Examples.page).
Proof.
  apply (serverCache_unstored_result_runs_handler_again None None Cache.json Cache.json
           (Examples.payload (Json.JBool false)) (Examples.payload (Json.JBool true))
           Examples.page Examples.emptyCache 10).
  - intros v Hv. vm_compute in Hv. discriminate Hv.
  - reflexivity.
Defined.

(** ** Redirect resolution: the turns of the retry loop *)

Section RetryFacts.
Import DataFetcher.
Context (env : Env) (i : nat) (url ref : string) (retries : Z).

(** The loop pauses after each call that fails, the last one of the budget
    excepted, and what it returns comes from its last call. *)
Lemma retryLoop_run (n : nat) (attempt : Z) (calls0 pauses0 : nat) :
  Z.of_nat n = retries - attempt + 1 -> (1 <= n)%nat ->
  let run := retryLoop n env i url ref retries attempt calls0 pauses0 in
  (calls0 < calls run <= calls0 + n)%nat
  /\ (pauses run + calls0 + 1 = pauses0 + calls run)%nat
  /\ (forall e, settled run = Rejected e ->
        calls run = (calls0 + n)%nat
        /\ forall k, attempt <= k <= retries -> failsAt env i url ref k)
  /\ settled run <> Fulfilled JsUndefined
  /\ (forall target, settled run = Fulfilled (JsString target) ->
        let k := attempt + Z.of_nat (calls run - calls0 - 1) in
        resolvesAt env i url ref k target
        /\ forall j, attempt <= j < k -> failsAt env i url ref j).
Proof.
  revert attempt calls0 pauses0.
  induction n as [|n IH]; intros attempt calls0 pauses0 Hn H1; [lia|].
  cbv zeta. cbn [retryLoop].
  destruct (getFinalUrl env url ref (fetched env i url attempt)) as [target|error] eqn:E.
  - cbn [calls pauses settled]. split; [lia|]. split; [lia|].
    split; [discriminate|]. split; [discriminate|].
    intros t [= <-]. replace (S calls0 - calls0 - 1)%nat with 0%nat by lia.
    rewrite Z.add_0_r. split; [exact E|]. intros j Hj. lia.
  - assert (Hfail : failsAt env i url ref attempt) by (exists error; exact E).
    destruct (attempt =? retries)%Z eqn:Ea.
    + apply Z.eqb_eq in Ea. cbn [calls pauses settled].
      split; [lia|]. split; [lia|].
      split; [|split; [discriminate|discriminate]].
      intros e _. split; [lia|]. intros k Hk.
      replace k with attempt by lia. exact Hfail.
    + apply Z.eqb_neq in Ea.
      destruct (IH (attempt + 1) (S calls0) (S pauses0) ltac:(lia) ltac:(lia))
        as (Hc & Hp & Hrej & Hund & Hres).
      split; [lia|]. split; [lia|]. split; [|split; [exact Hund|]].
      * intros e He. destruct (Hrej e He) as [Hcalls Hall]. split; [lia|].
        intros k Hk. destruct (Z.eq_dec k attempt) as [->|Hne]; [exact Hfail|].
        apply Hall. lia.
      * intros target Ht. cbv zeta.
        destruct (Hres target Ht) as [Hr Hbefore]. cbv zeta in Hr, Hbefore.
        replace (attempt + Z.of_nat (calls _ - calls0 - 1))
          with (attempt + 1 + Z.of_nat (calls (retryLoop n env i url ref retries
                                                 (attempt + 1) (S calls0) (S pauses0))
                                        - S calls0 - 1)) by lia.
        split; [exact Hr|]. intros j Hj.
        destruct (Z.eq_dec j attempt) as [->|Hne]; [exact Hfail|].
        apply Hbefore. lia.
Qed.

End RetryFacts.

(** X22.  [getFinalUrls] without attempts.  With [retries] at 0 or below,
    the loop of [retryRequest] makes no turn: no URL is asked for, and every
    entry of the result is [undefined], not a string. *)
Theorem getFinalUrls_without_attempts_gives_undefined
    (env : DataFetcher.Env) (urls : list string) (ref : string) (retries : Z) :
  retries <= 0 ->
  DataFetcher.getFinalUrls env urls ref (Some retries)
  = map (fun _ => DataFetcher.JsUndefined) urls
  /\ forall i url, DataFetcher.calls (DataFetcher.retryRequest env i url ref retries) = 0%nat.
Proof.
  intros Hr. unfold DataFetcher.getFinalUrls, DataFetcher.retryRequest.
  cbn [default from_option id]. replace (Z.to_nat retries) with 0%nat by lia.
  cbn [DataFetcher.retryLoop DataFetcher.settled DataFetcher.placeholder DataFetcher.calls].
  split; [|reflexivity].
  generalize 0%nat. induction urls as [|u urls IH]; intros n; [reflexivity|].
  cbn [imap map]. f_equal. apply (IH (S n)).
Qed.

Lemma getFinalUrls_without_attempts_witness :
  DataFetcher.getFinalUrls Examples.batch ["urlA"; "urlC"] "ref" (Some 0)
  = [DataFetcher.JsUndefined; DataFetcher.JsUndefined].
Proof.
  apply (getFinalUrls_without_attempts_gives_undefined Examples.batch ["urlA"; "urlC"]
           "ref" 0).
  lia.
Defined.

(** X23.  The turns of [retryRequest].  With one attempt at least, the loop
    calls [getFinalUrl] between once and [retries] times and pauses once
    after each call but the last; it rejects only after [retries] calls
    that all failed; what it fulfils with is a string, the result of its
    last call, all earlier calls having failed. *)
Theorem retryRequest_pauses_between_calls
    (env : DataFetcher.Env) (i : nat) (url ref : string) (retries : Z) :
  1 <= retries ->
  let run := DataFetcher.retryRequest env i url ref retries in
  (1 <= DataFetcher.calls run <= Z.to_nat retries)%nat
  /\ DataFetcher.pauses run = (DataFetcher.calls run - 1)%nat
  /\ (forall e, DataFetcher.settled run = DataFetcher.Rejected e ->
        DataFetcher.calls run = Z.to_nat retries
        /\ forall k, 1 <= k <= retries -> DataFetcher.failsAt env i url ref k)
  /\ DataFetcher.settled run <> DataFetcher.Fulfilled DataFetcher.JsUndefined
  /\ (forall target,
        DataFetcher.settled run = DataFetcher.Fulfilled (DataFetcher.JsString target) ->
        DataFetcher.resolvesAt env i url ref (Z.of_nat (DataFetcher.calls run)) target
        /\ forall j, 1 <= j < Z.of_nat (DataFetcher.calls run) ->
                     DataFetcher.failsAt env i url ref j).
Proof.
  intros Hr. cbv zeta. unfold DataFetcher.retryRequest.
  destruct (retryLoop_run env i url ref retries (Z.to_nat retries) 1 0 0
              ltac:(lia) ltac:(lia)) as (Hc & Hp & Hrej & Hund & Hres).
  cbv zeta in Hres.
  split; [lia|]. split; [lia|]. split; [|split; [exact Hund|]].
  - intros e He. destruct (Hrej e He) as [H1 H2]. split; [lia|exact H2].
  - intros target Ht. destruct (Hres target Ht) as [H1 H2].
    replace (Z.of_nat (DataFetcher.calls _))
      with (1 + Z.of_nat (DataFetcher.calls
                            (DataFetcher.retryLoop (Z.to_nat retries) env i url ref
                               retries 1 0 0) - 0 - 1)) by lia.
    split; [exact H1|exact H2].
Qed.

Lemma retryRequest_witness :
  (1 <= DataFetcher.calls (DataFetcher.retryRequest Examples.batch 1 "urlC" "ref" 3) <= 3)%nat
  /\ DataFetcher.pauses (DataFetcher.retryRequest Examples.batch 1 "urlC" "ref" 3)
     = (DataFetcher.calls (DataFetcher.retryRequest Examples.batch 1 "urlC" "ref" 3) - 1)%nat.
Proof.
  pose proof (retryRequest_pauses_between_calls Examples.batch 1 "urlC" "ref" 3
                ltac:(lia)) as H.
  cbv zeta in H. destruct H as (Hc & Hp & _). split; [exact Hc|exact Hp].
Defined.

(** ** The fallback of the redirect resolution *)

Section FallbackFacts.
Import Http Errors Fallback.
Context (env : Env) (i : nat) (url : string) (timeout : option Z) (retries : Z).

Lemma getFinalUrlFallback_result (outcome : Response + Foreign) (s : string) :
  getFinalUrlFallback url timeout outcome = inl s ->
  s = url
  \/ exists r, outcome = inl r /\ 300 <= Http.status r < 400 /\ location r = Some s.
Proof.
  unfold getFinalUrlFallback. destruct outcome as [r|e].
  - destruct ((300 <=? Http.status r)%Z && (Http.status r <? 400)%Z) eqn:E;
      [|intros [= <-]; left; reflexivity].
    apply andb_true_iff in E as [E1 E2]. apply Z.leb_le in E1. apply Z.ltb_lt in E2.
    destruct (location r) as [loc|] eqn:El; [|intros [= <-]; left; reflexivity].
    destruct (JsString.truthy loc); intros [= <-]; [|left; reflexivity].
    right. exists r. split; [reflexivity|]. split; [lia|exact El].
  - destruct (_ && _); discriminate.
Qed.

Lemma retryLoop_result (n : nat) (attempt : Z) (s : string) :
  Z.of_nat n <= retries - attempt + 1 ->
  retryLoop n env i url timeout retries attempt = inl s ->
  s = url
  \/ exists k r, attempt <= k <= retries /\ fetchedHead env i url k = inl r
                 /\ 300 <= Http.status r < 400 /\ location r = Some s.
Proof.
  revert attempt. induction n as [|n IH]; intros attempt Hn; cbn [retryLoop].
  - intros [= <-]. left. reflexivity.
  - destruct (getFinalUrlFallback url timeout (fetchedHead env i url attempt))
      as [target|error] eqn:E.
    + intros [= <-]. apply getFinalUrlFallback_result in E as [->|(r & Hr & Hs & Hl)];
        [left; reflexivity|].
      right. exists attempt, r. split; [lia|]. split; [exact Hr|]. split; assumption.
    + destruct (attempt =? retries)%Z; [discriminate|].
      intros H. apply IH in H as [->|(k & r & Hk & Hrest)]; [left; reflexivity| |lia].
      right. exists k, r. split; [lia|exact Hrest].
Qed.

End FallbackFacts.

(** X24.  What [getFinalUrlsFallback] returns.  The result has one string
    for each URL, in the order of the URLs: the empty string, the URL
    itself, or the [location] header of a response with a status from 300
    to 399 that one of the URL's own requests got, as the header has it;
    with [retries] at 0 or below it is the list of the URLs. *)
Theorem getFinalUrlsFallback_returns_strings
    (env : Fallback.Env) (urls : list string) (timeout : option Z) (retries : option Z) :
  let r := default 3 retries in
  length (Fallback.getFinalUrlsFallback env urls timeout retries) = length urls
  /\ (forall i url,
        urls !! i = Some url ->
        exists s,
          Fallback.getFinalUrlsFallback env urls timeout retries !! i = Some s
          /\ (s = "" \/ s = url
              \/ exists k response,
                   1 <= k <= r /\ Fallback.fetchedHead env i url k = inl response
                   /\ 300 <= Http.status response < 400
                   /\ Http.location response = Some s))
  /\ (r <= 0 -> Fallback.getFinalUrlsFallback env urls timeout retries = urls).
Proof.
  intros r. unfold Fallback.getFinalUrlsFallback. fold r.
  split; [apply length_imap|]. split.
  - intros i url Hi. rewrite list_lookup_imap, Hi. cbn [option_map fmap option_fmap].
    eexists. split; [reflexivity|].
    unfold Fallback.retryRequest.
    destruct (Fallback.retryLoop (Z.to_nat r) env i url timeout r 1) as [s|e] eqn:E;
      [|left; reflexivity].
    right. destruct (Z_le_gt_dec r 0) as [Hle|Hgt].
    + replace (Z.to_nat r) with 0%nat in E by lia. cbn [Fallback.retryLoop] in E.
      injection E as <-. left. reflexivity.
    + apply retryLoop_result in E as [->|H]; [left; reflexivity|right; exact H|lia].
  - intros Hr. unfold Fallback.retryRequest. replace (Z.to_nat r) with 0%nat by lia.
    cbn [Fallback.retryLoop]. generalize 0%nat.
    induction urls as [|u urls IH]; intros n; [reflexivity|].
    cbn [imap]. f_equal. apply (IH (S n)).
Qed.

(** A redirect to a relative location and a refused connection. *)
Lemma getFinalUrlsFallback_witness :
  Fallback.getFinalUrlsFallback Fallback.batch ["https://site.test/a"; "https://site.test/b"]
    None (Some 0)
  = ["https://site.test/a"; "https://site.test/b"].
Proof.
  pose proof (getFinalUrlsFallback_returns_strings Fallback.batch
                ["https://site.test/a"; "https://site.test/b"] None (Some 0)) as H.
  cbv zeta in H. destruct H as (_ & _ & H). apply H. cbn. lia.
Defined.

(** ** Payloads and the cache *)

Section PayloadFacts.
Import HonoHelpers.

Lemma isOk_three_digits :
  forallb (fun code => Bool.eqb (isOk code) (code <? 400)%Z) (seqZ 100 500) = true.
Proof. vm_compute. reflexivity. Qed.

Lemma isOk_status (code : Z) : 100 <= code <= 599 -> isOk code = (code <? 400)%Z.
Proof.
  intros Hc. pose proof isOk_three_digits as H.
  rewrite forallb_forall in H. apply Bool.eqb_prop, H.
  apply list_elem_of_In, elem_of_seqZ. lia.
Qed.

End PayloadFacts.

(** X25.  The [ok] flag of a payload and the cache.  For a status from 100
    to 599 the payload of [generateHonoPayload] has [ok] true exactly when
    the status is below 400; and the cache middleware of a JSON route keeps
    a response that carries such a payload exactly when the status is below
    399, the stored value being the payload. *)
Theorem generateHonoPayload_cached_below_399
    (statusCodes : Z -> option string) (statusCode : Z)
    (props : option HonoHelpers.PayloadProps) (body : string) :
  (100 <= statusCode <= 599)%Z ->
  let payload := HonoHelpers.generateHonoPayload statusCodes statusCode props in
  (Json.okIsTrue payload = true <-> (statusCode < 400)%Z)
  /\ (is_Some (Cache.toStore Cache.json
                 (HonoHelpers.respond statusCodes statusCode props body))
      <-> (statusCode < 399)%Z)
  /\ forall v,
       Cache.toStore Cache.json (HonoHelpers.respond statusCodes statusCode props body)
       = Some v ->
       match v with
       | LruCache.VObject fields => Json.JObject fields = payload
       | LruCache.VText _ => False
       end.
Proof.
  intros Hc. cbv zeta.
  assert (Hok : Json.okFlag (HonoHelpers.generateHonoPayload statusCodes statusCode props)
                = (statusCode <? 400)%Z).
  { unfold HonoHelpers.generateHonoPayload. cbn [Json.okFlag Json.field String.eqb].
    cbn. apply isOk_status, Hc. }
  split; [|split].
  - unfold HonoHelpers.generateHonoPayload. cbn. rewrite (isOk_status _ Hc).
    destruct (statusCode <? 400)%Z eqn:E; [apply Z.ltb_lt in E|apply Z.ltb_ge in E];
      split; intros H; first [reflexivity|exact E|discriminate|lia].
  - split.
    + intros [v Hv]. apply toStore_json in Hv as [Hs _]. exact Hs.
    + intros Hs. eexists. apply toStore_json. split; [exact Hs|].
      eexists. split; [reflexivity|]. split; [|reflexivity].
      unfold HonoHelpers.generateHonoPayload in Hok. rewrite Hok. apply Z.ltb_lt. lia.
  - intros v Hv. apply toStore_json in Hv as (_ & fields & Hj & _ & ->).
    cbn in Hj. injection Hj as <-. reflexivity.
Qed.

Lemma generateHonoPayload_witness :
  Json.okIsTrue (HonoHelpers.generateHonoPayload (fun _ => Some "Not Found") 404 None) = true
  <-> (404 < 400)%Z.
Proof.
  apply (generateHonoPayload_cached_below_399 (fun _ => Some "Not Found") 404 None "{}").
  lia.
Defined.

(** ** The fetcher: the last error of the site *)

Section FetcherLastError.
Import World Http Errors Fetcher.
Context (env : Env) (req : FetchRequestOptions) (u : URL).

Local Abbreviation siteKey := (default (host u) (site req)).
Local Abbreviation budget := (default 3%Z (maxRetries req)).

Lemma lastError_recorded (site0 : string) (status : option Z) (message : string)
    (url : option string) (w : World.t) :
  Health.lastErrorOf site0 (ScrapeMetrics.recordScrapeFailure site0 status message url w)
  = Some {| Metrics.at_ := World.now w; Metrics.le_status := status;
            Metrics.le_message := message; Metrics.le_url := url |}.
Proof.
  unfold Health.lastErrorOf, ScrapeMetrics.recordScrapeFailure, ScrapeMetrics.getOrCreate.
  wcbn. rewrite lookup_insert_eq. reflexivity.
Qed.

(** What the loop throws with a cause repeats the message and the status
    of its cause, and is what the health record of the site shows as its
    last error. *)
Lemma attempts_last_error (fuel limitFuel : nat) (attempt : Z) (w : World.t)
    (w' : World.t) (message : string) (status : option Z) (url0 site0 : option string)
    (cause : Thrown) :
  attempts fuel limitFuel env req u attempt w
  = Some (Threw (ScraperError message status url0 site0 (Some cause)), w') ->
  message = messageOf cause /\ status = Errors.status cause
  /\ Health.lastErrorOf siteKey w'
     = Some {| Metrics.at_ := World.now w'; Metrics.le_status := status;
               Metrics.le_message := message; Metrics.le_url := Some (url req) |}.
Proof.
  revert attempt w. induction fuel as [|fuel IH]; intros attempt w Hrun; [discriminate|].
  cbn [attempts] in Hrun.
  destruct (attemptPass limitFuel env req u (attempt + 1) w) as [step|] eqn:Epass;
    [|discriminate].
  apply attemptPass_inv in Epass as (w1 & _ & _ & _ & _ & _ & Hcase).
  destruct Hcase as [(sg' & _ & _ & ->)
                    |(_ & rec & w3 & _ & _ & _ & _ & _ & _ & _ & _ & ->)].
  - discriminate Hrun.
  - destruct (fr_result rec) as [r|e] eqn:Eres.
    + destruct (onResponse_cases env (url req) siteKey (host u) budget (attempt + 1) r w3)
        as [(_ & _ & _ & E)|[(_ & _ & _ & E)|[(_ & _ & E)|(_ & E)]]]; rewrite E in Hrun.
      * exact (IH _ _ Hrun).
      * exact (IH _ _ Hrun).
      * injection Hrun as <- <- <- <- <- <-.
        split; [reflexivity|]. split; [reflexivity|].
        unfold recorded. rewrite lastError_recorded. reflexivity.
      * discriminate Hrun.
    + destruct (onError_cases env (url req) siteKey budget (attempt + 1) e w3)
        as [(_ & base & jitter & E)|E]; rewrite E in Hrun.
      * exact (IH _ _ Hrun).
      * injection Hrun as <- <- <- <- <- <-.
        split; [reflexivity|]. split; [reflexivity|].
        rewrite lastError_recorded. reflexivity.
Qed.

End FetcherLastError.

(** X26.  The last error of the site.  When [fetchResponse] throws a
    [ScraperError] with a cause (all it throws but ["Request aborted"]),
    the error repeats the message and the status of its cause, and the
    health record of the site shows them, with the URL and the time of the
    failure, as the last error. *)
Theorem fetchResponse_failure_is_last_error
    (env : World.Env) (req : Fetcher.FetchRequestOptions) (u : Http.URL) (w w' : World.t)
    (fuel : nat) (message : string) (status : option Z) (url site : option string)
    (cause : Errors.Thrown) :
  World.parseURL env (Fetcher.url req) = Some u ->
  Fetcher.fetchResponse fuel env req w
  = Some (Fetcher.Threw (Errors.ScraperError message status url site (Some cause)), w') ->
  message = Errors.messageOf cause /\ status = Errors.status cause
  /\ Health.lastErrorOf (default (Http.host u) (Fetcher.site req)) w'
     = Some {| Metrics.at_ := World.now w'; Metrics.le_status := status;
               Metrics.le_message := message; Metrics.le_url := Some (Fetcher.url req) |}.
Proof.
  intros Hurl Hrun. unfold Fetcher.fetchResponse in Hrun. rewrite Hurl in Hrun.
  exact (attempts_last_error env req u fuel fuel 0 w w' message status url site cause Hrun).
Qed.

Lemma fetchResponse_last_error_witness :
  Health.lastErrorOf "site.test" (Examples.stateAfter Scenarios.notFound)
  = Some {| Metrics.at_ := World.now (Examples.stateAfter Scenarios.notFound);
            Metrics.le_status := Some 404;
            Metrics.le_message := "Fetch failed with status 404";
            Metrics.le_url := Some "https://site.test/a" |}.
Proof.
  apply (fetchResponse_failure_is_last_error (Examples.server 10 (fun _ => 404))
           (Examples.request 0 None) Examples.siteUrl Examples.fresh
           (Examples.stateAfter Scenarios.notFound) 3 "Fetch failed with status 404"
           (Some 404) (Some "https://site.test/a") (Some "site.test")
           (Errors.FetchFailedError "Fetch failed with status 404" 1 (Some 404)
              "https://site.test/a" (Some "site.test") None)).
  - reflexivity.
  - vm_compute. reflexivity.
Defined.
